(** * libnnbenchmark: the TFLite benchmark loop of [run_tflite.cpp]

    A shallow embedding of [BenchmarkModel] (setInput, saveInferenceOutput,
    getOutputError, runInference, resetStates, benchmark) and of the
    trace-function set-up, with the properties of the benchmark protocol
    proved over it.

    The C [float] is IEEE-754 binary32; it is modelled with the
    parametric specification of floating-point arithmetic of the standard
    library ([SpecFloat], round to nearest even) at precision 24 and
    maximal exponent 128. *)

From Stdlib Require Import ZArith String List Bool Lia PeanoNat.
From Stdlib Require Import Init.Byte.
From Stdlib Require Import Floats.SpecFloat.
From Stdlib Require Import Ascii DecimalString DecimalNat.
Import ListNotations.

Set Implicit Arguments.
Local Open Scope Z_scope.

(* ================================================================== *)
(** ** The C [float] type *)

Definition float : Type := spec_float.

Module F32.

Definition prec : Z := 24.
Definition emax : Z := 128.

(** [0.0f] *)
Definition zero : float := S754_zero false.

(** Conversion of an integer ([uint8_t], [size_t], [long long]) to
    [float]. *)
Definition of_Z (z : Z) : float := binary_normalize prec emax z 0 false.

Definition add : float -> float -> float := SFadd prec emax.
Definition sub : float -> float -> float := SFsub prec emax.
Definition mul : float -> float -> float := SFmul prec emax.
Definition div : float -> float -> float := SFdiv prec emax.

(** [x > y] *)
Definition gt (x y : float) : bool := SFltb y x.

Definition valid (x : float) : bool := valid_binary prec emax x.

(** The value held by the 32 bits [w] of a [float] object
    (sign, 8 exponent bits, 23 fraction bits). *)
Definition of_bits (w : Z) : float :=
  let s := 2147483648 <=? w mod 4294967296 in
  let e := (w / 8388608) mod 256 in
  let m := w mod 8388608 in
  if e =? 0 then
    match m with
    | Zpos p => S754_finite s p (-149)
    | _ => S754_zero s
    end
  else if e =? 255 then
    if m =? 0 then S754_infinity s else S754_nan
  else
    match m + 8388608 with
    | Zpos p => S754_finite s p (e - 150)
    | _ => S754_nan
    end.

(** Sign classes used to state the behaviour of the signed maximum. *)
Definition is_pos (x : float) : bool :=
  match x with
  | S754_finite false _ _ | S754_infinity false => true
  | _ => false
  end.

Definition is_neg (x : float) : bool :=
  match x with
  | S754_finite true _ _ | S754_infinity true => true
  | _ => false
  end.

(** The sign carried by a result that is not a zero. *)
Definition signed_nonzero (s : bool) (x : spec_float) : Prop :=
  match x with
  | S754_finite s' _ _ | S754_infinity s' => s' = s
  | _ => False
  end.

(** The integer a float is exactly equal to, when it is one. *)
Definition to_Z (x : float) : option Z :=
  match x with
  | S754_zero _ => Some 0
  | S754_finite s m e =>
      if 0 <=? e then Some (cond_Zopp s (Zpos m * 2 ^ e))
      else if Zpos m mod 2 ^ (- e) =? 0
           then Some (cond_Zopp s (Zpos m / 2 ^ (- e)))
           else None
  | _ => None
  end.

End F32.

(* ================================================================== *)
(** ** Bytes and buffers *)

Definition uint8 (b : byte) : Z := Z.of_N (Byte.to_N b).

(** Little-endian value of a group of bytes. *)
Fixpoint le_word (bs : list byte) : Z :=
  match bs with
  | [] => 0
  | b :: rest => uint8 b + 256 * le_word rest
  end.

(** A buffer of bytes read as an array of [float] through
    [reinterpret_cast<const float*>]: element [i] is made of the bytes
    [4i .. 4i+3]; a trailing group of fewer than four bytes is not an
    element. *)
Fixpoint as_floats (n : nat) (bs : list byte) : list float :=
  match n with
  | O => []
  | S n' => F32.of_bits (le_word (firstn 4 bs)) :: as_floats n' (skipn 4 bs)
  end.

(** [memcpy(dst, src, n)] on buffers; [None] when [n] exceeds either
    buffer, where the C call is undefined. *)
Definition memcpy (dst src : list byte) (n : nat) : option (list byte) :=
  if (n <=? length dst)%nat && (n <=? length src)%nat
  then Some (firstn n src ++ skipn n dst)
  else None.

(* ================================================================== *)
(** ** Tensors, as the benchmark sees them *)

(** Element types of a tensor ([TfLiteType] of the TFLite C API of the
    time of this file). *)
Inductive TfLiteType :=
| kTfLiteNoType | kTfLiteFloat32 | kTfLiteInt32 | kTfLiteUInt8
| kTfLiteInt64 | kTfLiteString | kTfLiteBool | kTfLiteInt16
| kTfLiteComplex64.

Inductive TfLiteStatus := kTfLiteOk | kTfLiteError.

(** [type] and the storage [data.raw]; [bytes] is the size of the
    storage. *)
Record TfLiteTensor := mkTensor {
  type : TfLiteType;
  raw : list byte
}.

Definition bytes (t : TfLiteTensor) : nat := length (raw t).

(** [struct InferenceResult], in the order of the aggregate
    initialisation at the head of the loop body of [benchmark]. *)
Record InferenceResult := mkResult {
  computeTimeSec : float;
  meanSquareError : float;
  maxSingleError : float;
  inferenceOutput : list byte;
  inputOutputSequenceIndex : Z;
  inputOutputIndex : Z
}.

(* ================================================================== *)
(** ** Outcomes of a call *)

(** How a call ends.  [FATAL] logs and asserts false: with assertions
    enabled control never passes a [FATAL], which is [Fatal] here.
    [Undefined] stands for a C++ execution without defined behaviour:
    a call through a null function pointer, a [memcpy] or a read past
    the end of a buffer. *)
Inductive Outcome (A : Type) :=
| Done (a : A)
| Fatal (msg : string)
| Undefined.

Arguments Fatal {A} msg.
Arguments Undefined {A}.

(* ================================================================== *)
(** ** ErrorMetric: [getOutputError] *)

(** One iteration of either [for] loop of [getOutputError], on the
    element error [err]. *)
Definition error_step (acc : float * float) (err : float) : float * float :=
  let '(max_error, err_sum) := acc in
  (if F32.gt err max_error then err else max_error,
   F32.add err_sum (F32.mul err err)).

(** Element errors of the [kTfLiteUInt8] case. *)
Definition uint8_errors (output_raw expected_data : list byte) : list float :=
  map (fun '(o, e) => F32.sub (F32.of_Z (uint8 o)) (F32.of_Z (uint8 e)))
      (combine output_raw expected_data).

(** Element errors of the [kTfLiteFloat32] case. *)
Definition float_errors (output_raw expected_data : list byte) : list float :=
  let n := (length output_raw / 4)%nat in
  map (fun '(o, e) => F32.sub o e)
      (combine (as_floats n output_raw) (as_floats n expected_data)).

(** The end of [getOutputError], after a loop over [elements_count]
    elements that has read the first [read] bytes of [expected_data]. *)
Definition output_error (expected_data : list byte) (read : nat)
    (elements_count : nat) (errs : list float) (result : InferenceResult)
  : Outcome InferenceResult :=
  if (List.length expected_data <? read)%nat then Undefined
  else
    let '(max_error, err_sum) :=
      fold_left error_step errs (F32.zero, F32.zero) in
    Done (mkResult (computeTimeSec result)
                   (F32.div err_sum (F32.of_Z (Z.of_nat elements_count)))
                   max_error
                   (inferenceOutput result)
                   (inputOutputSequenceIndex result)
                   (inputOutputIndex result)).

(** [getOutputError], on the tensor [tensor(outputs()[0])]. *)
Definition getOutputError (output_tensor : TfLiteTensor)
    (expected_data : list byte) (length : nat) (result : InferenceResult)
  : Outcome InferenceResult :=
  if negb (bytes output_tensor =? length)%nat then
    Fatal "Wrong size of output tensor, expected %zu, is %zu"
  else
    match type output_tensor with
    | kTfLiteUInt8 =>
        output_error expected_data (bytes output_tensor)
          (bytes output_tensor)
          (uint8_errors (raw output_tensor) expected_data) result
    | kTfLiteFloat32 =>
        output_error expected_data (4 * (bytes output_tensor / 4))
          (bytes output_tensor / 4)
          (float_errors (raw output_tensor) expected_data) result
    | _ => Fatal "Output sensor type %d not supported"
    end.

(** [saveInferenceOutput]: the bytes of the output tensor are appended
    to the result's output vector. *)
Definition saveInferenceOutput (output_tensor : TfLiteTensor)
    (result : InferenceResult) : InferenceResult :=
  mkResult (computeTimeSec result) (meanSquareError result)
           (maxSingleError result)
           (inferenceOutput result ++ raw output_tensor)
           (inputOutputSequenceIndex result) (inputOutputIndex result).

(* ================================================================== *)
(** ** TraceSpan: the dynamically loaded trace functions *)

(** A function pointer: [None] is [nullptr], [Some a] the address of a
    function. *)
Definition fnptr : Type := option positive.

(** A loaded shared object, as its symbol table. *)
Definition Lib : Type := string -> fnptr.

Definition dlsym (lib : Lib) (symbol : string) : fnptr := lib symbol.

Record TraceFunc := mkTraceFunc {
  ATrace_beginSection : fnptr;
  ATrace_endSection : fnptr
}.

(** [setupTraceFunc], on the result of [dlopen("libandroid.so", ...)]
    ([None] when it returns [nullptr]). *)
Definition setupTraceFunc (lib : option Lib) : Outcome TraceFunc :=
  match lib with
  | None => Fatal "unable to open libandroid.so"
  | Some lib =>
      Done (mkTraceFunc (dlsym lib "ATrace_beginSection")
                        (dlsym lib "ATrace_endSection"))
  end.

(** A completed call of a trace function: its address and argument. *)
Inductive TraceEvent :=
| TraceCall (f : positive) (sectionName : option string).

(* ================================================================== *)
(** ** The inference engine and the state of a run *)

(** What [run_tflite.cpp] uses of [tflite::Interpreter]:
    [input0] is [tensor(inputs()[0])], [output0] is
    [tensor(outputs()[0])], [store_input0] a write of the whole storage
    of the input tensor through its [data.raw] pointer. *)
Class TfLite (Interpreter : Type) := {
  input0 : Interpreter -> TfLiteTensor;
  output0 : Interpreter -> TfLiteTensor;
  store_input0 : list byte -> Interpreter -> Interpreter;
  Invoke : Interpreter -> TfLiteStatus * Interpreter;
  ResetVariableTensorsToZero : Interpreter -> TfLiteStatus * Interpreter
}.

Inductive LogPriority := ANDROID_LOG_ERROR | ANDROID_LOG_FATAL.

(** A line written by [__android_log_print]: priority, format, and the
    integer arguments of the format. *)
Record LogLine := mkLog {
  log_prio : LogPriority;
  log_fmt : string;
  log_args : list Z
}.

(** The state a call of a [BenchmarkModel] method runs in: the
    interpreter, the number of readings of the clock made so far, the
    log and the trace. *)
Record World (Interpreter : Type) := mkWorld {
  mTfliteInterpreter : Interpreter;
  clock_reads : nat;
  logcat : list LogLine;
  systrace : list TraceEvent
}.

(** Computations over the world that may end in [Fatal] or
    [Undefined]. *)
Definition M (I A : Type) : Type := World I -> Outcome (A * World I).

Definition ret {I A} (a : A) : M I A := fun w => Done (a, w).

Definition bind {I A B} (m : M I A) (k : A -> M I B) : M I B :=
  fun w =>
    match m w with
    | Done (a, w') => k a w'
    | Fatal msg => Fatal msg
    | Undefined => Undefined
    end.

Declare Scope bench_scope.
Delimit Scope bench_scope with bench.
Notation "x <- m ;; k" := (bind m (fun x => k))
  (at level 61, m at next level, right associativity) : bench_scope.
Notation "m ;;; k" := (bind m (fun _ => k))
  (at level 61, right associativity) : bench_scope.

Definition lift {I A} (o : Outcome A) : M I A :=
  fun w =>
    match o with
    | Done a => Done (a, w)
    | Fatal msg => Fatal msg
    | Undefined => Undefined
    end.

Definition android_log_print {I} (prio : LogPriority) (fmt : string)
    (args : list Z) : M I unit :=
  fun w => Done (tt, mkWorld (mTfliteInterpreter w) (clock_reads w)
                             (logcat w ++ [mkLog prio fmt args])
                             (systrace w)).

(** A call through a trace function pointer. *)
Definition call_trace {I} (f : fnptr) (sectionName : option string)
  : M I unit :=
  fun w =>
    match f with
    | None => Undefined
    | Some a =>
        Done (tt, mkWorld (mTfliteInterpreter w) (clock_reads w) (logcat w)
                          (systrace w ++ [TraceCall a sectionName]))
    end.

Definition get_interpreter {I} : M I I :=
  fun w => Done (mTfliteInterpreter w, w).

Definition put_interpreter {I} (i : I) : M I unit :=
  fun w => Done (tt, mkWorld i (clock_reads w) (logcat w) (systrace w)).

(** [struct InferenceInOut] of [run_tflite.h]: [input] is [None] for a
    null pointer, and then [createInput] fills the buffer it is given
    (its contents and its size) and reports success. *)
Record InferenceInOut := mkInOut {
  input : option (list byte);
  input_size : nat;
  output : list byte;
  output_size : nat;
  createInput : list byte -> nat -> bool * list byte
}.

Definition InferenceInOutSequence : Type := list InferenceInOut.

(* ================================================================== *)
(** ** BenchmarkModel *)

Section BenchmarkModel.

Context {Interpreter : Type} `{TfLite Interpreter}.

(** The [n]-th reading of [gettimeofday], in microseconds
    ([tv_sec * 1000000 + tv_usec]). *)
Variable gettimeofday : nat -> Z.

(** The static [kTraceFunc], set by [setupTraceFunc] when the library
    is loaded. *)
Variable kTraceFunc : TraceFunc.

(** The two flag bits of [run_tflite.h]. *)
Variable FLAG_IGNORE_GOLDEN_OUTPUT : Z.
Variable FLAG_DISCARD_INFERENCE_OUTPUT : Z.

Local Open Scope bench_scope.

Definition currentTimeInUsec : M Interpreter Z :=
  fun w => Done (gettimeofday (clock_reads w),
                 mkWorld (mTfliteInterpreter w) (S (clock_reads w))
                         (logcat w) (systrace w)).

Definition setInput (dataPtr : list byte) (length : nat) : M Interpreter bool :=
  interp <- get_interpreter ;;
  let input_tensor := input0 interp in
  match type input_tensor with
  | kTfLiteFloat32 | kTfLiteUInt8 =>
      match memcpy (raw input_tensor) dataPtr length with
      | Some raw' =>
          put_interpreter (store_input0 raw' interp) ;;;
          ret true
      | None => fun _ => Undefined
      end
  | _ =>
      android_log_print ANDROID_LOG_ERROR
        "Input tensor type not supported" [] ;;;
      ret false
  end.

Definition runInference : M Interpreter bool :=
  interp <- get_interpreter ;;
  let '(status, interp') := Invoke interp in
  put_interpreter interp' ;;;
  match status with
  | kTfLiteOk => ret true
  | kTfLiteError =>
      android_log_print ANDROID_LOG_ERROR "Failed to invoke: %d!" [1] ;;;
      ret false
  end.

Definition resetStates : M Interpreter bool :=
  interp <- get_interpreter ;;
  let '(status, interp') := ResetVariableTensorsToZero interp in
  put_interpreter interp' ;;;
  match status with
  | kTfLiteOk => ret true
  | kTfLiteError =>
      android_log_print ANDROID_LOG_ERROR
        "Failed to reset variable tensors: %d!" [1] ;;;
      ret false
  end.

(** The provision of the input in the body of the inner loop: the
    branch on [data.input].  The value is false when the fill callback
    fails, and true otherwise: what [setInput] returns is dropped. *)
Definition provide_input (data : InferenceInOut) : M Interpreter bool :=
  match input data with
  | Some dataPtr =>
      setInput dataPtr (input_size data) ;;;
      ret true
  | None =>
      interp <- get_interpreter ;;
      let input_tensor := input0 interp in
      let '(ok, raw') :=
        createInput data (raw input_tensor) (bytes input_tensor) in
      put_interpreter (store_input0 raw' interp) ;;;
      ret ok
  end.

(** The body of the inner loop once the input is in place: the end of
    the input span, the timed inference, and the result record.  The
    value is the vector [*results] afterwards with, when the body runs
    to its end, the new [inferenceTotal]; [None] is [return false]. *)
Definition timed_inference (flags : Z) (inputOutputSequenceIndex : Z)
    (i : Z) (data : InferenceInOut) (inferenceTotal : float)
    (results : list InferenceResult)
  : M Interpreter (option float * list InferenceResult) :=
  call_trace (ATrace_endSection kTraceFunc) None ;;;
  startTime <- currentTimeInUsec ;;
  success <- runInference ;;
  call_trace (ATrace_endSection kTraceFunc) None ;;;
  endTime <- currentTimeInUsec ;;
  if negb success then
    android_log_print ANDROID_LOG_ERROR "Inference %d failed" [i] ;;;
    ret (None, results)
  else
    let inferenceTime :=
      F32.div (F32.of_Z (endTime - startTime)) (F32.of_Z 1000000) in
    let result :=
      mkResult inferenceTime F32.zero F32.zero []
               inputOutputSequenceIndex i in
    result <-
      (if Z.land flags FLAG_IGNORE_GOLDEN_OUTPUT =? 0 then
         interp <- get_interpreter ;;
         lift (getOutputError (output0 interp) (output data)
                              (output_size data) result)
       else ret result) ;;
    result <-
      (if Z.land flags FLAG_DISCARD_INFERENCE_OUTPUT =? 0 then
         interp <- get_interpreter ;;
         ret (saveInferenceOutput (output0 interp) result)
       else ret result) ;;
    ret (Some (F32.add inferenceTotal inferenceTime),
         results ++ [result]).

(** The body of the inner [for] loop of [benchmark], for the entry
    [data = seq[i]], from the total [inferenceTotal] and the vector
    [*results]. *)
Definition benchmark_entry (flags : Z) (inputOutputSequenceIndex : Z)
    (i : Z) (data : InferenceInOut) (inferenceTotal : float)
    (results : list InferenceResult)
  : M Interpreter (option float * list InferenceResult) :=
  call_trace (ATrace_beginSection kTraceFunc)
             (Some "[NN_LA_PE]BenchmarkModel::benchmark"%string) ;;;
  call_trace (ATrace_beginSection kTraceFunc)
             (Some "[NN_LA_PIO]BenchmarkModel::input"%string) ;;;
  created <- provide_input data ;;
  if negb created then
    android_log_print ANDROID_LOG_ERROR "Input creation %d failed" [i] ;;;
    ret (None, results)
  else
    timed_inference flags inputOutputSequenceIndex i data
                    inferenceTotal results.

(** The inner [for] loop, over the entries [seq[i], seq[i+1], ...]
    that are left. *)
Fixpoint benchmark_sequence (flags : Z) (inputOutputSequenceIndex : Z)
    (i : Z) (seq : InferenceInOutSequence) (inferenceTotal : float)
    (results : list InferenceResult)
  : M Interpreter (option float * list InferenceResult) :=
  match seq with
  | [] => ret (Some inferenceTotal, results)
  | data :: rest =>
      r <- benchmark_entry flags inputOutputSequenceIndex i data
                           inferenceTotal results ;;
      match r with
      | (Some inferenceTotal', results') =>
          benchmark_sequence flags inputOutputSequenceIndex (i + 1) rest
                             inferenceTotal' results'
      | (None, results') => ret (None, results')
      end
  end.

(** The outer [for] loop, with [steps] iterations left to run from
    [seqInferenceIndex].  The value is what [benchmark] returns and
    the vector [*results]. *)
Fixpoint benchmark_loop (inOutData : list InferenceInOutSequence)
    (timeout : float) (flags : Z) (steps : nat) (seqInferenceIndex : Z)
    (inferenceTotal : float) (results : list InferenceResult)
  : M Interpreter (bool * list InferenceResult) :=
  match steps with
  | O => ret (true, results)
  | S steps' =>
      resetStates ;;;
      let inputOutputSequenceIndex :=
        seqInferenceIndex mod Z.of_nat (length inOutData) in
      let seq := nth (Z.to_nat inputOutputSequenceIndex) inOutData [] in
      r <- benchmark_sequence flags inputOutputSequenceIndex 0 seq
                              inferenceTotal results ;;
      match r with
      | (None, results') => ret (false, results')
      | (Some inferenceTotal', results') =>
          if F32.gt inferenceTotal' timeout then ret (true, results')
          else benchmark_loop inOutData timeout flags steps'
                              (seqInferenceIndex + 1)
                              inferenceTotal' results'
      end
  end.

Definition benchmark (inOutData : list InferenceInOutSequence)
    (seqInferencesMaxCount : Z) (timeout : float) (flags : Z)
    (results : list InferenceResult)
  : M Interpreter (bool * list InferenceResult) :=
  match inOutData with
  | [] => fun _ => Fatal "Input/output vector is empty"
  | _ =>
      benchmark_loop inOutData timeout flags
                     (Z.to_nat seqInferencesMaxCount) 0 F32.zero results
  end.

End BenchmarkModel.

(* ================================================================== *)
(** ** A small engine to run the model on *)

Module Toy.

(** An interpreter whose inference copies the input storage to the
    output storage, and fails on the one-byte input [255]. *)
Record Interp := mkInterp {
  t_in : TfLiteTensor;
  t_out : TfLiteTensor
}.

Definition poisoned (t : TfLiteTensor) : bool :=
  match raw t with
  | [b] => Byte.eqb b "255"
  | _ => false
  end.

#[export] Instance toy_tflite : TfLite Interp := {
  input0 := t_in;
  output0 := t_out;
  store_input0 := fun raw' t =>
    mkInterp (mkTensor (type (t_in t)) raw') (t_out t);
  Invoke := fun t =>
    if poisoned (t_in t) then (kTfLiteError, t)
    else (kTfLiteOk,
          mkInterp (t_in t) (mkTensor (type (t_out t)) (raw (t_in t))));
  ResetVariableTensorsToZero := fun t => (kTfLiteOk, t)
}.

(** A clock that advances by one millisecond between two readings. *)
Definition clock (n : nat) : Z := 1000 * Z.of_nat n.

(** Both trace functions resolved. *)
Definition traced : TraceFunc :=
  mkTraceFunc (Some 1%positive) (Some 2%positive).

(** A library that has the two trace functions, at these addresses. *)
Definition libandroid : Lib :=
  fun symbol =>
    if String.eqb symbol "ATrace_beginSection" then Some 1%positive
    else if String.eqb symbol "ATrace_endSection" then Some 2%positive
    else None.

Definition world (i : Interp) : World Interp := mkWorld i 0 [] [].

(** An interpreter with one-byte tensors of element type [ty]. *)
Definition one_byte (ty : TfLiteType) : Interp :=
  mkInterp (mkTensor ty ["000"%byte]) (mkTensor ty ["000"%byte]).

(** An entry with the raw input byte [i] and the expected byte [o]. *)
Definition entry (i o : byte) : InferenceInOut :=
  mkInOut (Some [i]) 1 [o] 1 (fun b _ => (false, b)).

(** An entry filled by a callback that reports [ok]. *)
Definition filled (ok : bool) (o : byte) : InferenceInOut :=
  mkInOut None 0 [o] 1 (fun b _ => (ok, b)).

(** The flag bits: discard is bit 0, ignore is bit 1. *)
Definition IGNORE : Z := 2.
Definition DISCARD : Z := 1.

Definition run := benchmark clock traced IGNORE DISCARD.

(** Two sequences, of lengths 2 and 3. *)
Definition two_sequences : list InferenceInOutSequence :=
  [[entry "005" "003"; entry "001" "004"];
   [entry "002" "002"; entry "009" "001"; entry "007" "007"]].

(** The state from which the entries of [two_sequences] run: one-byte
    [uint8] tensors. *)
Definition ready (w : World Interp) : Prop :=
  type (t_in (mTfliteInterpreter w)) = kTfLiteUInt8 /\
  type (t_out (mTfliteInterpreter w)) = kTfLiteUInt8 /\
  length (raw (t_in (mTfliteInterpreter w))) = 1%nat.

End Toy.

(* ================================================================== *)
(** ** Vocabulary of the statements *)

(** The value of [max_error] after the loop of [getOutputError] has run
    over the element errors [errs]. *)
Definition max_error_of (errs : list float) : float :=
  fst (fold_left error_step errs (F32.zero, F32.zero)).

(** The element errors [getOutputError] goes through, by element type. *)
Definition element_errors (t : TfLiteTensor) (expected_data : list byte)
  : list float :=
  match type t with
  | kTfLiteUInt8 => uint8_errors (raw t) expected_data
  | kTfLiteFloat32 => float_errors (raw t) expected_data
  | _ => []
  end.

(** The check, for one pair of [uint8_t] values, that their error is the
    exact difference and is above zero exactly when [o > e]. *)
Definition uint8_error_ok (o e : Z) : bool :=
  let err := F32.sub (F32.of_Z o) (F32.of_Z e) in
  match F32.to_Z err with
  | Some d => (d =? o - e) && Bool.eqb (F32.gt err F32.zero) (e <? o)
  | None => false
  end.

Definition uint8_values : list Z := map Z.of_nat (seq 0 256).

(** The entries of a sequence with their indices, from [i] on. *)
Fixpoint numbered (i : Z) (seq : InferenceInOutSequence)
  : list (Z * InferenceInOut) :=
  match seq with
  | [] => []
  | data :: rest => (i, data) :: numbered (i + 1) rest
  end.

(** The entries of the sequence of index [s], from the entry [i] on,
    each with the sequence index and the entry index its result is to
    carry. *)
Definition tagged (s i : Z) (seq : InferenceInOutSequence)
  : list (Z * Z * InferenceInOut) :=
  map (fun '(i, data) => (s, i, data)) (numbered i seq).

(** The entries the outer iteration [seqInferenceIndex] goes through. *)
Definition step_entries (inOutData : list InferenceInOutSequence)
    (seqInferenceIndex : Z) : list (Z * Z * InferenceInOut) :=
  let s := seqInferenceIndex mod Z.of_nat (length inOutData) in
  tagged s 0 (nth (Z.to_nat s) inOutData []).

(** The entries of [steps] outer iterations from [seqInferenceIndex]
    on, in the order of execution. *)
Fixpoint schedule (inOutData : list InferenceInOutSequence)
    (seqInferenceIndex : Z) (steps : nat) : list (Z * Z * InferenceInOut) :=
  match steps with
  | O => []
  | S steps' =>
      step_entries inOutData seqInferenceIndex
      ++ schedule inOutData (seqInferenceIndex + 1) steps'
  end.

(** The pair (sequence index, entry index) carried by a result. *)
Definition tag (r : InferenceResult) : Z * Z :=
  (inputOutputSequenceIndex r, inputOutputIndex r).

Definition entry_tag (e : Z * Z * InferenceInOut) : Z * Z := fst e.

(** [inferenceTotal] after the results [rs] have been added to it. *)
Definition total_after (inferenceTotal : float) (rs : list InferenceResult)
  : float :=
  fold_left (fun t r => F32.add t (computeTimeSec r)) rs inferenceTotal.

(** The world after a line has been written to the log. *)
Definition logged {Interpreter : Type} (w : World Interpreter) (l : LogLine)
  : World Interpreter :=
  mkWorld (mTfliteInterpreter w) (clock_reads w) (logcat w ++ [l])
          (systrace w).

(** The world after a trace function has been called. *)
Definition traced_call {Interpreter : Type} (w : World Interpreter)
    (e : TraceEvent) : World Interpreter :=
  mkWorld (mTfliteInterpreter w) (clock_reads w) (logcat w)
          (systrace w ++ [e]).

(** The time measured for an inference whose start is the reading
    number [c] of the clock, as [benchmark] computes it. *)
Definition inference_time (gettimeofday : nat -> Z) (c : nat) : float :=
  F32.div (F32.of_Z (gettimeofday (S c) - gettimeofday c))
          (F32.of_Z 1000000).

(** [inferenceTotal] after [n] more inferences, the first of which
    starts at the reading number [c] of the clock. *)
Fixpoint clock_total (gettimeofday : nat -> Z) (inferenceTotal : float)
    (c n : nat) : float :=
  match n with
  | O => inferenceTotal
  | S n' =>
      clock_total gettimeofday
        (F32.add inferenceTotal (inference_time gettimeofday c))
        (S (S c)) n'
  end.

Section Vocabulary.

Context {Interpreter : Type} `{TfLite Interpreter}.
Variable FLAG_IGNORE_GOLDEN_OUTPUT : Z.
Variable FLAG_DISCARD_INFERENCE_OUTPUT : Z.

(** [r] is a result record the loop body builds for the entry [e]: from
    an output tensor [t], with the error fields left at zero or set by
    [getOutputError], and the output left empty or set by
    [saveInferenceOutput], as the flags say. *)
Definition result_of (flags : Z) (e : Z * Z * InferenceInOut)
    (r : InferenceResult) : Prop :=
  let '(s, i, data) := e in
  exists (t : TfLiteTensor) (inferenceTime : float) (r1 : InferenceResult),
    let r0 := mkResult inferenceTime F32.zero F32.zero [] s i in
    (if Z.land flags FLAG_IGNORE_GOLDEN_OUTPUT =? 0
     then getOutputError t (output data) (output_size data) r0 = Done r1
     else r1 = r0) /\
    r = (if Z.land flags FLAG_DISCARD_INFERENCE_OUTPUT =? 0
         then saveInferenceOutput t r1 else r1).

(** The entry [data] makes the loop body return false from some state
    of the interpreter: its fill callback reports a failure, or the
    invocation does. *)
Definition entry_fails (data : InferenceInOut) : Prop :=
  exists interp : Interpreter,
    (input data = None /\
     fst (createInput data (raw (input0 interp)) (bytes (input0 interp)))
     = false) \/
    fst (Invoke interp) = kTfLiteError.

End Vocabulary.

(* ================================================================== *)
(** ** The signed maximum, as the specification words it *)

(** The element [i] of a buffer of [uint8_t] values, as a [float]. *)
Definition uint8_element (bs : list byte) (i : nat) : float :=
  F32.of_Z (uint8 (nth i bs "000"%byte)).

(** The element [i] of a buffer of [float] values: its bytes
    [4i .. 4i+3]. *)
Definition float_element (bs : list byte) (i : nat) : float :=
  F32.of_bits (le_word (firstn 4 (skipn (4 * i) bs))).

Definition element (ty : TfLiteType) (bs : list byte) (i : nat) : float :=
  match ty with
  | kTfLiteUInt8 => uint8_element bs i
  | kTfLiteFloat32 => float_element bs i
  | _ => F32.zero
  end.

(** The number of elements of a tensor of a supported type. *)
Definition elements_count (t : TfLiteTensor) : nat :=
  match type t with
  | kTfLiteUInt8 => bytes t
  | kTfLiteFloat32 => (bytes t / 4)%nat
  | _ => 0%nat
  end.

(** The error of the element [i]: produced minus expected. *)
Definition produced_minus_expected (t : TfLiteTensor)
    (expected_data : list byte) (i : nat) : float :=
  F32.sub (element (type t) (raw t) i) (element (type t) expected_data i).

(** The greatest of zero and the integers [ds]. *)
Definition signed_max (ds : list Z) : Z := fold_left Z.max ds 0.

(** Produced minus expected for the element [i] of a [uint8_t] tensor,
    as an integer. *)
Definition uint8_difference (t : TfLiteTensor) (expected_data : list byte)
    (i : nat) : Z :=
  uint8 (nth i (raw t) "000"%byte) - uint8 (nth i expected_data "000"%byte).

(** The check, for one pair of [uint8_t] values, that the [float]
    subtraction gives the difference converted to [float]. *)
Definition uint8_sub_ok (o e : Z) : bool :=
  match F32.sub (F32.of_Z o) (F32.of_Z e), F32.of_Z (o - e) with
  | S754_zero a, S754_zero b => Bool.eqb a b
  | S754_finite s m x, S754_finite s' m' x' =>
      Bool.eqb s s' && Pos.eqb m m' && Z.eqb x x'
  | _, _ => false
  end.

(** The differences of two [uint8_t] values. *)
Definition differences : list Z := map (fun n => Z.of_nat n - 255) (seq 0 511).

(** The check, for a difference [d] and a maximum [m], that the
    comparison of the two as [float] is the one of the integers, and
    that [d] converts to [float] without rounding. *)
Definition uint8_gt_ok (d m : Z) : bool :=
  Bool.eqb (F32.gt (F32.of_Z d) (F32.of_Z m)) (m <? d) &&
  match F32.to_Z (F32.of_Z d) with Some z => z =? d | None => false end.

(* ================================================================== *)
(** ** Vocabulary for the error metric *)

(** A float that is a zero or a finite number, neither an infinity nor
    a NaN. *)
Definition is_finite (x : float) : bool :=
  match x with
  | S754_zero _ | S754_finite _ _ _ => true
  | _ => false
  end.

Definition is_nan (x : float) : bool :=
  match x with
  | S754_nan => true
  | _ => false
  end.

(** The value of [err_sum] after the loop of [getOutputError] has run
    over the element errors [errs]. *)
Definition err_sum_of (errs : list float) : float :=
  snd (fold_left error_step errs (F32.zero, F32.zero)).

(** The check, for one pair of [uint8_t] values, that the mean square
    error of a one-element tensor is the exact square of the
    difference. *)
Definition uint8_mse_ok (o e : Z) : bool :=
  let err := F32.sub (F32.of_Z o) (F32.of_Z e) in
  let mse :=
    F32.div (F32.add F32.zero (F32.mul err err)) (F32.of_Z 1) in
  match F32.to_Z mse with
  | Some d => d =? (o - e) * (o - e)
  | None => false
  end.

(* ================================================================== *)
(** ** Vocabulary for the timing and the trace of a run *)

(** The times of [n] inferences in a row, the first of which starts at
    the reading number [c] of the clock. *)
Fixpoint clock_times (gettimeofday : nat -> Z) (c n : nat) : list float :=
  match n with
  | O => []
  | S n' =>
      inference_time gettimeofday c :: clock_times gettimeofday (S (S c)) n'
  end.

(** The two trace sections the loop body opens, through the function
    at the address [a]. *)
Definition spans_opened (a : positive) : list TraceEvent :=
  [TraceCall a (Some "[NN_LA_PE]BenchmarkModel::benchmark"%string);
   TraceCall a (Some "[NN_LA_PIO]BenchmarkModel::input"%string)].

(** The trace of a loop body that reaches the invocation: two sections
    opened through [a], and closed through [e]. *)
Definition spans_closed (a e : positive) : list TraceEvent :=
  spans_opened a ++ [TraceCall e None; TraceCall e None].

(** Two states that differ at most by their trace. *)
Definition same_but_trace {Interpreter : Type} (w w' : World Interpreter)
  : Prop :=
  mTfliteInterpreter w = mTfliteInterpreter w' /\
  clock_reads w = clock_reads w' /\
  logcat w = logcat w'.

(** Two calls that end the same way, with the same value, in states
    that differ at most by their trace. *)
Definition agree {Interpreter A : Type}
    (o o' : Outcome (A * World Interpreter)) : Prop :=
  match o, o' with
  | Done (x, w), Done (x', w') => x = x' /\ same_but_trace w w'
  | Fatal msg, Fatal msg' => msg = msg'
  | Undefined, Undefined => True
  | _, _ => False
  end.

(** Two computations that agree from states that differ at most by
    their trace. *)
Definition alike {Interpreter A : Type} (m m' : M Interpreter A) : Prop :=
  forall w w', same_but_trace w w' -> agree (m w) (m' w').

(** Both trace functions are resolved. *)
Definition resolved (tf : TraceFunc) : Prop :=
  ATrace_beginSection tf <> None /\ ATrace_endSection tf <> None.

(* ================================================================== *)
(** ** LayerDumper: [dumpAllLayers] *)

(** The decimal digits of a non-negative [int]. *)
Definition digits (n : nat) : list ascii :=
  list_ascii_of_string (NilEmpty.string_of_uint (Nat.to_uint n)).

(** The conversion [%.3d] of a non-negative [int]: its digits, with
    zeros in front up to three digits. *)
Definition precision3 (n : nat) : list ascii :=
  repeat "0"%char (3 - length (digits n)) ++ digits n.

(** The characters of the format
    ["%s/dump_%.3d_seq_%.3d_tensor_%.3d"] for a path and three
    indices. *)
Definition dump_chars (path : string) (seqInferenceIndex i tensor : nat)
  : list ascii :=
  list_ascii_of_string path
  ++ list_ascii_of_string "/dump_" ++ precision3 seqInferenceIndex
  ++ list_ascii_of_string "_seq_" ++ precision3 i
  ++ list_ascii_of_string "_tensor_" ++ precision3 tensor.

(** [fullpath] after [snprintf(fullpath, 1024, ...)]: at most 1023
    characters are kept. *)
Definition dump_path (path : string) (seqInferenceIndex i tensor : nat)
  : string :=
  string_of_list_ascii (firstn 1023 (dump_chars path seqInferenceIndex i tensor)).

(** One file written: the name given to [fopen] with mode ["wb"], and
    the bytes handed to [fwrite] before the file is closed.  What
    [fwrite] and [fclose] return is not looked at by the source.  The
    files written are kept in the order of the calls; what the disk
    holds afterwards is [disk_after] below. *)
Definition File : Type := (string * list byte)%type.

(** What [dumpAllLayers] uses of the interpreter besides: [tensors]
    gives, for the tensor indices from 0 up to [tensors_size()], the
    [bytes] bytes at [data.raw], and [None] where [data.raw] is a null
    pointer. *)
Class TfLiteTensors (Interpreter : Type) := {
  tensors : Interpreter -> list (option (list byte))
}.

Section LayerDumper.

Context {Interpreter : Type} `{TfLite Interpreter}
        `{TfLiteTensors Interpreter}.

(** Whether [fopen(fullpath, "wb")] returns a null pointer. *)
Variable fopen_null : string -> bool.

Local Open Scope bench_scope.

(** [setInput] on a pointer that may be null: its [memcpy] is not
    defined on a null source. *)
Definition setInput_ptr (dataPtr : option (list byte)) (length : nat)
  : M Interpreter bool :=
  match dataPtr with
  | Some dataPtr => setInput dataPtr length
  | None =>
      interp <- get_interpreter ;;
      match type (input0 interp) with
      | kTfLiteFloat32 | kTfLiteUInt8 => fun _ => Undefined
      | _ =>
          android_log_print ANDROID_LOG_ERROR
            "Input tensor type not supported" [] ;;;
          ret false
      end
  end.

(** The loop over the tensors, from the index [tensor] on, after the
    writes [written] made so far.  [fwrite] on the null pointer of a failed
    [fopen] is not defined. *)
Fixpoint dump_tensors (path : string) (seqInferenceIndex i tensor : nat)
    (ts : list (option (list byte))) (written : list File)
  : Outcome (list File) :=
  match ts with
  | [] => Done written
  | None :: rest =>
      dump_tensors path seqInferenceIndex i (S tensor) rest written
  | Some raw_bytes :: rest =>
      let fullpath := dump_path path seqInferenceIndex i tensor in
      if fopen_null fullpath then Undefined
      else dump_tensors path seqInferenceIndex i (S tensor) rest
                        (written ++ [(fullpath, raw_bytes)])
  end.

(** The loop over the entries [seq[i], seq[i+1], ...] of one sequence.
    The value false is [return false]. *)
Fixpoint dump_sequence (path : string) (seqInferenceIndex i : nat)
    (seq : InferenceInOutSequence) (written : list File)
  : M Interpreter (bool * list File) :=
  match seq with
  | [] => ret (true, written)
  | data :: rest =>
      setInput_ptr (input data) (input_size data) ;;;
      success <- runInference ;;
      if negb success then
        android_log_print ANDROID_LOG_ERROR "Inference %d failed"
                          [Z.of_nat i] ;;;
        ret (false, written)
      else
        interp <- get_interpreter ;;
        written' <- lift (dump_tensors path seqInferenceIndex i 0
                                       (tensors interp) written) ;;
        dump_sequence path seqInferenceIndex (S i) rest written'
  end.

(** The loop over the sequences that are left, the first of which has
    the index [seqInferenceIndex]. *)
Fixpoint dump_sequences (path : string) (seqInferenceIndex : nat)
    (inOutData : list InferenceInOutSequence) (written : list File)
  : M Interpreter (bool * list File) :=
  match inOutData with
  | [] => ret (true, written)
  | seq :: rest =>
      resetStates ;;;
      r <- dump_sequence path seqInferenceIndex 0 seq written ;;
      match r with
      | (true, written') =>
          dump_sequences path (S seqInferenceIndex) rest written'
      | (false, written') => ret (false, written')
      end
  end.

Definition dumpAllLayers (path : string)
    (inOutData : list InferenceInOutSequence) (written : list File)
  : M Interpreter (bool * list File) :=
  match inOutData with
  | [] => fun _ => Fatal "Input/output vector is empty"
  | _ => dump_sequences path 0 inOutData written
  end.

End LayerDumper.

(** The files of the tensors that have storage, from the index
    [tensor] on, for the entry [i] of the sequence
    [seqInferenceIndex]. *)
Fixpoint tensor_files (path : string) (seqInferenceIndex i tensor : nat)
    (ts : list (option (list byte))) : list File :=
  match ts with
  | [] => []
  | None :: rest => tensor_files path seqInferenceIndex i (S tensor) rest
  | Some raw_bytes :: rest =>
      (dump_path path seqInferenceIndex i tensor, raw_bytes)
      :: tensor_files path seqInferenceIndex i (S tensor) rest
  end.

(** Whether a tensor has storage, [data.raw != nullptr]. *)
Definition has_storage (t : option (list byte)) : bool :=
  match t with Some _ => true | None => false end.

(** The names of the files of the tensors that have storage, from the
    index [tensor] on, when [alloc] tells which tensors have. *)
Fixpoint dump_names (path : string) (seqInferenceIndex i tensor : nat)
    (alloc : list bool) : list string :=
  match alloc with
  | [] => []
  | false :: rest => dump_names path seqInferenceIndex i (S tensor) rest
  | true :: rest =>
      dump_path path seqInferenceIndex i tensor
      :: dump_names path seqInferenceIndex i (S tensor) rest
  end.

(** A decimal digit, as a character. *)
Definition is_digit (c : ascii) : bool :=
  (48 <=? nat_of_ascii c)%nat && (nat_of_ascii c <=? 57)%nat.

Definition digit (d : nat) : ascii := ascii_of_nat (48 + d).

(** The three decimal digits of a number below 1000. *)
Definition three_digits (n : nat) : list ascii :=
  [digit (n / 100); digit (n / 10 mod 10); digit (n mod 10)].

(** The entries of a sequence with their indices, from [i] on, and the
    index [s] of the sequence. *)
Fixpoint dump_entries (s i : nat) (seq : InferenceInOutSequence)
  : list (nat * nat * InferenceInOut) :=
  match seq with
  | [] => []
  | data :: rest => (s, i, data) :: dump_entries s (S i) rest
  end.

(** The entries [dumpAllLayers] goes through: every sequence once, in
    order, from the sequence index [s] on. *)
Fixpoint dump_schedule (s : nat) (inOutData : list InferenceInOutSequence)
  : list (nat * nat * InferenceInOut) :=
  match inOutData with
  | [] => []
  | seq :: rest => dump_entries s 0 seq ++ dump_schedule (S s) rest
  end.

(** The last line of the log tells that the inference of the entry [i]
    of a sequence failed. *)
Definition inference_failed {Interpreter : Type} (i : nat)
    (w : World Interpreter) : Prop :=
  exists lines,
    logcat w = lines ++ [mkLog ANDROID_LOG_ERROR "Inference %d failed"
                               [Z.of_nat i]].

(** The small engine has three tensors: the input, a tensor without
    storage, and the output. *)
#[export] Instance toy_tensors : TfLiteTensors Toy.Interp := {
  tensors := fun t => [Some (raw (Toy.t_in t)); None; Some (raw (Toy.t_out t))]
}.

(* ================================================================== *)
(** ** The states of the interpreter along a run *)

(** An entry of the schedule, with the interpreter as it is when the
    loop body of the entry starts, and as it is after the invocation
    of the entry. *)
Record Moment (Interpreter : Type) := mkMoment {
  moment_entry : Z * Z * InferenceInOut;
  before : Interpreter;
  after : Interpreter
}.

Section RunStates.

Context {Interpreter : Type} `{TfLite Interpreter}.

(** The interpreter after [setInput(dataPtr, length)]: the first
    [length] bytes of the input tensor are those of [dataPtr] when the
    tensor has a supported type, and nothing has changed otherwise. *)
Definition input_set (dataPtr : list byte) (length : nat)
    (interp : Interpreter) : Interpreter :=
  match type (input0 interp) with
  | kTfLiteFloat32 | kTfLiteUInt8 =>
      match memcpy (raw (input0 interp)) dataPtr length with
      | Some raw' => store_input0 raw' interp
      | None => interp
      end
  | _ => interp
  end.

(** The entry has no input bytes and its fill callback, called on the
    input tensor of [interp], reports a failure. *)
Definition fill_fails (data : InferenceInOut) (interp : Interpreter) : bool :=
  match input data with
  | Some _ => false
  | None =>
      negb (fst (createInput data (raw (input0 interp))
                             (bytes (input0 interp))))
  end.

(** The interpreter once the input of the entry is in place: set from
    the input bytes of the entry, or filled by its callback. *)
Definition input_provided (data : InferenceInOut) (interp : Interpreter)
  : Interpreter :=
  match input data with
  | Some dataPtr => input_set dataPtr (input_size data) interp
  | None =>
      store_input0 (snd (createInput data (raw (input0 interp))
                                     (bytes (input0 interp))))
                   interp
  end.

(** The invocation on the input of the entry reports a failure. *)
Definition invocation_fails (data : InferenceInOut) (interp : Interpreter)
  : bool :=
  match fst (Invoke (input_provided data interp)) with
  | kTfLiteOk => false
  | kTfLiteError => true
  end.

(** The interpreter after the invocation on the input of the entry. *)
Definition inferred (data : InferenceInOut) (interp : Interpreter)
  : Interpreter :=
  snd (Invoke (input_provided data interp)).

(** The interpreter after [ResetVariableTensorsToZero]. *)
Definition reset_state (interp : Interpreter) : Interpreter :=
  snd (ResetVariableTensorsToZero interp).

(** The entries [es] run one after the other from [interp]. *)
Fixpoint moments (es : list (Z * Z * InferenceInOut)) (interp : Interpreter)
  : list (Moment Interpreter) :=
  match es with
  | [] => []
  | e :: rest =>
      mkMoment e interp (inferred (snd e) interp)
      :: moments rest (inferred (snd e) interp)
  end.

(** The interpreter after the moments [ms], from [interp]. *)
Definition state_after (ms : list (Moment Interpreter))
    (interp : Interpreter) : Interpreter :=
  fold_left (fun _ m => after m) ms interp.

(** The moments of [steps] outer iterations of [benchmark] from
    [seqInferenceIndex] on: every iteration resets the variable tensors
    and then runs the entries of its sequence. *)
Fixpoint timeline (inOutData : list InferenceInOutSequence)
    (seqInferenceIndex : Z) (steps : nat) (interp : Interpreter)
  : list (Moment Interpreter) :=
  match steps with
  | O => []
  | S steps' =>
      let ms := moments (step_entries inOutData seqInferenceIndex)
                        (reset_state interp) in
      ms ++ timeline inOutData (seqInferenceIndex + 1) steps'
                     (state_after ms (reset_state interp))
  end.

(** The loop body of the entry of [m] fails from the state it starts
    in: the fill callback fails, or the invocation does. *)
Definition fails (m : Moment Interpreter) : bool :=
  fill_fails (snd (moment_entry m)) (before m)
  || invocation_fails (snd (moment_entry m)) (before m).

(** What the loop body of the entry of [m] adds to the trace when it
    fails: the two sections opened through [a], and closed through [e]
    unless the fill callback failed. *)
Definition failure_trace (a e : positive) (m : Moment Interpreter)
  : list TraceEvent :=
  if fill_fails (snd (moment_entry m)) (before m)
  then spans_opened a else spans_closed a e.

Variable FLAG_IGNORE_GOLDEN_OUTPUT : Z.
Variable FLAG_DISCARD_INFERENCE_OUTPUT : Z.

(** [r] is the result record of the entry [e] when the output tensor is
    [t] after the invocation: the error fields are those
    [getOutputError] computes from [t] and the expected data of the
    entry, unless the flags say to ignore them, and the output is the
    storage of [t], unless the flags say to discard it. *)
Definition result_from (flags : Z) (e : Z * Z * InferenceInOut)
    (t : TfLiteTensor) (r : InferenceResult) : Prop :=
  exists (inferenceTime : float) (r1 : InferenceResult),
    let r0 := mkResult inferenceTime F32.zero F32.zero []
                       (fst (fst e)) (snd (fst e)) in
    (if Z.land flags FLAG_IGNORE_GOLDEN_OUTPUT =? 0
     then getOutputError t (output (snd e)) (output_size (snd e)) r0
          = Done r1
     else r1 = r0) /\
    r = (if Z.land flags FLAG_DISCARD_INFERENCE_OUTPUT =? 0
         then saveInferenceOutput t r1 else r1).

End RunStates.

(* ================================================================== *)
(** ** The states and the files of a dump *)

(** An entry [dumpAllLayers] goes through, with the indices of its
    sequence and of the entry in it, the interpreter as it is when the
    entry starts, and as it is after its invocation. *)
Record DumpMoment (Interpreter : Type) := mkDumpMoment {
  dump_entry : nat * nat * InferenceInOut;
  dump_before : Interpreter;
  dump_after : Interpreter
}.

Section DumpStates.

Context {Interpreter : Type} `{TfLite Interpreter}
        `{TfLiteTensors Interpreter}.

(** The interpreter after [setInput(data.input, data.input_size)] as
    [dumpAllLayers] calls it: an entry without input bytes changes
    nothing (with an input tensor of a supported type the call is not
    defined). *)
Definition dump_input (data : InferenceInOut) (interp : Interpreter)
  : Interpreter :=
  match input data with
  | Some dataPtr => input_set dataPtr (input_size data) interp
  | None => interp
  end.

Fixpoint dump_moments (s i : nat) (seq : InferenceInOutSequence)
    (interp : Interpreter) : list (DumpMoment Interpreter) :=
  match seq with
  | [] => []
  | data :: rest =>
      mkDumpMoment (s, i, data) interp (snd (Invoke (dump_input data interp)))
      :: dump_moments s (S i) rest (snd (Invoke (dump_input data interp)))
  end.

Definition dump_state_after (ms : list (DumpMoment Interpreter))
    (interp : Interpreter) : Interpreter :=
  fold_left (fun _ m => dump_after m) ms interp.

(** The moments of a dump of the sequences [inOutData], the first of
    which has the index [s]: the variable tensors are reset before each
    sequence. *)
Fixpoint dump_timeline (s : nat) (inOutData : list InferenceInOutSequence)
    (interp : Interpreter) : list (DumpMoment Interpreter) :=
  match inOutData with
  | [] => []
  | seq :: rest =>
      let ms := dump_moments s 0 seq (reset_state interp) in
      ms ++ dump_timeline (S s) rest
                          (dump_state_after ms (reset_state interp))
  end.

(** The invocation of the entry of [m] reports a failure. *)
Definition dump_fails (m : DumpMoment Interpreter) : bool :=
  match fst (Invoke (dump_input (snd (dump_entry m)) (dump_before m))) with
  | kTfLiteOk => false
  | kTfLiteError => true
  end.

(** The files written for the entry of [m]: those of the tensors that
    have storage after its invocation. *)
Definition moment_files (path : string) (m : DumpMoment Interpreter)
  : list File :=
  tensor_files path (fst (fst (dump_entry m))) (snd (fst (dump_entry m))) 0
               (tensors (dump_after m)).

End DumpStates.

(** The files on a disk, by name. *)
Definition Disk : Type := string -> option (list byte).

(** [fopen(name, "wb")], [fwrite] and [fclose]: the file is created, or
    the file of that name is cut to nothing, and then holds the bytes
    written. *)
Definition write_file (disk : Disk) (f : File) : Disk :=
  fun name => if String.eqb name (fst f) then Some (snd f) else disk name.

(** The disk after the files [written] have been written, in order. *)
Definition disk_after (disk : Disk) (written : list File) : Disk :=
  fold_left write_file written disk.

(* ================================================================== *)
(** * Properties *)

Unset Implicit Arguments.

(** ** Facts on binary32 arithmetic *)

Module F32Facts.

Import F32.

Lemma digits2_size (m : positive) : digits2_pos m = Pos.size m.
Proof. induction m; simpl; congruence. Qed.

Lemma size_lower (m : positive) : 2 ^ (Zpos (Pos.size m) - 1) <= Zpos m.
Proof.
  induction m as [m IH | m IH |]; simpl Pos.size.
  - rewrite Pos2Z.inj_succ.
    replace (Z.succ (Zpos (Pos.size m)) - 1)
      with (Z.succ (Zpos (Pos.size m) - 1)) by lia.
    rewrite Z.pow_succ_r by lia. lia.
  - rewrite Pos2Z.inj_succ.
    replace (Z.succ (Zpos (Pos.size m)) - 1)
      with (Z.succ (Zpos (Pos.size m) - 1)) by lia.
    rewrite Z.pow_succ_r by lia. lia.
  - simpl. lia.
Qed.

Lemma size_upper (m : positive) : Zpos m < 2 ^ Zpos (Pos.size m).
Proof.
  induction m as [m IH | m IH |]; simpl Pos.size.
  - rewrite Pos2Z.inj_succ, Z.pow_succ_r by lia. lia.
  - rewrite Pos2Z.inj_succ, Z.pow_succ_r by lia. lia.
  - simpl. lia.
Qed.

(** The number of digits of a mantissa, from its bounds. *)
Lemma size_unique (m : positive) (k : Z) :
  2 ^ (k - 1) <= Zpos m < 2 ^ k -> 0 < k -> Zpos (Pos.size m) = k.
Proof.
  intros [Hlo Hhi] Hk.
  pose proof (size_lower m) as L. pose proof (size_upper m) as U.
  assert (Zpos (Pos.size m) - 1 < k).
  { apply (Z.pow_lt_mono_r_iff 2); lia. }
  assert (k - 1 < Zpos (Pos.size m)).
  { apply (Z.pow_lt_mono_r_iff 2); lia. }
  lia.
Qed.

Lemma size_le (m : positive) (k : Z) :
  Zpos m < 2 ^ k -> 0 <= k -> Zpos (Pos.size m) <= k.
Proof.
  intros Hhi Hk. pose proof (size_lower m) as L.
  assert (Zpos (Pos.size m) - 1 < k).
  { apply (Z.pow_lt_mono_r_iff 2); lia. }
  lia.
Qed.

(** Every 32-bit pattern holds a float in canonical form. *)
Lemma of_bits_valid (w : Z) : valid (of_bits w) = true.
Proof.
  unfold of_bits, valid.
  pose proof (Z.mod_pos_bound (w / 8388608) 256 eq_refl) as He.
  pose proof (Z.mod_pos_bound w 8388608 eq_refl) as Hm.
  destruct (Z.eqb_spec ((w / 8388608) mod 256) 0) as [E0 | E0].
  - destruct (w mod 8388608) as [| p | p] eqn:Em; try reflexivity.
    simpl. unfold bounded, canonical_mantissa, fexp, SpecFloat.emin.
    rewrite digits2_size.
    pose proof (@size_le p 23). unfold prec, emax.
    apply andb_true_intro; split; [apply Z.eqb_eq | apply Z.leb_le]; lia.
  - destruct (Z.eqb_spec ((w / 8388608) mod 256) 255) as [E1 | E1].
    + destruct (w mod 8388608 =? 0); reflexivity.
    + destruct (w mod 8388608 + 8388608) as [| p | p] eqn:Em; try reflexivity.
      simpl. unfold bounded, canonical_mantissa, fexp, SpecFloat.emin.
      rewrite digits2_size.
      pose proof (@size_unique p 24). unfold prec, emax.
      apply andb_true_intro; split; [apply Z.eqb_eq | apply Z.leb_le]; lia.
Qed.

(** *** Rounding never turns a non-zero value above the subnormal
    range into a zero *)

Section Rounding.

Variables p_ e_ : Z.
Hypothesis p_pos : 0 < p_.

Local Notation "'emin_'" := (SpecFloat.emin p_ e_).

Lemma shr_1_m (mrs : shr_record) :
  0 <= shr_m mrs -> shr_m (shr_1 mrs) = shr_m mrs / 2.
Proof.
  destruct mrs as [m r s]; simpl. intros Hm.
  destruct m as [| [q | q |] | q]; cbn [shr_m]; try lia;
    first [ reflexivity
          | apply (Z.div_unique _ _ _ 1); lia
          | apply (Z.div_unique _ _ _ 0); lia ].
Qed.

Lemma iter_shr_1_m (n : positive) : forall mrs,
  0 <= shr_m mrs ->
  shr_m (iter_pos shr_1 n mrs) = shr_m mrs / 2 ^ Zpos n.
Proof.
  assert (Hdiv : forall a, 0 <= a -> 0 <= a / 2)
    by (intros; apply Z.div_pos; lia).
  assert (Hpow : forall a k, 0 <= a -> 0 <= k -> 0 <= a / 2 ^ k).
  { intros; apply Z.div_pos; [lia | apply Z.pow_pos_nonneg; lia]. }
  assert (Hp2 : forall k : positive, 0 < 2 ^ Zpos k)
    by (intros; apply Z.pow_pos_nonneg; lia).
  induction n as [n IH | n IH |]; intros mrs Hm; simpl iter_pos.
  - assert (H1 : 0 <= shr_m (shr_1 mrs)) by (rewrite shr_1_m; auto).
    assert (H2 : 0 <= shr_m (iter_pos shr_1 n (shr_1 mrs)))
      by (rewrite IH by assumption; apply Hpow; [assumption | lia]).
    rewrite (IH _ H2), (IH _ H1), shr_1_m by assumption.
    rewrite !Z.div_div by (pose proof (Hp2 n); lia).
    f_equal.
    assert (E : 2 ^ Zpos n~1 = 2 * (2 ^ Zpos n * 2 ^ Zpos n)).
    { rewrite <- Z.pow_add_r, <- Z.pow_succ_r by lia. f_equal; lia. }
    lia.
  - assert (H1 : 0 <= shr_m (iter_pos shr_1 n mrs))
      by (rewrite IH by assumption; apply Hpow; [assumption | lia]).
    rewrite (IH _ H1), (IH _ Hm).
    rewrite Z.div_div by (pose proof (Hp2 n); lia).
    f_equal.
    assert (E : 2 ^ Zpos n~0 = 2 ^ Zpos n * 2 ^ Zpos n).
    { rewrite <- Z.pow_add_r by lia. f_equal; lia. }
    lia.
  - rewrite shr_1_m; auto.
Qed.

Lemma shr_record_of_loc_m (m : Z) (l : location) :
  shr_m (shr_record_of_loc m l) = m.
Proof. destruct l as [| []]; reflexivity. Qed.

(** A shift by [shr_fexp] keeps a positive mantissa positive. *)
Lemma shr_fexp_pos (m : positive) (e : Z) (l : location) :
  emin_ <= e ->
  0 < shr_m (fst (shr_fexp p_ e_ (Zpos m) e l)) /\
  emin_ <= snd (shr_fexp p_ e_ (Zpos m) e l).
Proof.
  intros He. unfold shr_fexp, shr.
  simpl Zdigits2. rewrite digits2_size.
  destruct (fexp p_ e_ (Zpos (Pos.size m) + e) - e) as [| n | n] eqn:En;
    simpl fst; simpl snd; rewrite ?shr_record_of_loc_m; try lia.
  unfold fexp in En. fold emin_ in En.
  assert (Hn : Zpos n = Zpos (Pos.size m) - p_) by lia.
  split; [| lia].
  rewrite iter_shr_1_m by (rewrite shr_record_of_loc_m; lia).
  rewrite shr_record_of_loc_m.
  pose proof (size_lower m) as L.
  assert (2 ^ Zpos n <= 2 ^ (Zpos (Pos.size m) - 1))
    by (apply Z.pow_le_mono_r; lia).
  assert (0 < 2 ^ Zpos n) by (apply Z.pow_pos_nonneg; lia).
  apply Z.div_str_pos. lia.
Qed.

Lemma round_nearest_even_ge (m : Z) (l : location) :
  m <= round_nearest_even m l.
Proof.
  destruct l as [| []]; simpl; try lia.
  destruct (Z.even m); lia.
Qed.

Lemma binary_round_aux_nonzero (s : bool) (m : positive) (e : Z)
    (l : location) :
  emin_ <= e ->
  signed_nonzero s (binary_round_aux p_ e_ s (Zpos m) e l).
Proof.
  intros He. unfold binary_round_aux.
  pose proof (shr_fexp_pos m e l He) as [Hm1 He1].
  destruct (shr_fexp p_ e_ (Zpos m) e l) as [mrs' e'].
  simpl fst in Hm1; simpl snd in He1.
  pose proof (round_nearest_even_ge (shr_m mrs') (loc_of_shr_record mrs')) as Hr.
  destruct (round_nearest_even (shr_m mrs') (loc_of_shr_record mrs'))
    as [| m1 | m1] eqn:Em1; try lia.
  pose proof (shr_fexp_pos m1 e' loc_Exact He1) as [Hm2 _].
  destruct (shr_fexp p_ e_ (Zpos m1) e' loc_Exact) as [mrs'' e''].
  simpl fst in Hm2.
  destruct (shr_m mrs'') as [| m2 | m2]; try lia.
  destruct (e'' <=? e_ - p_); reflexivity.
Qed.

Lemma shl_align_exp (m : positive) (e e' : Z) :
  snd (shl_align m e e') = Z.min e e'.
Proof.
  unfold shl_align. destruct (e' - e) eqn:E; simpl; lia.
Qed.

Lemma shl_align_value (m : positive) (e e' : Z) :
  e' <= e -> Zpos (fst (shl_align m e e')) = Zpos m * 2 ^ (e - e').
Proof.
  intros H. unfold shl_align.
  destruct (e' - e) as [| d | d] eqn:E; simpl; try lia.
  - replace (e - e') with 0 by lia. simpl. lia.
  - replace (e - e') with (Zpos d) by lia.
    change (Pos.iter xO m d) with (shift_pos d m).
    rewrite shift_pos_correct, Z.pow_pos_fold. apply Z.mul_comm.
Qed.

Lemma binary_round_nonzero (s : bool) (m : positive) (e : Z) :
  emin_ <= e -> signed_nonzero s (binary_round p_ e_ s m e).
Proof.
  intros He. unfold binary_round.
  pose proof (shl_align_exp m e (fexp p_ e_ (Zpos (digits2_pos m) + e))) as Hs.
  destruct (shl_align m e (fexp p_ e_ (Zpos (digits2_pos m) + e))) as [mz ez].
  simpl in Hs. apply binary_round_aux_nonzero.
  unfold fexp in Hs. fold emin_ in Hs. lia.
Qed.

Lemma binary_normalize_sign (d e : Z) (sz : bool) :
  emin_ <= e -> d <> 0 ->
  signed_nonzero (d <? 0) (binary_normalize p_ e_ d e sz).
Proof.
  intros He Hd. destruct d as [| d | d]; simpl; try lia;
    apply binary_round_nonzero; assumption.
Qed.

(** *** Canonical mantissas and the order *)

Lemma bounded_inv (m : positive) (e : Z) :
  bounded p_ e_ m e = true ->
  emin_ <= e /\ Zpos (Pos.size m) <= p_ /\
  (emin_ < e -> Zpos (Pos.size m) = p_).
Proof.
  unfold bounded, canonical_mantissa, fexp. fold emin_.
  rewrite digits2_size. intros Hb.
  apply andb_prop in Hb. destruct Hb as [Hc _].
  apply Z.eqb_eq in Hc. lia.
Qed.

Lemma canonical_lt (m1 m2 : positive) (e1 e2 : Z) :
  bounded p_ e_ m1 e1 = true -> bounded p_ e_ m2 e2 = true ->
  e2 < e1 -> Zpos m2 < Zpos m1 * 2 ^ (e1 - e2).
Proof.
  intros B1 B2 Hlt.
  apply bounded_inv in B1. destruct B1 as (E1 & _ & S1).
  apply bounded_inv in B2. destruct B2 as (E2 & S2 & _).
  pose proof (size_lower m1) as L1. rewrite S1 in L1 by lia.
  pose proof (size_upper m2) as U2.
  assert (2 ^ Zpos (Pos.size m2) <= 2 ^ p_)
    by (apply Z.pow_le_mono_r; lia).
  assert (2 ^ 1 <= 2 ^ (e1 - e2)) by (apply Z.pow_le_mono_r; lia).
  assert (2 ^ p_ = 2 * 2 ^ (p_ - 1)).
  { rewrite <- Z.pow_succ_r by lia. f_equal; lia. }
  assert (0 < 2 ^ (p_ - 1)) by (apply Z.pow_pos_nonneg; lia).
  change (2 ^ 1) with 2 in *. nia.
Qed.

(** On floats in canonical form, the difference carries the sign of
    the comparison. *)
Lemma SFsub_sign (x y : spec_float) :
  valid_binary p_ e_ x = true -> valid_binary p_ e_ y = true ->
  (SFcompare x y = Some Gt -> signed_nonzero false (SFsub p_ e_ x y)) /\
  (SFcompare x y = Some Lt -> signed_nonzero true (SFsub p_ e_ x y)).
Proof.
  intros Vx Vy.
  destruct x as [sx | sx | | sx mx ex], y as [sy | sy | | sy my ey];
    simpl SFcompare; simpl SFsub;
    try (split; intros Hc; try discriminate;
         repeat match goal with b : bool |- _ => destruct b end;
         simpl in *; try discriminate; reflexivity).
  simpl in Vx, Vy.
  pose proof (bounded_inv _ _ Vx) as (Ex & _ & _).
  pose proof (bounded_inv _ _ Vy) as (Ey & _ & _).
  assert (Hmin : emin_ <= Z.min ex ey) by lia.
  assert (Hx : Zpos (fst (shl_align mx ex (Z.min ex ey)))
               = Zpos mx * 2 ^ (ex - Z.min ex ey))
    by (apply shl_align_value; lia).
  assert (Hy : Zpos (fst (shl_align my ey (Z.min ex ey)))
               = Zpos my * 2 ^ (ey - Z.min ex ey))
    by (apply shl_align_value; lia).
  set (d := cond_Zopp sx (Zpos (fst (shl_align mx ex (Z.min ex ey))))
            - cond_Zopp sy (Zpos (fst (shl_align my ey (Z.min ex ey))))).
  assert (Hd : (SFcompare (S754_finite sx mx ex) (S754_finite sy my ey)
                = Some Gt -> 0 < d) /\
               (SFcompare (S754_finite sx mx ex) (S754_finite sy my ey)
                = Some Lt -> d < 0)).
  { subst d. rewrite Hx, Hy. clear Hx Hy. simpl SFcompare.
    rewrite Pos.compare_cont_spec. simpl Pos.switch_Eq.
    assert (P0 : forall k, 0 <= k -> 0 < 2 ^ k)
      by (intros; apply Z.pow_pos_nonneg; lia).
    pose proof (P0 (ex - Z.min ex ey) ltac:(lia)).
    pose proof (P0 (ey - Z.min ex ey) ltac:(lia)).
    destruct (Z.compare_spec ex ey) as [Heq | Hlt | Hgt].
    - subst ey. rewrite Z.min_id, Z.sub_diag in *. simpl (2 ^ 0).
      destruct (Pos.compare_spec mx my) as [Hm | Hm | Hm];
        destruct sx, sy; cbn [cond_Zopp CompOpp]; split; intros Hc;
        try discriminate; lia.
    - pose proof (@canonical_lt my mx ey ex Vy Vx Hlt).
      rewrite Z.min_l in * by lia. rewrite Z.sub_diag. simpl (2 ^ 0).
      destruct sx, sy; cbn [cond_Zopp CompOpp]; split; intros Hc;
        try discriminate; nia.
    - pose proof (@canonical_lt mx my ex ey Vx Vy ltac:(lia)).
      rewrite Z.min_r in * by lia. rewrite Z.sub_diag. simpl (2 ^ 0).
      destruct sx, sy; cbn [cond_Zopp CompOpp]; split; intros Hc;
        try discriminate; nia. }
  destruct Hd as [Hgt Hlt].
  split; intros Hc.
  - specialize (Hgt Hc).
    replace false with (d <? 0) by (apply Z.ltb_ge; lia).
    apply binary_normalize_sign; [assumption | lia].
  - specialize (Hlt Hc).
    replace true with (d <? 0) by (apply Z.ltb_lt; lia).
    apply binary_normalize_sign; [assumption | lia].
Qed.

End Rounding.

(** [produced > expected] makes the float difference positive, and
    [produced < expected] makes it negative. *)
Lemma sub_pos (x y : float) :
  valid x = true -> valid y = true -> gt x y = true ->
  is_pos (sub x y) = true.
Proof.
  intros Vx Vy Hg. unfold gt, SFltb in Hg.
  pose proof (@SFsub_sign prec emax eq_refl x y Vx Vy) as [Hgt _].
  assert (Hc : SFcompare x y = Some Gt).
  { destruct x as [sx | sx | | sx mx ex], y as [sy | sy | | sy my ey];
      simpl in Hg |- *; try discriminate;
      repeat match goal with b : bool |- _ => destruct b end;
      simpl in Hg |- *; try discriminate; try reflexivity.
    all: rewrite Pos.compare_cont_spec in *; simpl Pos.switch_Eq in *;
      rewrite (Z.compare_antisym ex ey), (Pos.compare_antisym mx my) in Hg;
      destruct (ex ?= ey); simpl in Hg |- *; try discriminate; try reflexivity;
      destruct (mx ?= my)%positive; simpl in Hg |- *;
      try discriminate; reflexivity. }
  specialize (Hgt Hc). unfold sub.
  destruct (SFsub prec emax x y) as [| [] | | [] ? ?]; simpl in *;
    try contradiction; try discriminate; reflexivity.
Qed.

Lemma sub_neg (x y : float) :
  valid x = true -> valid y = true -> gt y x = true ->
  is_neg (sub x y) = true.
Proof.
  intros Vx Vy Hg. unfold gt, SFltb in Hg.
  pose proof (@SFsub_sign prec emax eq_refl x y Vx Vy) as [_ Hlt].
  assert (Hc : SFcompare x y = Some Lt)
    by (destruct (SFcompare x y) as [[]|]; congruence).
  specialize (Hlt Hc). unfold sub.
  destruct (SFsub prec emax x y) as [| [] | | [] ? ?]; simpl in *;
    try contradiction; try discriminate; reflexivity.
Qed.

End F32Facts.

(* ================================================================== *)
(** ** ErrorMetric *)

Section ErrorMetric.

Import F32.

Lemma gt_zero_of_pos (x : float) : is_pos x = true -> gt x zero = true.
Proof. destruct x as [| [] | | [] ? ?]; cbv; congruence. Qed.

Lemma gt_zero_of_neg (x : float) : is_neg x = true -> gt x zero = false.
Proof. destruct x as [| [] | | [] ? ?]; cbv; congruence. Qed.

(** A float above a float that is not negative is positive. *)
Lemma gt_nonneg_pos (x m : float) :
  is_neg m = false -> gt x m = true -> is_pos x = true.
Proof.
  unfold gt, SFltb.
  destruct x as [sx | sx | | sx mx ex], m as [sm | sm | | sm mm em];
    simpl; intros Hm Hg; try discriminate;
    repeat match goal with b : bool |- _ => destruct b end;
    simpl in *; try discriminate; reflexivity.
Qed.

(** A negative float is not above a float that is not negative. *)
Lemma neg_not_gt (x m : float) :
  is_neg x = true -> is_neg m = false -> gt x m = false.
Proof.
  intros Hx Hm. destruct (gt x m) eqn:E; [| reflexivity].
  pose proof (gt_nonneg_pos x m Hm E) as Hp.
  destruct x as [| [] | | [] ? ?]; simpl in *; discriminate.
Qed.

Lemma fold_error_step_app (errs : list float) (err : float) (acc : float * float) :
  fold_left error_step (errs ++ [err]) acc
  = error_step (fold_left error_step errs acc) err.
Proof. rewrite fold_left_app. reflexivity. Qed.

Lemma max_error_of_snoc (errs : list float) (err : float) :
  max_error_of (errs ++ [err])
  = if gt err (max_error_of errs) then err else max_error_of errs.
Proof.
  unfold max_error_of. rewrite fold_error_step_app.
  destruct (fold_left error_step errs (zero, zero)) as [m sm]. reflexivity.
Qed.

(** The running maximum is never negative (and never a NaN). *)
Lemma max_error_of_nonneg (errs : list float) :
  is_neg (max_error_of errs) = false /\ max_error_of errs <> S754_nan.
Proof.
  induction errs as [| err errs IH] using rev_ind.
  - split; [reflexivity | discriminate].
  - rewrite max_error_of_snoc. destruct IH as [IHn IHnan].
    destruct (gt err (max_error_of errs)) eqn:E; [| split; assumption].
    pose proof (gt_nonneg_pos _ _ IHn E) as Hp.
    destruct err as [| [] | | [] ? ?]; simpl in *;
      try discriminate; split; (reflexivity || discriminate).
Qed.

Lemma getOutputError_max (t : TfLiteTensor) (expected_data : list byte)
    (len : nat) (r r' : InferenceResult) :
  getOutputError t expected_data len r = Done r' ->
  (type t = kTfLiteUInt8 \/ type t = kTfLiteFloat32) /\
  bytes t = len /\
  maxSingleError r' = max_error_of (element_errors t expected_data) /\
  computeTimeSec r' = computeTimeSec r /\
  inferenceOutput r' = inferenceOutput r /\
  inputOutputSequenceIndex r' = inputOutputSequenceIndex r /\
  inputOutputIndex r' = inputOutputIndex r.
Proof.
  unfold getOutputError, element_errors, max_error_of, output_error.
  destruct (Nat.eqb_spec (bytes t) len) as [Hb | Hb]; simpl; [| discriminate].
  destruct (type t); try discriminate.
  - destruct (_ <? _)%nat; [discriminate |].
    destruct (fold_left error_step (float_errors (raw t) expected_data) (zero, zero)).
    intros [= <-]. simpl. auto 10.
  - destruct (_ <? _)%nat; [discriminate |].
    destruct (fold_left error_step (uint8_errors (raw t) expected_data) (zero, zero)).
    intros [= <-]. simpl. auto 10.
Qed.

Lemma uint8_all_ok :
  forallb (fun o => forallb (uint8_error_ok o) uint8_values) uint8_values
  = true.
Proof. vm_compute. reflexivity. Qed.

Lemma uint8_in_values (b : byte) : In (uint8 b) uint8_values.
Proof.
  unfold uint8_values, uint8.
  apply in_map_iff. exists (N.to_nat (Byte.to_N b)).
  pose proof (Byte.to_N_bounded b).
  split; [lia | apply in_seq; lia].
Qed.

Lemma uint8_error_ok_all (o e : byte) :
  uint8_error_ok (uint8 o) (uint8 e) = true.
Proof.
  pose proof uint8_all_ok as H.
  rewrite forallb_forall in H.
  specialize (H _ (uint8_in_values o)).
  rewrite forallb_forall in H.
  exact (H _ (uint8_in_values e)).
Qed.

(** The error of one [uint8_t] element is the exact difference. *)
Lemma uint8_error_exact (o e : byte) :
  let err := sub (of_Z (uint8 o)) (of_Z (uint8 e)) in
  to_Z err = Some (uint8 o - uint8 e) /\
  gt err zero = (uint8 e <? uint8 o).
Proof.
  intros err. pose proof (uint8_error_ok_all o e) as H.
  unfold uint8_error_ok in H. fold err in H.
  destruct (to_Z err) as [d |]; [| discriminate].
  apply andb_prop in H. destruct H as [Hd Hg].
  apply Z.eqb_eq in Hd. apply Bool.eqb_prop in Hg. subst d. auto.
Qed.

Lemma getOutputError_uint8_single (o e : byte) (r : InferenceResult) :
  let err := sub (of_Z (uint8 o)) (of_Z (uint8 e)) in
  exists r',
    getOutputError (mkTensor kTfLiteUInt8 [o]) [e] 1 r = Done r' /\
    maxSingleError r' = (if uint8 e <? uint8 o then err else zero).
Proof.
  intros err. destruct (uint8_error_exact o e) as [_ Hg]. fold err in Hg.
  unfold getOutputError, output_error. simpl.
  fold err. unfold gt in Hg. unfold gt. rewrite Hg.
  eexists. split; [reflexivity |]. simpl.
  destruct (uint8 e <? uint8 o); reflexivity.
Qed.

Lemma getOutputError_float_single (ob eb : list byte) (r : InferenceResult) :
  length ob = 4%nat -> length eb = 4%nat ->
  let o := of_bits (le_word ob) in
  let e := of_bits (le_word eb) in
  exists r',
    getOutputError (mkTensor kTfLiteFloat32 ob) eb 4 r = Done r' /\
    maxSingleError r' = (if gt (sub o e) zero then sub o e else zero).
Proof.
  intros Ho He o e.
  destruct ob as [| o0 [| o1 [| o2 [| o3 [| ? ?]]]]]; try discriminate.
  destruct eb as [| e0 [| e1 [| e2 [| e3 [| ? ?]]]]]; try discriminate.
  unfold getOutputError, output_error, float_errors, bytes.
  cbn [raw type length Nat.eqb negb].
  change (4 / 4)%nat with 1%nat. change (4 * 1)%nat with 4%nat.
  cbn [Nat.ltb Nat.leb].
  cbn [as_floats firstn skipn combine map fold_left error_step].
  fold o e. unfold gt.
  destruct (SFltb zero (sub o e)); eexists; split; reflexivity.
Qed.

End ErrorMetric.

(** *** The signed maximum over all the elements *)

Section SignedMax.
Import F32.

Lemma gt_irrefl (x : float) : gt x x = false.
Proof.
  unfold gt, SFltb.
  destruct x as [s | s | | s m e]; simpl; try reflexivity.
  - destruct s; reflexivity.
  - destruct s; rewrite Z.compare_refl, Pos.compare_cont_refl; reflexivity.
Qed.

Lemma gt_trans (a b c : float) :
  gt a b = true -> gt b c = true -> gt a c = true.
Proof.
  unfold gt, SFltb.
  destruct a as [sa | sa | | sa ma ea], b as [sb | sb | | sb mb eb],
    c as [sc | sc | | sc mc ec]; simpl;
    try discriminate;
    repeat match goal with s : bool |- _ => destruct s end;
    simpl; try discriminate; try reflexivity; intros H1 H2.
  - destruct (Z.compare_spec ec eb), (Z.compare_spec eb ea),
      (Z.compare_spec ec ea); try discriminate; try lia; try reflexivity.
    subst. rewrite Pos.compare_cont_spec in *. simpl in *.
    destruct (Pos.compare_spec mc mb), (Pos.compare_spec mb ma),
      (Pos.compare_spec mc ma); simpl in *; try discriminate; try lia;
      reflexivity.
  - destruct (Z.compare_spec ec eb), (Z.compare_spec eb ea),
      (Z.compare_spec ec ea); try discriminate; try lia; try reflexivity.
    subst. rewrite Pos.compare_cont_spec in *. simpl in *.
    destruct (Pos.compare_spec mc mb), (Pos.compare_spec mb ma),
      (Pos.compare_spec mc ma); simpl in *; try discriminate; try lia;
      reflexivity.
Qed.

(** No error is above the running maximum. *)
Lemma max_error_of_upper (errs : list float) :
  Forall (fun err => gt err (max_error_of errs) = false) errs.
Proof.
  induction errs as [| err errs IH] using rev_ind; [constructor |].
  rewrite max_error_of_snoc.
  destruct (gt err (max_error_of errs)) eqn:E.
  - apply Forall_app. split; [| constructor; [apply gt_irrefl | constructor]].
    eapply Forall_impl; [| exact IH]. cbn beta. intros e0 He0.
    destruct (gt e0 err) eqn:E0; [| reflexivity].
    rewrite (gt_trans e0 err (max_error_of errs) E0 E) in He0. discriminate.
  - apply Forall_app. split; [exact IH |]. constructor; [exact E | constructor].
Qed.

(** The running maximum is zero or a positive error. *)
Lemma max_error_of_attained (errs : list float) :
  max_error_of errs = zero \/
  (In (max_error_of errs) errs /\ gt (max_error_of errs) zero = true).
Proof.
  induction errs as [| err errs IH] using rev_ind; [left; reflexivity |].
  rewrite max_error_of_snoc.
  destruct (gt err (max_error_of errs)) eqn:E.
  - right. split; [apply in_or_app; right; left; reflexivity |].
    destruct IH as [Hz | [_ Hp]].
    + rewrite Hz in E. exact E.
    + eapply gt_trans; eassumption.
  - destruct IH as [Hz | [Hin Hp]]; [left; exact Hz |].
    right. split; [apply in_or_app; left; exact Hin | exact Hp].
Qed.

Lemma map_combine_seq {A B C : Type} (f : A * B -> C) (da : A) (db : B) :
  forall (la : list A) (lb : list B),
    (length la <= length lb)%nat ->
    map f (combine la lb)
    = map (fun i => f (nth i la da, nth i lb db)) (seq 0 (length la)).
Proof.
  induction la as [| a la IH]; intros lb Hl; [reflexivity |].
  destruct lb as [| b lb]; [simpl in Hl; lia |].
  cbn [combine map length seq nth]. f_equal.
  rewrite <- seq_shift, map_map. apply IH. simpl in Hl. lia.
Qed.

Lemma as_floats_elements (n : nat) : forall bs,
  as_floats n bs = map (float_element bs) (seq 0 n).
Proof.
  induction n as [| n IH]; intros bs; [reflexivity |].
  cbn [as_floats seq map].
  change (float_element bs 0) with (of_bits (le_word (firstn 4 bs))).
  f_equal.
  rewrite IH, <- seq_shift, map_map. apply map_ext. intros i.
  unfold float_element. rewrite skipn_skipn. do 4 f_equal. lia.
Qed.

Lemma combine_map_seq {A B : Type} (f : nat -> A) (g : nat -> B) (l : list nat) :
  combine (map f l) (map g l) = map (fun i => (f i, g i)) l.
Proof. induction l; simpl; congruence. Qed.

(** The errors the loops of [getOutputError] go through are, in the
    order of the indices, those of every element of the tensor. *)
Lemma element_errors_indexed (t : TfLiteTensor) (expected_data : list byte)
    (len : nat) (r r' : InferenceResult) :
  getOutputError t expected_data len r = Done r' ->
  element_errors t expected_data
  = map (produced_minus_expected t expected_data) (seq 0 (elements_count t)).
Proof.
  unfold getOutputError, element_errors, elements_count,
    produced_minus_expected, output_error.
  destruct (Nat.eqb_spec (bytes t) len) as [Hb | Hb]; simpl; [| discriminate].
  destruct (type t); try discriminate.
  - intros _. unfold float_errors, element.
    rewrite !as_floats_elements, combine_map_seq, map_map. reflexivity.
  - destruct (Nat.ltb_spec (length expected_data) (bytes t)) as [Hlt | Hge];
      [discriminate |].
    intros _. unfold uint8_errors, element, uint8_element.
    rewrite (map_combine_seq _ "000"%byte "000"%byte) by exact Hge.
    reflexivity.
Qed.


Lemma uint8_sub_all :
  forallb (fun o => forallb (uint8_sub_ok o) uint8_values) uint8_values = true.
Proof. vm_compute. reflexivity. Qed.

(** The error of a [uint8_t] element is the difference of the two
    values, converted to [float] without rounding. *)
Lemma uint8_sub_exact (o e : byte) :
  sub (of_Z (uint8 o)) (of_Z (uint8 e)) = of_Z (uint8 o - uint8 e).
Proof.
  pose proof uint8_sub_all as H.
  rewrite forallb_forall in H. specialize (H _ (uint8_in_values o)).
  rewrite forallb_forall in H. specialize (H _ (uint8_in_values e)).
  unfold uint8_sub_ok in H.
  destruct (sub (of_Z (uint8 o)) (of_Z (uint8 e))) as [a | a | | a m x],
    (of_Z (uint8 o - uint8 e)) as [b | b | | b m' x']; try discriminate.
  - apply Bool.eqb_prop in H. congruence.
  - apply andb_prop in H. destruct H as [H Hx].
    apply andb_prop in H. destruct H as [Hs Hm].
    apply Bool.eqb_prop in Hs. apply Pos.eqb_eq in Hm. apply Z.eqb_eq in Hx.
    congruence.
Qed.

Lemma differences_gt_all :
  forallb (fun d => forallb (uint8_gt_ok d) uint8_values) differences = true.
Proof. vm_compute. reflexivity. Qed.

Lemma in_differences (d : Z) : -255 <= d <= 255 -> In d differences.
Proof.
  intros Hd. unfold differences. apply in_map_iff.
  exists (Z.to_nat (d + 255)). split; [lia | apply in_seq; lia].
Qed.

Lemma in_uint8_values (m : Z) : 0 <= m <= 255 -> In m uint8_values.
Proof.
  intros Hm. unfold uint8_values. apply in_map_iff.
  exists (Z.to_nat m). split; [lia | apply in_seq; lia].
Qed.

Lemma difference_gt (d m : Z) :
  -255 <= d <= 255 -> 0 <= m <= 255 ->
  gt (of_Z d) (of_Z m) = (m <? d) /\ to_Z (of_Z d) = Some d.
Proof.
  intros Hd Hm. pose proof differences_gt_all as H.
  rewrite forallb_forall in H. specialize (H _ (in_differences d Hd)).
  rewrite forallb_forall in H. specialize (H _ (in_uint8_values m Hm)).
  unfold uint8_gt_ok in H. apply andb_prop in H. destruct H as [Hg Hz].
  apply Bool.eqb_prop in Hg. split; [exact Hg |].
  destruct (to_Z (of_Z d)) as [z |]; [| discriminate].
  apply Z.eqb_eq in Hz. congruence.
Qed.

Lemma signed_max_snoc (ds : list Z) (d : Z) :
  signed_max (ds ++ [d]) = Z.max (signed_max ds) d.
Proof. unfold signed_max. rewrite fold_left_app. reflexivity. Qed.

Lemma signed_max_range (ds : list Z) :
  Forall (fun d => -255 <= d <= 255) ds -> 0 <= signed_max ds <= 255.
Proof.
  induction ds as [| d ds IH] using rev_ind; intros Hall.
  - unfold signed_max. simpl. lia.
  - apply Forall_app in Hall. destruct Hall as [Hds Hd].
    inversion Hd as [| ? ? Hd' _]; subst.
    rewrite signed_max_snoc. specialize (IH Hds). lia.
Qed.

(** Over differences of [uint8_t] values the running maximum of
    [getOutputError] is the greatest of zero and the differences. *)
Lemma max_error_of_differences (ds : list Z) :
  Forall (fun d => -255 <= d <= 255) ds ->
  max_error_of (map of_Z ds) = of_Z (signed_max ds).
Proof.
  induction ds as [| d ds IH] using rev_ind; intros Hall; [reflexivity |].
  apply Forall_app in Hall. destruct Hall as [Hds Hd].
  inversion Hd as [| ? ? Hd' _]; subst.
  rewrite map_app. cbn [map]. rewrite max_error_of_snoc, IH by exact Hds.
  rewrite signed_max_snoc.
  destruct (difference_gt d (signed_max ds) Hd' (signed_max_range ds Hds))
    as [-> _].
  destruct (Z.ltb_spec (signed_max ds) d).
  - rewrite Z.max_r by lia. reflexivity.
  - rewrite Z.max_l by lia. reflexivity.
Qed.

Lemma uint8_range (b : byte) : 0 <= uint8 b <= 255.
Proof. unfold uint8. pose proof (Byte.to_N_bounded b). lia. Qed.

Lemma getOutputError_uint8_max (t : TfLiteTensor) (expected_data : list byte)
    (len : nat) (r r' : InferenceResult) :
  type t = kTfLiteUInt8 ->
  getOutputError t expected_data len r = Done r' ->
  maxSingleError r'
  = of_Z (signed_max (map (uint8_difference t expected_data)
                          (seq 0 (bytes t)))) /\
  to_Z (maxSingleError r')
  = Some (signed_max (map (uint8_difference t expected_data)
                          (seq 0 (bytes t)))).
Proof.
  intros Hty Hrun.
  pose proof (element_errors_indexed _ _ _ _ _ Hrun) as Hidx.
  apply getOutputError_max in Hrun. destruct Hrun as (_ & _ & Hmax & _).
  assert (Hall : Forall (fun d => -255 <= d <= 255)
                        (map (uint8_difference t expected_data)
                             (seq 0 (bytes t)))).
  { apply Forall_forall. intros d Hd. apply in_map_iff in Hd.
    destruct Hd as (i & <- & _). unfold uint8_difference.
    pose proof (uint8_range (nth i (raw t) "000"%byte)).
    pose proof (uint8_range (nth i expected_data "000"%byte)). lia. }
  assert (E : maxSingleError r'
              = of_Z (signed_max (map (uint8_difference t expected_data)
                                      (seq 0 (bytes t))))).
  { rewrite Hmax, Hidx. unfold elements_count. rewrite Hty.
    rewrite <- max_error_of_differences by exact Hall.
    rewrite map_map. f_equal. apply map_ext. intros i.
    unfold produced_minus_expected, element, uint8_element, uint8_difference.
    rewrite Hty. apply uint8_sub_exact. }
  split; [exact E |]. rewrite E.
  pose proof (signed_max_range _ Hall) as Hr.
  apply (difference_gt _ 0); lia.
Qed.

End SignedMax.

(** C1.  [getOutputError] keeps [maxSingleError] as a signed maximum,
    for both supported element types and for tensors of any number of
    elements.  The value stored is the running maximum, started at
    zero, of the errors [produced - expected] of the elements taken in
    the order of their indices: no element error is above it, and it is
    zero or an element error that is above zero.  For a [uint8_t]
    tensor it is exactly the greatest of zero and the differences
    [produced - expected] of all the elements, as integers.  An error
    updates the running maximum exactly when it is above the current
    value, which only a positive error can be, and a negative error
    never updates it.  For a single [uint8_t] element with produced
    above expected the result is exactly the difference, and with
    produced below expected it stays zero; the same holds for a single
    [float] element, the difference being the [float] subtraction. *)
Theorem getOutputError_signed_max :
  (forall t expected_data len r r',
      getOutputError t expected_data len r = Done r' ->
      (type t = kTfLiteUInt8 \/ type t = kTfLiteFloat32) /\
      maxSingleError r'
      = max_error_of (map (produced_minus_expected t expected_data)
                          (seq 0 (elements_count t))) /\
      (forall i, (i < elements_count t)%nat ->
         F32.gt (produced_minus_expected t expected_data i)
                (maxSingleError r') = false) /\
      (maxSingleError r' = F32.zero \/
       exists i, (i < elements_count t)%nat /\
         maxSingleError r' = produced_minus_expected t expected_data i /\
         F32.gt (produced_minus_expected t expected_data i) F32.zero = true) /\
      (type t = kTfLiteUInt8 ->
       F32.to_Z (maxSingleError r')
       = Some (signed_max (map (uint8_difference t expected_data)
                               (seq 0 (bytes t)))))) /\
  (forall errs err,
      max_error_of (errs ++ [err])
      = (if F32.gt err (max_error_of errs) then err else max_error_of errs) /\
      (F32.gt err (max_error_of errs) = true -> F32.is_pos err = true) /\
      (F32.is_neg err = true ->
       max_error_of (errs ++ [err]) = max_error_of errs)) /\
  (forall (o e : byte) r,
      exists r',
        getOutputError (mkTensor kTfLiteUInt8 [o]) [e] 1 r = Done r' /\
        (uint8 e < uint8 o ->
         maxSingleError r' = F32.sub (F32.of_Z (uint8 o)) (F32.of_Z (uint8 e)) /\
         F32.to_Z (maxSingleError r') = Some (uint8 o - uint8 e)) /\
        (uint8 o < uint8 e -> maxSingleError r' = F32.zero)) /\
  (forall (ob eb : list byte) r,
      length ob = 4%nat -> length eb = 4%nat ->
      exists r',
        getOutputError (mkTensor kTfLiteFloat32 ob) eb 4 r = Done r' /\
        (F32.gt (F32.of_bits (le_word ob)) (F32.of_bits (le_word eb)) = true ->
         maxSingleError r'
         = F32.sub (F32.of_bits (le_word ob)) (F32.of_bits (le_word eb))) /\
        (F32.gt (F32.of_bits (le_word eb)) (F32.of_bits (le_word ob)) = true ->
         maxSingleError r' = F32.zero)).
Proof.
  split; [| split; [| split]].
  - intros t expected_data len r r' Hrun.
    pose proof (element_errors_indexed _ _ _ _ _ Hrun) as Hidx.
    pose proof (getOutputError_max _ _ _ _ _ Hrun) as (Hty & _ & Hmax & _).
    rewrite Hidx in Hmax.
    split; [exact Hty |]. split; [exact Hmax |]. split; [| split].
    + intros i Hi. rewrite Hmax.
      pose proof (max_error_of_upper
                    (map (produced_minus_expected t expected_data)
                         (seq 0 (elements_count t)))) as Hup.
      rewrite Forall_forall in Hup. apply Hup.
      apply in_map. apply in_seq. lia.
    + destruct (max_error_of_attained
                  (map (produced_minus_expected t expected_data)
                       (seq 0 (elements_count t)))) as [Hz | [Hin Hp]].
      * left. rewrite Hmax. exact Hz.
      * right. apply in_map_iff in Hin. destruct Hin as (i & Hi & Hseq).
        apply in_seq in Hseq. exists i.
        split; [lia |]. rewrite Hmax, Hi. split; [reflexivity | exact Hp].
    + intros Hu. eapply getOutputError_uint8_max; eassumption.
  - intros errs err.
    destruct (max_error_of_nonneg errs) as [Hn _].
    split; [apply max_error_of_snoc |].
    split; [apply gt_nonneg_pos; assumption |].
    intros Hneg. rewrite max_error_of_snoc, neg_not_gt; auto.
  - intros o e r.
    destruct (getOutputError_uint8_single o e r) as (r' & Hrun & Hmax).
    destruct (uint8_error_exact o e) as [Hz _].
    exists r'. split; [exact Hrun |]. split; intros Hlt.
    + replace (uint8 e <? uint8 o) with true in Hmax
        by (symmetry; apply Z.ltb_lt; lia).
      rewrite Hmax. auto.
    + replace (uint8 e <? uint8 o) with false in Hmax
        by (symmetry; apply Z.ltb_ge; lia).
      exact Hmax.
  - intros ob eb r Hob Heb.
    destruct (getOutputError_float_single ob eb r Hob Heb) as (r' & Hrun & Hmax).
    exists r'. split; [exact Hrun |]. split; intros Hg.
    + rewrite Hmax, gt_zero_of_pos; [reflexivity |].
      apply F32Facts.sub_pos; auto using F32Facts.of_bits_valid.
    + rewrite Hmax, gt_zero_of_neg; [reflexivity |].
      apply F32Facts.sub_neg; auto using F32Facts.of_bits_valid.
Qed.

Lemma getOutputError_signed_max_witness :
  exists r',
    getOutputError (mkTensor kTfLiteUInt8 ["005"; "009"; "002"]%byte)
                   ["003"; "001"; "007"]%byte 3
                   (mkResult F32.zero F32.zero F32.zero [] 0 0) = Done r' /\
    F32.to_Z (maxSingleError r') = Some 8 /\
    maxSingleError r'
    = produced_minus_expected (mkTensor kTfLiteUInt8 ["005"; "009"; "002"]%byte)
                              ["003"; "001"; "007"]%byte 1.
Proof.
  eexists. split; [vm_compute; reflexivity |].
  destruct getOutputError_signed_max as (H & _).
  destruct (H (mkTensor kTfLiteUInt8 ["005"; "009"; "002"]%byte)
              ["003"; "001"; "007"]%byte 3%nat
              (mkResult F32.zero F32.zero F32.zero [] 0 0) _ eq_refl)
    as (_ & _ & _ & _ & Hz).
  split; [exact (Hz eq_refl) | reflexivity].
Defined.

(** C6.  [getOutputError] ends in [FATAL] whenever the expected length
    differs from the byte size of the output tensor, and whenever the
    element type of the output tensor is neither [kTfLiteUInt8] nor
    [kTfLiteFloat32]; it then returns no result. *)
Theorem getOutputError_fatal :
  forall t expected_data len r,
    bytes t <> len \/ (type t <> kTfLiteUInt8 /\ type t <> kTfLiteFloat32) ->
    exists msg, getOutputError t expected_data len r = Fatal msg.
Proof.
  intros t expected_data len r Hbad. unfold getOutputError.
  destruct (Nat.eqb_spec (bytes t) len) as [Hb | Hb]; simpl.
  - destruct Hbad as [Hbad | [Hu Hf]]; [contradiction |].
    destruct (type t); try (eexists; reflexivity); congruence.
  - eexists; reflexivity.
Qed.

Lemma getOutputError_fatal_witness :
  exists msg,
    getOutputError (mkTensor kTfLiteUInt8 ["007"]%byte) ["003"; "004"]%byte 2
                   (mkResult F32.zero F32.zero F32.zero [] 0 0) = Fatal msg.
Proof.
  apply getOutputError_fatal. left. unfold bytes. simpl. lia.
Defined.

(* ================================================================== *)
(** ** BenchmarkLoop *)

Section BenchmarkLoop.

Context {Interpreter : Type} `{TfLite Interpreter}.
Variable gettimeofday : nat -> Z.
Variable kTraceFunc : TraceFunc.
Variable FLAG_IGNORE_GOLDEN_OUTPUT : Z.
Variable FLAG_DISCARD_INFERENCE_OUTPUT : Z.

Local Notation "'entry'" :=
  (benchmark_entry gettimeofday kTraceFunc FLAG_IGNORE_GOLDEN_OUTPUT
                   FLAG_DISCARD_INFERENCE_OUTPUT).
Local Notation "'resultOf'" :=
  (result_of FLAG_IGNORE_GOLDEN_OUTPUT FLAG_DISCARD_INFERENCE_OUTPUT).

Lemma runInference_false (w w' : World Interpreter) :
  runInference w = Done (false, w') ->
  fst (Invoke (mTfliteInterpreter w)) = kTfLiteError.
Proof.
  unfold runInference, bind, get_interpreter.
  destruct (Invoke (mTfliteInterpreter w)) as [[] interp']; simpl;
    [discriminate | reflexivity].
Qed.

Lemma provide_input_false (data : InferenceInOut) (w w' : World Interpreter) :
  provide_input data w = Done (false, w') ->
  input data = None /\
  fst (createInput data (raw (input0 (mTfliteInterpreter w)))
                   (bytes (input0 (mTfliteInterpreter w)))) = false.
Proof.
  unfold provide_input, bind, get_interpreter.
  destruct (input data) as [dataPtr |].
  - destruct (setInput dataPtr (input_size data) w) as [[b w1] | |];
      discriminate.
  - destruct (createInput data _ _) as [ok raw']. simpl.
    intros [= -> _]. auto.
Qed.

Lemma timed_inference_inv flags s i data total rs w o rs' w' :
  timed_inference gettimeofday kTraceFunc FLAG_IGNORE_GOLDEN_OUTPUT
                  FLAG_DISCARD_INFERENCE_OUTPUT flags s i data total rs w
  = Done ((o, rs'), w') ->
  match o with
  | None => rs' = rs /\ entry_fails data
  | Some total' =>
      exists r, rs' = rs ++ [r] /\
                total' = F32.add total (computeTimeSec r) /\
                resultOf flags (s, i, data) r
  end.
Proof.
  unfold timed_inference, bind.
  destruct (call_trace (ATrace_endSection kTraceFunc) None w) as [[[] w1] | |];
    try discriminate.
  destruct (currentTimeInUsec gettimeofday w1) as [[startTime w2] | |];
    try discriminate.
  destruct (runInference w2) as [[success w3] | |] eqn:Erun; try discriminate.
  destruct (call_trace (ATrace_endSection kTraceFunc) None w3) as [[[] w4] | |];
    try discriminate.
  destruct (currentTimeInUsec gettimeofday w4) as [[endTime w5] | |];
    try discriminate.
  destruct success; cbn [negb].
  - unfold get_interpreter, lift, ret, result_of.
    destruct (Z.land flags FLAG_IGNORE_GOLDEN_OUTPUT =? 0) eqn:Eign;
      destruct (Z.land flags FLAG_DISCARD_INFERENCE_OUTPUT =? 0) eqn:Edis.
    all: try (destruct (getOutputError _ _ _ _) as [r1 | |] eqn:Eerr;
              try discriminate;
              pose proof (getOutputError_max _ _ _ _ _ Eerr)
                as (_ & _ & _ & Ht & _); cbn [computeTimeSec] in Ht).
    all: intros [= <- <- <-]; eexists; split; [reflexivity |].
    all: cbn [computeTimeSec saveInferenceOutput]; rewrite ?Ht.
    all: split; [reflexivity |].
    all: exists (output0 (mTfliteInterpreter w5)); do 2 eexists.
    all: rewrite ?Eign, ?Edis; split; [try eassumption; reflexivity | reflexivity].
  - unfold android_log_print, ret. intros [= <- <- <-].
    split; [reflexivity |].
    exists (mTfliteInterpreter w2). right.
    eapply runInference_false; eassumption.
Qed.

Lemma benchmark_entry_inv flags s i data total rs w o rs' w' :
  entry flags s i data total rs w = Done ((o, rs'), w') ->
  match o with
  | None => rs' = rs /\ entry_fails data
  | Some total' =>
      exists r, rs' = rs ++ [r] /\
                total' = F32.add total (computeTimeSec r) /\
                resultOf flags (s, i, data) r
  end.
Proof.
  unfold benchmark_entry, bind.
  destruct (call_trace (ATrace_beginSection kTraceFunc) _ w) as [[[] w1] | |];
    try discriminate.
  destruct (call_trace (ATrace_beginSection kTraceFunc) _ w1) as [[[] w2] | |];
    try discriminate.
  destruct (provide_input data w2) as [[created w3] | |] eqn:Ein;
    try discriminate.
  destruct created; cbn [negb].
  - apply timed_inference_inv.
  - unfold android_log_print, ret. intros [= <- <- <-].
    split; [reflexivity |].
    apply provide_input_false in Ein.
    exists (mTfliteInterpreter w2). left. exact Ein.
Qed.

Local Notation "'sequence'" :=
  (benchmark_sequence gettimeofday kTraceFunc FLAG_IGNORE_GOLDEN_OUTPUT
                      FLAG_DISCARD_INFERENCE_OUTPUT).
Local Notation "'loop'" :=
  (benchmark_loop gettimeofday kTraceFunc FLAG_IGNORE_GOLDEN_OUTPUT
                  FLAG_DISCARD_INFERENCE_OUTPUT).

(** What a run of the inner loop leaves: a result for each entry it
    went through, in order; all of the sequence when it runs to its
    end, and the entries before one that fails otherwise. *)
Lemma benchmark_sequence_inv flags s seq :
  forall i total rs w o rs' w',
    sequence flags s i seq total rs w = Done ((o, rs'), w') ->
    exists new done rest,
      rs' = rs ++ new /\
      tagged s i seq = done ++ rest /\
      Forall2 (resultOf flags) done new /\
      match o with
      | Some total' => rest = [] /\ total' = total_after total new
      | None => exists e rest', rest = e :: rest' /\ entry_fails (snd e)
      end.
Proof.
  induction seq as [| data seq IH]; intros i total rs w o rs' w'.
  - simpl. unfold ret. intros [= <- <- <-].
    exists [], [], []. rewrite app_nil_r. repeat split; constructor.
  - cbn [benchmark_sequence]. unfold bind at 1.
    destruct (entry flags s i data total rs w) as [[[o1 rs1] w1] | |] eqn:E1;
      try discriminate.
    apply benchmark_entry_inv in E1.
    destruct o1 as [total1 |].
    + destruct E1 as (r & -> & -> & Hr).
      intros Hrest. apply IH in Hrest.
      destruct Hrest as (new & done & rest & -> & Htag & Hall & Ho).
      exists (r :: new), ((s, i, data) :: done), rest.
      rewrite <- app_assoc. split; [reflexivity |].
      split; [unfold tagged in *; simpl; rewrite Htag; reflexivity |].
      split; [constructor; assumption |].
      destruct o as [total' |]; [| exact Ho].
      destruct Ho as [-> ->]. split; reflexivity.
    + destruct E1 as [-> Hfail]. unfold ret. intros [= <- <- <-].
      exists [], [], (tagged s i (data :: seq)).
      rewrite app_nil_r. repeat split; try constructor.
      exists (s, i, data), (tagged s (i + 1) seq). split; [reflexivity | exact Hfail].
Qed.

Lemma resetStates_done (w : World Interpreter) :
  exists b w', resetStates w = Done (b, w').
Proof.
  unfold resetStates, bind, get_interpreter, put_interpreter,
    android_log_print, ret.
  destruct (ResetVariableTensorsToZero (mTfliteInterpreter w)) as [[] interp'];
    eauto.
Qed.

Lemma total_after_app (total : float) (rs1 rs2 : list InferenceResult) :
  total_after total (rs1 ++ rs2) = total_after (total_after total rs1) rs2.
Proof. apply fold_left_app. Qed.

(** What a run of the outer loop leaves.  The results appended are
    those of a prefix of the schedule.  When the loop returns true the
    prefix is made of [k] whole iterations: either all of them, or the
    first ones up to the first iteration after which the total exceeds
    the timeout.  When it returns false the prefix stops before an
    entry that fails. *)
Lemma benchmark_loop_inv inOutData timeout flags steps :
  forall k0 total rs w b rs' w',
    loop inOutData timeout flags steps k0 total rs w = Done ((b, rs'), w') ->
    exists new done rest,
      rs' = rs ++ new /\
      schedule inOutData k0 steps = done ++ rest /\
      Forall2 (resultOf flags) done new /\
      if b then
        exists k : nat,
          (k <= steps)%nat /\ (1 <= steps -> 1 <= k)%nat /\
          done = schedule inOutData k0 k /\
          (k < steps ->
           F32.gt (total_after total new) timeout = true)%nat /\
          (forall j : nat, (0 < j < k)%nat ->
             F32.gt (total_after total
                       (firstn (length (schedule inOutData k0 j)) new))
                    timeout = false)
      else exists e rest', rest = e :: rest' /\ entry_fails (snd e).
Proof.
  induction steps as [| steps IH]; intros k0 total rs w b rs' w'.
  - simpl. unfold ret. intros [= <- <- <-].
    exists [], [], []. rewrite app_nil_r. repeat split; try constructor.
    exists 0%nat. repeat split; intros; first [lia | reflexivity].
  - cbn [benchmark_loop]. unfold bind at 1.
    destruct (resetStates_done w) as (b0 & w0 & ->).
    unfold bind at 1.
    destruct (sequence flags _ 0 _ total rs w0) as [[[o1 rs1] w1] | |] eqn:E1;
      try discriminate.
    apply benchmark_sequence_inv in E1.
    destruct E1 as (new1 & done1 & rest1 & -> & Htag & Hall1 & Ho).
    fold (step_entries inOutData k0) in Htag.
    destruct o1 as [total1 |].
    + destruct Ho as [-> ->]. rewrite app_nil_r in Htag.
      pose proof (Forall2_length Hall1) as Hlen1.
      destruct (F32.gt (total_after total new1) timeout) eqn:Egt.
      * unfold ret. intros [= <- <- <-].
        exists new1, done1, (schedule inOutData (k0 + 1) steps).
        split; [reflexivity |].
        split; [simpl; rewrite Htag; reflexivity |].
        split; [assumption |].
        exists 1%nat. split; [lia |]. split; [lia |].
        split; [simpl; rewrite Htag, app_nil_r; reflexivity |].
        split; [intros _; exact Egt | intros j Hj; lia].
      * intros Hrest. apply IH in Hrest.
        destruct Hrest as (new2 & done2 & rest2 & -> & Hsched & Hall2 & Hb).
        exists (new1 ++ new2), (done1 ++ done2), rest2.
        rewrite <- !app_assoc.
        split; [reflexivity |].
        split; [simpl; rewrite Htag, Hsched; reflexivity |].
        split; [apply Forall2_app; assumption |].
        destruct b; [| exact Hb].
        destruct Hb as (k & Hk & Hk1 & -> & Hlast & Hbefore).
        exists (S k). split; [lia |]. split; [lia |].
        split; [simpl; rewrite Htag; reflexivity |].
        split.
        -- intros Hlt. rewrite total_after_app. apply Hlast. lia.
        -- intros j Hj. destruct j as [| j]; [lia |].
           simpl schedule. rewrite Htag, length_app, Hlen1.
           rewrite firstn_app_2, total_after_app.
           destruct j as [| j].
           ++ simpl. exact Egt.
           ++ apply Hbefore. lia.
    + destruct Ho as (e & rest' & -> & Hfail).
      unfold ret. intros [= <- <- <-].
      exists new1, done1, ((e :: rest') ++ schedule inOutData (k0 + 1) steps).
      split; [reflexivity |].
      split; [simpl; rewrite Htag, <- app_assoc; reflexivity |].
      split; [assumption |].
      exists e, (rest' ++ schedule inOutData (k0 + 1) steps).
      split; [reflexivity | exact Hfail].
Qed.

Local Notation "'bench'" :=
  (benchmark gettimeofday kTraceFunc FLAG_IGNORE_GOLDEN_OUTPUT
             FLAG_DISCARD_INFERENCE_OUTPUT).

Lemma benchmark_nonempty inOutData maxCount timeout flags rs :
  inOutData <> [] ->
  bench inOutData maxCount timeout flags rs
  = loop inOutData timeout flags (Z.to_nat maxCount) 0 F32.zero rs.
Proof. destruct inOutData; [congruence | reflexivity]. Qed.

(** *** What a result record holds *)

Lemma result_of_tag flags e r : resultOf flags e r -> tag r = entry_tag e.
Proof.
  destruct e as [[s i] data]. intros (t & time & r1 & H1 & Hr).
  assert (tag r1 = (s, i)) as Hr1.
  { destruct (Z.land flags FLAG_IGNORE_GOLDEN_OUTPUT =? 0).
    - apply getOutputError_max in H1.
      destruct H1 as (_ & _ & _ & _ & _ & Hs & Hi).
      unfold tag. rewrite Hs, Hi. reflexivity.
    - subst r1. reflexivity. }
  destruct (Z.land flags FLAG_DISCARD_INFERENCE_OUTPUT =? 0); subst r;
    exact Hr1.
Qed.

Lemma results_tags flags done new :
  Forall2 (resultOf flags) done new -> map tag new = map entry_tag done.
Proof.
  induction 1 as [| e r done new Hr _ IH]; [reflexivity |].
  simpl. rewrite IH. f_equal. eapply result_of_tag; eassumption.
Qed.

Lemma result_of_ignored flags e r :
  Z.land flags FLAG_IGNORE_GOLDEN_OUTPUT <> 0 -> resultOf flags e r ->
  meanSquareError r = F32.zero /\ maxSingleError r = F32.zero.
Proof.
  destruct e as [[s i] data]. intros Hf (t & time & r1 & H1 & Hr).
  apply Z.eqb_neq in Hf. rewrite Hf in H1. subst r1.
  destruct (Z.land flags FLAG_DISCARD_INFERENCE_OUTPUT =? 0); subst r;
    simpl; auto.
Qed.

(** *** The readings of the clock *)

Lemma call_trace_clock f name (w w' : World Interpreter) u :
  call_trace f name w = Done (u, w') -> clock_reads w' = clock_reads w.
Proof.
  unfold call_trace. destruct f; [| discriminate].
  intros [= _ <-]. reflexivity.
Qed.

Lemma setInput_clock dataPtr n (w w' : World Interpreter) b :
  setInput dataPtr n w = Done (b, w') -> clock_reads w' = clock_reads w.
Proof.
  unfold setInput, bind, get_interpreter, put_interpreter,
    android_log_print, ret.
  destruct (type (input0 (mTfliteInterpreter w)));
    try (intros [= _ <-]; reflexivity);
    destruct (memcpy _ _ _); try discriminate;
    intros [= _ <-]; reflexivity.
Qed.

Lemma provide_input_clock data (w w' : World Interpreter) b :
  provide_input data w = Done (b, w') -> clock_reads w' = clock_reads w.
Proof.
  unfold provide_input, bind, get_interpreter, put_interpreter, ret.
  destruct (input data) as [dataPtr |].
  - destruct (setInput dataPtr (input_size data) w) as [[b1 w1] | |] eqn:E;
      try discriminate.
    intros [= _ <-]. eapply setInput_clock; eassumption.
  - destruct (createInput data _ _) as [ok raw'].
    intros [= _ <-]. reflexivity.
Qed.

Lemma runInference_clock (w w' : World Interpreter) b :
  runInference w = Done (b, w') -> clock_reads w' = clock_reads w.
Proof.
  unfold runInference, bind, get_interpreter, put_interpreter,
    android_log_print, ret.
  destruct (Invoke (mTfliteInterpreter w)) as [[] interp'];
    intros [= _ <-]; reflexivity.
Qed.

(** An entry that runs to its end reads the clock twice, around the
    inference, and its result carries the time between the two. *)
Lemma benchmark_entry_clock flags s i data total rs w total' rs' w' :
  entry flags s i data total rs w = Done ((Some total', rs'), w') ->
  clock_reads w' = S (S (clock_reads w)) /\
  exists r, rs' = rs ++ [r] /\
            computeTimeSec r = inference_time gettimeofday (clock_reads w).
Proof.
  unfold benchmark_entry, bind.
  destruct (call_trace (ATrace_beginSection kTraceFunc) _ w)
    as [[[] w1] | |] eqn:E1; try discriminate.
  destruct (call_trace (ATrace_beginSection kTraceFunc) _ w1)
    as [[[] w2] | |] eqn:E2; try discriminate.
  destruct (provide_input data w2) as [[created w3] | |] eqn:E3;
    try discriminate.
  apply call_trace_clock in E1. apply call_trace_clock in E2.
  apply provide_input_clock in E3.
  destruct created; cbn [negb];
    [| unfold android_log_print, ret; discriminate].
  unfold timed_inference, bind.
  destruct (call_trace (ATrace_endSection kTraceFunc) None w3)
    as [[[] w4] | |] eqn:E4; try discriminate.
  apply call_trace_clock in E4.
  unfold currentTimeInUsec at 1.
  destruct (runInference _) as [[success w5] | |] eqn:E5; try discriminate.
  apply runInference_clock in E5. cbn [clock_reads] in E5.
  destruct (call_trace (ATrace_endSection kTraceFunc) None w5)
    as [[[] w6] | |] eqn:E6; try discriminate.
  apply call_trace_clock in E6.
  unfold currentTimeInUsec at 1.
  destruct success; cbn [negb];
    [| unfold android_log_print, ret; discriminate].
  unfold get_interpreter, lift, ret.
  assert (Hc : clock_reads w4 = clock_reads w) by congruence.
  assert (Hc6 : clock_reads w6 = S (clock_reads w)) by congruence.
  destruct (Z.land flags FLAG_IGNORE_GOLDEN_OUTPUT =? 0);
    destruct (Z.land flags FLAG_DISCARD_INFERENCE_OUTPUT =? 0).
  all: try (destruct (getOutputError _ _ _ _) as [r1 | |] eqn:Eerr;
            try discriminate;
            pose proof (getOutputError_max _ _ _ _ _ Eerr)
              as (_ & _ & _ & Ht & _); cbn [computeTimeSec] in Ht).
  all: intros [= _ <- <-]; cbn [clock_reads]; split; [congruence |].
  all: eexists; split; [reflexivity |].
  all: cbn [computeTimeSec saveInferenceOutput]; rewrite ?Ht.
  all: unfold inference_time; rewrite Hc6, Hc; reflexivity.
Qed.

Lemma clock_total_add total c a b :
  clock_total gettimeofday total c (a + b)
  = clock_total gettimeofday (clock_total gettimeofday total c a)
                (c + 2 * a) b.
Proof.
  revert total c. induction a as [| a IH]; intros total c; simpl.
  - f_equal. lia.
  - rewrite IH. f_equal. lia.
Qed.

(** *** Runs in which every entry runs to its end *)

Section NoFailure.

(** A property of the state that holds at the start, that resetting
    keeps, and from which every entry of [seq] runs to its end. *)
Variable Inv : World Interpreter -> Prop.
Variable flags : Z.
Variable seq : InferenceInOutSequence.

Hypothesis reset_keeps :
  forall w b w', Inv w -> resetStates w = Done (b, w') -> Inv w'.

Hypothesis entries_run :
  forall s i data total rs w,
    Inv w -> In data seq ->
    exists total' r w',
      entry flags s i data total rs w = Done ((Some total', rs ++ [r]), w') /\
      Inv w'.

Lemma benchmark_sequence_runs s : forall seq' i total rs w,
  incl seq' seq -> Inv w ->
  exists new w',
    sequence flags s i seq' total rs w
    = Done ((Some (clock_total gettimeofday total (clock_reads w)
                               (length seq')),
             rs ++ new), w') /\
    Inv w' /\
    clock_reads w' = (clock_reads w + 2 * length seq')%nat /\
    map tag new = map entry_tag (tagged s i seq').
Proof.
  induction seq' as [| data seq' IH]; intros i total rs w Hincl Hw.
  - exists [], w. simpl. rewrite app_nil_r.
    split; [reflexivity |]. split; [assumption |]. split; [lia | reflexivity].
  - assert (Hin : In data seq) by (apply Hincl; left; reflexivity).
    destruct (entries_run s i data total rs w Hw Hin)
      as (total1 & r & w1 & E1 & Hw1).
    pose proof E1 as Hinv. apply benchmark_entry_inv in Hinv.
    destruct Hinv as (r1 & Hr1 & Ht1 & Hres).
    apply app_inv_head in Hr1. injection Hr1 as <-.
    pose proof E1 as Hclk. apply benchmark_entry_clock in Hclk.
    destruct Hclk as (Hc1 & r2 & Hr2 & Htime).
    apply app_inv_head in Hr2. injection Hr2 as <-.
    destruct (IH (i + 1) total1 (rs ++ [r]) w1) as (new & w' & E2 & Hw' & Hc2 & Htags);
      [intros x Hx; apply Hincl; right; exact Hx | exact Hw1 |].
    exists (r :: new), w'.
    cbn [benchmark_sequence]. unfold bind at 1. rewrite E1, E2.
    rewrite <- app_assoc. cbn [length clock_total app].
    rewrite Hc1, Ht1, Htime.
    split; [reflexivity |]. split; [assumption |]. split; [lia |].
    unfold tagged in *. cbn [numbered map]. rewrite Htags.
    f_equal. eapply result_of_tag; eassumption.
Qed.

(** The tags of the results of [steps] iterations over the single
    sequence [seq]. *)
Lemma schedule_single : forall steps k0,
  map entry_tag (schedule [seq] k0 steps)
  = concat (repeat (map (fun i => (0, Z.of_nat i)) (List.seq 0 (length seq)))
                   steps).
Proof.
  assert (Hnum : forall (l : InferenceInOutSequence) i,
             map entry_tag (tagged 0 (Z.of_nat i) l)
             = map (fun i => (0, Z.of_nat i)) (List.seq i (length l))).
  { induction l as [| d l IHl]; intros i; [reflexivity |].
    unfold tagged in *. cbn [numbered map length List.seq].
    f_equal.
    replace (Z.of_nat i + 1) with (Z.of_nat (S i)) by lia. apply IHl. }
  induction steps as [| steps IH]; intros k0; [reflexivity |].
  cbn [schedule repeat concat]. rewrite map_app, IH. f_equal.
  unfold step_entries. change (Z.of_nat (length [seq])) with 1.
  rewrite Z.mod_1_r. exact (Hnum seq 0%nat).
Qed.

Lemma step_entries_single k0 : step_entries [seq] k0 = tagged 0 0 seq.
Proof.
  unfold step_entries. change (Z.of_nat (length [seq])) with 1.
  rewrite Z.mod_1_r. reflexivity.
Qed.

Lemma benchmark_loop_runs timeout : forall steps k0 total rs w,
  Inv w ->
  (forall k, (1 <= k < steps)%nat ->
     F32.gt (clock_total gettimeofday total (clock_reads w)
                         (k * length seq)) timeout = false) ->
  exists new w',
    loop [seq] timeout flags steps k0 total rs w
    = Done ((true, rs ++ new), w') /\
    map tag new = map entry_tag (schedule [seq] k0 steps).
Proof.
  induction steps as [| steps IH]; intros k0 total rs w Hw Htime.
  - exists [], w. simpl. rewrite app_nil_r. split; reflexivity.
  - cbn [benchmark_loop schedule]. rewrite step_entries_single.
    change (Z.of_nat (length [seq])) with 1. rewrite Z.mod_1_r.
    change (nth (Z.to_nat 0) [seq] []) with seq.
    unfold bind at 1.
    destruct (resetStates_done w) as (b0 & w0 & E0). rewrite E0.
    assert (Hc0 : clock_reads w0 = clock_reads w).
    { revert E0. unfold resetStates, bind, get_interpreter, put_interpreter,
        android_log_print, ret.
      destruct (ResetVariableTensorsToZero _) as [[] ?];
        intros [= _ <-]; reflexivity. }
    pose proof (reset_keeps w b0 w0 Hw E0) as Hw0.
    destruct (benchmark_sequence_runs 0 seq 0 total rs w0 (incl_refl seq) Hw0)
      as (new1 & w1 & E1 & Hw1 & Hc1 & Htags1).
    unfold bind at 1. rewrite E1. rewrite Hc0.
    destruct steps as [| steps].
    + exists new1, w1.
      destruct (F32.gt _ timeout); cbn [benchmark_loop schedule];
        rewrite app_nil_r; split; (reflexivity || exact Htags1).
    + assert (Hnot : F32.gt (clock_total gettimeofday total (clock_reads w)
                                         (length seq)) timeout = false).
      { specialize (Htime 1%nat ltac:(lia)).
        rewrite Nat.mul_1_l in Htime. exact Htime. }
      destruct (IH (k0 + 1)
                   (clock_total gettimeofday total (clock_reads w) (length seq))
                   (rs ++ new1) w1 Hw1) as (new2 & w2 & E2 & Htags2).
      { intros k Hk. rewrite Hc1, Hc0, <- clock_total_add.
        replace (length seq + k * length seq)%nat
          with (S k * length seq)%nat by lia.
        apply Htime. lia. }
      exists (new1 ++ new2), w2. rewrite Hnot, E2, <- app_assoc.
      split; [reflexivity |].
      rewrite !map_app, Htags1, Htags2. reflexivity.
Qed.

End NoFailure.

(** *** The two ways of providing the input *)

Lemma setInput_unsupported dataPtr n w :
  type (input0 (mTfliteInterpreter w)) <> kTfLiteFloat32 ->
  type (input0 (mTfliteInterpreter w)) <> kTfLiteUInt8 ->
  setInput dataPtr n w
  = Done (false,
          logged w (mkLog ANDROID_LOG_ERROR
                          "Input tensor type not supported" [])).
Proof.
  intros Hf Hu. unfold setInput, bind, get_interpreter.
  destruct (type (input0 (mTfliteInterpreter w))); try congruence;
    reflexivity.
Qed.

Lemma provide_input_raw data dataPtr w b w1 :
  input data = Some dataPtr ->
  setInput dataPtr (input_size data) w = Done (b, w1) ->
  provide_input data w = Done (true, w1).
Proof.
  intros Hin Hset. unfold provide_input, bind. rewrite Hin, Hset.
  reflexivity.
Qed.

Lemma benchmark_entry_raw flags s i data total rs w a dataPtr b w1 :
  ATrace_beginSection kTraceFunc = Some a ->
  input data = Some dataPtr ->
  setInput dataPtr (input_size data)
    (traced_call
       (traced_call w
          (TraceCall a (Some "[NN_LA_PE]BenchmarkModel::benchmark"%string)))
       (TraceCall a (Some "[NN_LA_PIO]BenchmarkModel::input"%string)))
  = Done (b, w1) ->
  entry flags s i data total rs w
  = timed_inference gettimeofday kTraceFunc FLAG_IGNORE_GOLDEN_OUTPUT
      FLAG_DISCARD_INFERENCE_OUTPUT flags s i data total rs w1.
Proof.
  intros Ha Hin Hset. unfold benchmark_entry, bind, call_trace.
  rewrite Ha.
  unfold traced_call in Hset.
  cbn [mTfliteInterpreter clock_reads logcat systrace] in Hset.
  erewrite provide_input_raw; [reflexivity | exact Hin | exact Hset].
Qed.

Lemma provide_input_fill_fails data w :
  input data = None ->
  fst (createInput data (raw (input0 (mTfliteInterpreter w)))
                   (bytes (input0 (mTfliteInterpreter w)))) = false ->
  exists w', provide_input data w = Done (false, w').
Proof.
  intros Hin Hfill. unfold provide_input. rewrite Hin.
  unfold bind, get_interpreter.
  destruct (createInput data _ _) as [ok raw']. simpl in Hfill. subst ok.
  unfold put_interpreter, ret. eexists. reflexivity.
Qed.

Lemma benchmark_entry_fill_fails flags s i data total rs w a :
  ATrace_beginSection kTraceFunc = Some a ->
  input data = None ->
  fst (createInput data (raw (input0 (mTfliteInterpreter w)))
                   (bytes (input0 (mTfliteInterpreter w)))) = false ->
  exists w', entry flags s i data total rs w = Done ((None, rs), w').
Proof.
  intros Ha Hin Hfill.
  unfold benchmark_entry, bind, call_trace. rewrite Ha.
  match goal with
  | |- context [provide_input data ?w2] =>
      destruct (provide_input_fill_fails data w2 Hin Hfill) as (w3 & ->)
  end.
  cbn [negb]. unfold android_log_print, ret. eexists. reflexivity.
Qed.

Lemma benchmark_fill_fails data seq rest maxCount timeout flags rs w a :
  1 <= maxCount ->
  ATrace_beginSection kTraceFunc = Some a ->
  input data = None ->
  (let interp := snd (ResetVariableTensorsToZero (mTfliteInterpreter w)) in
   fst (createInput data (raw (input0 interp)) (bytes (input0 interp)))
   = false) ->
  exists w',
    bench ((data :: seq) :: rest) maxCount timeout flags rs w
    = Done ((false, rs), w').
Proof.
  intros Hn Ha Hin Hfill. unfold benchmark.
  destruct (Z.to_nat maxCount) as [| steps] eqn:En; [lia |].
  cbn [benchmark_loop]. unfold bind at 1.
  destruct (resetStates w) as [[b0 w0] | |] eqn:E0;
    try (destruct (resetStates_done w) as (? & ? & E); congruence).
  assert (Hi : mTfliteInterpreter w0
               = snd (ResetVariableTensorsToZero (mTfliteInterpreter w))).
  { revert E0. unfold resetStates, bind, get_interpreter, put_interpreter,
      android_log_print, ret.
    destruct (ResetVariableTensorsToZero _) as [[] ?];
      intros [= _ <-]; reflexivity. }
  rewrite Z.mod_0_l by (cbn [length]; lia).
  cbn [Z.to_nat nth benchmark_sequence]. unfold bind at 1. unfold bind at 1.
  destruct (benchmark_entry_fill_fails flags 0 0 data F32.zero rs w0 a Ha Hin)
    as (w' & ->); [rewrite Hi; exact Hfill |].
  exists w'. reflexivity.
Qed.

(** *** When an entry runs to its end *)

Lemma setInput_copies dataPtr n w raw' :
  type (input0 (mTfliteInterpreter w)) = kTfLiteFloat32 \/
  type (input0 (mTfliteInterpreter w)) = kTfLiteUInt8 ->
  memcpy (raw (input0 (mTfliteInterpreter w))) dataPtr n = Some raw' ->
  exists w',
    setInput dataPtr n w = Done (true, w') /\
    mTfliteInterpreter w' = store_input0 raw' (mTfliteInterpreter w).
Proof.
  intros Hty Hcpy. unfold setInput, bind, get_interpreter.
  destruct Hty as [-> | ->]; rewrite Hcpy;
    unfold put_interpreter, ret; eexists; split; reflexivity.
Qed.

(** The body of the inner loop runs to its end when the trace functions
    are resolved, the input is provided and leaves the interpreter
    [interp1], the invocation on [interp1] succeeds and leaves
    [interp2], and [getOutputError], when it is called, returns on the
    output tensor of [interp2]. *)
Lemma benchmark_entry_runs flags s i data total rs w a e interp1 interp2 :
  ATrace_beginSection kTraceFunc = Some a ->
  ATrace_endSection kTraceFunc = Some e ->
  (forall w2, mTfliteInterpreter w2 = mTfliteInterpreter w ->
     exists w3, provide_input data w2 = Done (true, w3) /\
                mTfliteInterpreter w3 = interp1) ->
  Invoke interp1 = (kTfLiteOk, interp2) ->
  (Z.land flags FLAG_IGNORE_GOLDEN_OUTPUT = 0 ->
   forall r0, exists r1,
     getOutputError (output0 interp2) (output data) (output_size data) r0
     = Done r1) ->
  exists total' r w',
    entry flags s i data total rs w = Done ((Some total', rs ++ [r]), w') /\
    mTfliteInterpreter w' = interp2.
Proof.
  intros Ha He Hin Hinv Herr.
  unfold benchmark_entry, bind, call_trace. rewrite Ha.
  match goal with
  | |- context [provide_input data ?w2] =>
      destruct (Hin w2 eq_refl) as (w3 & -> & Hw3)
  end.
  cbn [negb]. unfold timed_inference, bind, call_trace. rewrite He.
  unfold currentTimeInUsec, runInference, bind, get_interpreter,
    put_interpreter, ret.
  cbn [mTfliteInterpreter clock_reads logcat systrace].
  rewrite Hw3, Hinv. cbn [negb mTfliteInterpreter].
  destruct (Z.land flags FLAG_IGNORE_GOLDEN_OUTPUT =? 0) eqn:Eign.
  - apply Z.eqb_eq in Eign. unfold lift.
    destruct (getOutputError _ _ _ _) as [r1 | m |] eqn:Eerr;
      try (exfalso;
           match type of Eerr with
           | getOutputError _ _ _ ?r0 = _ =>
               destruct (Herr Eign r0) as (r1' & Hr1);
               discriminate (eq_trans (eq_sym Hr1) Eerr)
           end).
    destruct (Z.land flags FLAG_DISCARD_INFERENCE_OUTPUT =? 0);
      do 3 eexists; split; reflexivity.
  - destruct (Z.land flags FLAG_DISCARD_INFERENCE_OUTPUT =? 0);
      do 3 eexists; split; reflexivity.
Qed.

(** *** Runs that skip the error metric never end in [FATAL] *)

Lemma call_trace_not_fatal f name (w : World Interpreter) msg :
  call_trace f name w <> Fatal msg.
Proof. unfold call_trace. destruct f; discriminate. Qed.

Lemma setInput_not_fatal dataPtr n (w : World Interpreter) msg :
  setInput dataPtr n w <> Fatal msg.
Proof.
  unfold setInput, bind, get_interpreter, put_interpreter,
    android_log_print, ret.
  destruct (type (input0 (mTfliteInterpreter w))); try discriminate;
    destruct (memcpy _ _ _); discriminate.
Qed.

Lemma provide_input_not_fatal data (w : World Interpreter) msg :
  provide_input data w <> Fatal msg.
Proof.
  unfold provide_input, bind, get_interpreter, put_interpreter, ret.
  destruct (input data) as [dataPtr |].
  - destruct (setInput dataPtr (input_size data) w) as [[b1 w1] | m |] eqn:E;
      try discriminate.
    exfalso. eapply setInput_not_fatal. exact E.
  - destruct (createInput data _ _) as [ok raw']. discriminate.
Qed.

Lemma runInference_not_fatal (w : World Interpreter) msg :
  runInference w <> Fatal msg.
Proof.
  unfold runInference, bind, get_interpreter, put_interpreter,
    android_log_print, ret.
  destruct (Invoke (mTfliteInterpreter w)) as [[] interp']; discriminate.
Qed.

Ltac not_fatal E :=
  first [ discriminate
        | exfalso; eapply call_trace_not_fatal; exact E
        | exfalso; eapply provide_input_not_fatal; exact E
        | exfalso; eapply runInference_not_fatal; exact E ].

Lemma benchmark_entry_not_fatal flags s i data total rs w msg :
  Z.land flags FLAG_IGNORE_GOLDEN_OUTPUT <> 0 ->
  entry flags s i data total rs w <> Fatal msg.
Proof.
  intros Hign. apply Z.eqb_neq in Hign.
  unfold benchmark_entry, bind.
  destruct (call_trace (ATrace_beginSection kTraceFunc) _ w)
    as [[[] w1] | |] eqn:E1; try not_fatal E1.
  destruct (call_trace (ATrace_beginSection kTraceFunc) _ w1)
    as [[[] w2] | |] eqn:E2; try not_fatal E2.
  destruct (provide_input data w2) as [[created w3] | |] eqn:E3;
    try not_fatal E3.
  destruct created; cbn [negb];
    [| unfold android_log_print, ret; discriminate].
  unfold timed_inference, bind.
  destruct (call_trace (ATrace_endSection kTraceFunc) None w3)
    as [[[] w4] | |] eqn:E4; try not_fatal E4.
  unfold currentTimeInUsec at 1.
  destruct (runInference _) as [[success w5] | |] eqn:E5; try not_fatal E5.
  destruct (call_trace (ATrace_endSection kTraceFunc) None w5)
    as [[[] w6] | |] eqn:E6; try not_fatal E6.
  unfold currentTimeInUsec at 1.
  destruct success; cbn [negb];
    [| unfold android_log_print, ret; discriminate].
  rewrite Hign. unfold get_interpreter, ret.
  destruct (Z.land flags FLAG_DISCARD_INFERENCE_OUTPUT =? 0); discriminate.
Qed.

Lemma benchmark_sequence_not_fatal flags s seq msg :
  Z.land flags FLAG_IGNORE_GOLDEN_OUTPUT <> 0 ->
  forall i total rs w, sequence flags s i seq total rs w <> Fatal msg.
Proof.
  intros Hign. induction seq as [| data seq IH]; intros i total rs w.
  - discriminate.
  - cbn [benchmark_sequence]. unfold bind at 1.
    destruct (entry flags s i data total rs w) as [[[[t1 |] rs1] w1] | m |] eqn:E1.
    + apply IH.
    + discriminate.
    + exfalso. eapply benchmark_entry_not_fatal; eassumption.
    + discriminate.
Qed.

Lemma benchmark_loop_not_fatal inOutData timeout flags msg :
  Z.land flags FLAG_IGNORE_GOLDEN_OUTPUT <> 0 ->
  forall steps k0 total rs w,
    loop inOutData timeout flags steps k0 total rs w <> Fatal msg.
Proof.
  intros Hign. induction steps as [| steps IH]; intros k0 total rs w.
  - discriminate.
  - cbn [benchmark_loop]. unfold bind at 1.
    destruct (resetStates_done w) as (b0 & w0 & ->).
    unfold bind at 1.
    destruct (sequence flags _ 0 _ total rs w0)
      as [[[[t1 |] rs1] w1] | m |] eqn:E1.
    + destruct (F32.gt t1 timeout); [discriminate | apply IH].
    + discriminate.
    + exfalso. eapply benchmark_sequence_not_fatal; eassumption.
    + discriminate.
Qed.

End BenchmarkLoop.

(* ================================================================== *)
(** ** The run as a chain of states *)

Section RunMoments.

Context {Interpreter : Type} `{TfLite Interpreter}.
Variable gettimeofday : nat -> Z.
Variable kTraceFunc : TraceFunc.
Variable FLAG_IGNORE_GOLDEN_OUTPUT : Z.
Variable FLAG_DISCARD_INFERENCE_OUTPUT : Z.

Local Notation "'loop'" :=
  (benchmark_loop gettimeofday kTraceFunc FLAG_IGNORE_GOLDEN_OUTPUT
                  FLAG_DISCARD_INFERENCE_OUTPUT).
Local Notation "'sequence'" :=
  (benchmark_sequence gettimeofday kTraceFunc FLAG_IGNORE_GOLDEN_OUTPUT
                      FLAG_DISCARD_INFERENCE_OUTPUT).
Local Notation "'body'" :=
  (benchmark_entry gettimeofday kTraceFunc FLAG_IGNORE_GOLDEN_OUTPUT
                   FLAG_DISCARD_INFERENCE_OUTPUT).
Local Notation "'resultFrom'" :=
  (result_from FLAG_IGNORE_GOLDEN_OUTPUT FLAG_DISCARD_INFERENCE_OUTPUT).

Lemma setInput_state dataPtr n (w w' : World Interpreter) b :
  setInput dataPtr n w = Done (b, w') ->
  mTfliteInterpreter w' = input_set dataPtr n (mTfliteInterpreter w) /\
  systrace w' = systrace w.
Proof.
  unfold setInput, input_set, bind, get_interpreter, put_interpreter,
    android_log_print, ret.
  destruct (type (input0 (mTfliteInterpreter w)));
    try (intros [= _ <-]; split; reflexivity);
    destruct (memcpy _ _ _); try discriminate;
    intros [= _ <-]; split; reflexivity.
Qed.

Lemma provide_input_state data (w w' : World Interpreter) created :
  provide_input data w = Done (created, w') ->
  mTfliteInterpreter w' = input_provided data (mTfliteInterpreter w) /\
  created = negb (fill_fails data (mTfliteInterpreter w)) /\
  systrace w' = systrace w.
Proof.
  unfold provide_input, input_provided, fill_fails, bind, get_interpreter,
    put_interpreter, ret.
  destruct (input data) as [dataPtr |].
  - destruct (setInput dataPtr (input_size data) w) as [[b1 w1] | |] eqn:E;
      try discriminate.
    intros [= <- <-]. apply setInput_state in E. destruct E as [Hi Ht].
    auto.
  - destruct (createInput data _ _) as [ok raw'].
    intros [= <- <-]. simpl. rewrite Bool.negb_involutive. auto.
Qed.

Lemma runInference_state (w w' : World Interpreter) success :
  runInference w = Done (success, w') ->
  Invoke (mTfliteInterpreter w)
  = (if success then kTfLiteOk else kTfLiteError, mTfliteInterpreter w') /\
  systrace w' = systrace w.
Proof.
  unfold runInference, bind, get_interpreter, put_interpreter,
    android_log_print, ret.
  destruct (Invoke (mTfliteInterpreter w)) as [[] interp'];
    intros [= <- <-]; split; reflexivity.
Qed.

Lemma resetStates_state (w w' : World Interpreter) b :
  resetStates w = Done (b, w') ->
  mTfliteInterpreter w' = reset_state (mTfliteInterpreter w) /\
  systrace w' = systrace w.
Proof.
  unfold resetStates, reset_state, bind, get_interpreter, put_interpreter,
    android_log_print, ret.
  destruct (ResetVariableTensorsToZero _) as [[] ?];
    intros [= _ <-]; split; reflexivity.
Qed.

(** What a run of the loop body tells about the state it started in
    and the state it leaves. *)
Lemma benchmark_entry_moment flags s i data total rs w o rs' w' :
  body flags s i data total rs w = Done ((o, rs'), w') ->
  exists a,
    ATrace_beginSection kTraceFunc = Some a /\
    match o with
    | Some total' =>
        fill_fails data (mTfliteInterpreter w) = false /\
        invocation_fails data (mTfliteInterpreter w) = false /\
        mTfliteInterpreter w' = inferred data (mTfliteInterpreter w) /\
        (exists e, ATrace_endSection kTraceFunc = Some e /\
                   systrace w' = systrace w ++ spans_closed a e) /\
        exists r,
          rs' = rs ++ [r] /\
          total' = F32.add total (computeTimeSec r) /\
          resultFrom flags (s, i, data) (output0 (mTfliteInterpreter w')) r
    | None =>
        rs' = rs /\
        if fill_fails data (mTfliteInterpreter w)
        then systrace w' = systrace w ++ spans_opened a
        else invocation_fails data (mTfliteInterpreter w) = true /\
             exists e, ATrace_endSection kTraceFunc = Some e /\
                       systrace w' = systrace w ++ spans_closed a e
    end.
Proof.
  unfold benchmark_entry, bind, call_trace.
  destruct (ATrace_beginSection kTraceFunc) as [a |]; [| discriminate].
  destruct (provide_input data _) as [[created w3] | |] eqn:E3;
    try discriminate.
  apply provide_input_state in E3.
  cbn [mTfliteInterpreter systrace] in E3. destruct E3 as (Hi3 & Hc & Ht3).
  intros Hrun. exists a. split; [reflexivity |].
  destruct (fill_fails data (mTfliteInterpreter w)) eqn:Efill;
    cbn [negb] in Hc; subst created; cbn [negb] in Hrun.
  - revert Hrun. unfold android_log_print, ret. intros [= <- <- <-].
    split; [reflexivity |]. cbn [systrace]. rewrite Ht3.
    unfold spans_opened. rewrite <- app_assoc. reflexivity.
  - revert Hrun. unfold timed_inference, bind, call_trace.
    destruct (ATrace_endSection kTraceFunc) as [e |]; [| discriminate].
    unfold currentTimeInUsec at 1.
    destruct (runInference _) as [[success w5] | |] eqn:E5; try discriminate.
    apply runInference_state in E5.
    cbn [mTfliteInterpreter systrace] in E5. destruct E5 as [Hinv Ht5].
    rewrite Hi3 in Hinv.
    unfold currentTimeInUsec at 1.
    assert (Htrace : systrace w5 ++ [TraceCall e None]
                     = systrace w ++ spans_closed a e).
    { rewrite Ht5, Ht3. unfold spans_closed, spans_opened.
      rewrite <- !app_assoc. reflexivity. }
    destruct success; cbn [negb].
    + assert (Hok : invocation_fails data (mTfliteInterpreter w) = false)
        by (unfold invocation_fails; rewrite Hinv; reflexivity).
      assert (Hst : mTfliteInterpreter w5
                    = inferred data (mTfliteInterpreter w))
        by (unfold inferred; rewrite Hinv; reflexivity).
      unfold get_interpreter, lift, ret, result_from.
      destruct (Z.land flags FLAG_IGNORE_GOLDEN_OUTPUT =? 0) eqn:Eign;
        destruct (Z.land flags FLAG_DISCARD_INFERENCE_OUTPUT =? 0) eqn:Edis.
      all: try (destruct (getOutputError _ _ _ _) as [r1 | |] eqn:Eerr;
                try discriminate;
                pose proof (getOutputError_max _ _ _ _ _ Eerr)
                  as (_ & _ & _ & Htime & _);
                cbn [computeTimeSec] in Htime).
      all: intros [= <- <- <-]; cbn [mTfliteInterpreter systrace].
      all: split; [reflexivity |]; split; [exact Hok |];
        split; [exact Hst |];
        split; [exists e; split; [reflexivity | exact Htrace] |].
      all: eexists; split; [reflexivity |].
      all: cbn [computeTimeSec saveInferenceOutput]; rewrite ?Htime.
      all: split; [reflexivity |].
      all: do 2 eexists; cbn [fst snd]; rewrite ?Eign, ?Edis.
      all: split; [try eassumption; reflexivity | reflexivity].
    + unfold android_log_print, ret. intros [= <- <- <-].
      split; [reflexivity |]. cbn [systrace].
      split; [unfold invocation_fails; rewrite Hinv; reflexivity |].
      exists e. split; [reflexivity | exact Htrace].
Qed.

Lemma moments_entries (es : list (Z * Z * InferenceInOut)) :
  forall interp : Interpreter, map (@moment_entry _) (moments es interp) = es.
Proof.
  induction es as [| e es IH]; intros interp; [reflexivity |].
  simpl. rewrite IH. reflexivity.
Qed.

Lemma timeline_entries (inOutData : list InferenceInOutSequence) steps :
  forall k0 (interp : Interpreter),
    map (@moment_entry _) (timeline inOutData k0 steps interp)
    = schedule inOutData k0 steps.
Proof.
  induction steps as [| steps IH]; intros k0 interp; [reflexivity |].
  cbn [timeline schedule]. rewrite map_app, moments_entries, IH. reflexivity.
Qed.

(** What a run of the inner loop leaves: the entries that ran to
    their end, each with its result computed from the output tensor that
    its own invocation left, and the entry that failed when there is
    one. *)
Lemma benchmark_sequence_moments flags s seq :
  forall i total rs w o rs' w',
    sequence flags s i seq total rs w = Done ((o, rs'), w') ->
    exists new done rest,
      rs' = rs ++ new /\
      moments (tagged s i seq) (mTfliteInterpreter w) = done ++ rest /\
      Forall2 (fun m r => resultFrom flags (moment_entry m)
                                     (output0 (after m)) r) done new /\
      Forall (fun m => fails m = false) done /\
      (forall a e,
          ATrace_beginSection kTraceFunc = Some a ->
          ATrace_endSection kTraceFunc = Some e ->
          systrace w'
          = systrace w ++ concat (repeat (spans_closed a e) (length new))
            ++ match o, rest with
               | None, m :: _ => failure_trace a e m
               | _, _ => []
               end) /\
      match o with
      | Some _ =>
          rest = [] /\
          mTfliteInterpreter w' = state_after done (mTfliteInterpreter w)
      | None => exists m rest', rest = m :: rest' /\ fails m = true
      end.
Proof.
  induction seq as [| data seq IH]; intros i total rs w o rs' w'.
  - simpl. unfold ret. intros [= <- <- <-].
    exists [], [], []. rewrite app_nil_r.
    split; [reflexivity |]. split; [reflexivity |].
    split; [constructor |]. split; [constructor |].
    split; [intros a e _ _; simpl; rewrite app_nil_r; reflexivity |].
    split; reflexivity.
  - cbn [benchmark_sequence]. unfold bind at 1.
    destruct (body flags s i data total rs w)
      as [[[[total1 |] rs1] w1] | |] eqn:E1; try discriminate;
      apply benchmark_entry_moment in E1; destruct E1 as (a0 & Ha0 & E1).
    + destruct E1 as (Hfill & Hinv & Hst & (e0 & He0 & Ht1) & r & -> & -> & Hr).
      intros Hrest. apply IH in Hrest.
      destruct Hrest as (new & done & rest & -> & Hms & Hall & Hok & Htr & Ho).
      exists (r :: new),
        (mkMoment (s, i, data) (mTfliteInterpreter w)
                  (inferred data (mTfliteInterpreter w)) :: done), rest.
      rewrite <- app_assoc. split; [reflexivity |].
      split.
      { unfold tagged in *. cbn [numbered map moments snd].
        rewrite <- Hst, Hms. reflexivity. }
      split.
      { constructor; [| exact Hall]. cbn [moment_entry after].
        rewrite <- Hst. exact Hr. }
      split.
      { constructor; [| exact Hok]. unfold fails.
        cbn [moment_entry before snd]. rewrite Hfill, Hinv. reflexivity. }
      split.
      { intros a e Ha He. rewrite Ha0 in Ha. rewrite He0 in He.
        injection Ha as <-. injection He as <-.
        rewrite (Htr a0 e0 Ha0 He0), Ht1. cbn [length repeat concat].
        rewrite <- !app_assoc. reflexivity. }
      destruct o as [total' |]; [| exact Ho].
      destruct Ho as [-> Hst']. split; [reflexivity |].
      rewrite Hst', Hst. reflexivity.
    + destruct E1 as [-> E1]. unfold ret. intros [= <- <- <-].
      exists [], [],
        (moments (tagged s i (data :: seq)) (mTfliteInterpreter w)).
      rewrite app_nil_r.
      split; [reflexivity |]. split; [reflexivity |].
      split; [constructor |]. split; [constructor |].
      unfold tagged. cbn [numbered map moments snd].
      split.
      { intros a e Ha He. rewrite Ha0 in Ha. injection Ha as <-.
        cbn [length repeat concat app]. unfold failure_trace.
        cbn [moment_entry before snd].
        destruct (fill_fails data (mTfliteInterpreter w)); [exact E1 |].
        destruct E1 as (_ & e0 & He0 & Ht). rewrite He0 in He.
        injection He as <-. exact Ht. }
      do 2 eexists. split; [reflexivity |].
      unfold fails. cbn [moment_entry before snd].
      destruct (fill_fails data (mTfliteInterpreter w)); [reflexivity |].
      destruct E1 as [-> _]. reflexivity.
Qed.

Lemma Forall2_app_both {A B : Type} (P : A -> B -> Prop) l1 l2 l1' l2' :
  Forall2 P l1 l1' -> Forall2 P l2 l2' -> Forall2 P (l1 ++ l2) (l1' ++ l2').
Proof. intros H1 H2. induction H1; simpl; [exact H2 | constructor; auto]. Qed.

(** The same for the outer loop, along the timeline of the run. *)
Lemma benchmark_loop_moments inOutData timeout flags steps :
  forall k0 total rs w b rs' w',
    loop inOutData timeout flags steps k0 total rs w = Done ((b, rs'), w') ->
    exists new done rest,
      rs' = rs ++ new /\
      timeline inOutData k0 steps (mTfliteInterpreter w) = done ++ rest /\
      Forall2 (fun m r => resultFrom flags (moment_entry m)
                                     (output0 (after m)) r) done new /\
      Forall (fun m => fails m = false) done /\
      (forall a e,
          ATrace_beginSection kTraceFunc = Some a ->
          ATrace_endSection kTraceFunc = Some e ->
          systrace w'
          = systrace w ++ concat (repeat (spans_closed a e) (length new))
            ++ (if b then []
                else match rest with
                     | m :: _ => failure_trace a e m
                     | [] => []
                     end)) /\
      (b = false -> exists m rest', rest = m :: rest' /\ fails m = true).
Proof.
  induction steps as [| steps IH]; intros k0 total rs w b rs' w'.
  - simpl. unfold ret. intros [= <- <- <-].
    exists [], [], []. rewrite app_nil_r.
    split; [reflexivity |]. split; [reflexivity |].
    split; [constructor |]. split; [constructor |].
    split; [intros a e _ _; simpl; rewrite app_nil_r; reflexivity |].
    discriminate.
  - cbn [benchmark_loop timeline]. unfold bind at 1.
    destruct (resetStates w) as [[b0 w0] | |] eqn:E0; try discriminate.
    apply resetStates_state in E0. destruct E0 as [Hi0 Ht0].
    unfold bind at 1.
    destruct (sequence flags _ 0 _ total rs w0)
      as [[[[total1 |] rs1] w1] | |] eqn:E1; try discriminate;
      apply benchmark_sequence_moments in E1;
      destruct E1 as (new1 & done1 & rest1 & -> & Hms1 & Hall1 & Hok1 & Htr1
                      & Ho1);
      change (moments (step_entries inOutData k0) (mTfliteInterpreter w0)
              = done1 ++ rest1) in Hms1;
      rewrite Hi0 in Hms1; rewrite Ht0 in Htr1.
    + destruct Ho1 as [-> Hst1]. rewrite app_nil_r in Hms1.
      rewrite Hi0, <- Hms1 in Hst1.
      destruct (F32.gt total1 timeout).
      * unfold ret. intros [= <- <- <-].
        exists new1, done1,
          (timeline inOutData (k0 + 1) steps
             (state_after (moments (step_entries inOutData k0)
                                   (reset_state (mTfliteInterpreter w)))
                          (reset_state (mTfliteInterpreter w)))).
        split; [reflexivity |]. rewrite Hms1.
        split; [reflexivity |]. split; [exact Hall1 |].
        split; [exact Hok1 |].
        split; [intros a e Ha He; apply (Htr1 a e Ha He) | discriminate].
      * intros Hrest. apply IH in Hrest.
        destruct Hrest as (new2 & done2 & rest2 & -> & Hms2 & Hall2 & Hok2
                           & Htr2 & Hb).
        exists (new1 ++ new2), (done1 ++ done2), rest2.
        rewrite <- !app_assoc. split; [reflexivity |].
        split; [rewrite <- Hst1, Hms2, Hms1; reflexivity |].
        split; [apply Forall2_app_both; assumption |].
        split; [apply Forall_app; split; assumption |].
        split; [| exact Hb].
        intros a e Ha He.
        rewrite (Htr2 a e Ha He), (Htr1 a e Ha He), length_app, repeat_app,
          concat_app.
        rewrite <- !app_assoc. reflexivity.
    + unfold ret. intros [= <- <- <-].
      destruct Ho1 as (m & rest' & -> & Hfail).
      exists new1, done1,
        ((m :: rest')
         ++ timeline inOutData (k0 + 1) steps
              (state_after (moments (step_entries inOutData k0)
                                    (reset_state (mTfliteInterpreter w)))
                           (reset_state (mTfliteInterpreter w)))).
      split; [reflexivity |].
      split; [rewrite Hms1, <- app_assoc; reflexivity |].
      split; [exact Hall1 |]. split; [exact Hok1 |].
      split; [intros a e Ha He; apply (Htr1 a e Ha He) |].
      intros _. do 2 eexists. split; [reflexivity | exact Hfail].
Qed.

Local Notation "'bench'" :=
  (benchmark gettimeofday kTraceFunc FLAG_IGNORE_GOLDEN_OUTPUT
             FLAG_DISCARD_INFERENCE_OUTPUT).

(** The run of [benchmark] on a non-empty collection along its
    timeline. *)
Lemma benchmark_moments (inOutData : list InferenceInOutSequence)
    maxCount timeout flags rs w b rs' w' :
  bench inOutData maxCount timeout flags rs w = Done ((b, rs'), w') ->
  exists new done rest,
    rs' = rs ++ new /\
    timeline inOutData 0 (Z.to_nat maxCount) (mTfliteInterpreter w)
    = done ++ rest /\
    schedule inOutData 0 (Z.to_nat maxCount)
    = map (@moment_entry _) done ++ map (@moment_entry _) rest /\
    length new = length done /\
    Forall2 (fun m r => resultFrom flags (moment_entry m)
                                   (output0 (after m)) r) done new /\
    Forall (fun m => fails m = false) done /\
    (forall a e,
        ATrace_beginSection kTraceFunc = Some a ->
        ATrace_endSection kTraceFunc = Some e ->
        systrace w'
        = systrace w ++ concat (repeat (spans_closed a e) (length new))
          ++ (if b then []
              else match rest with
                   | m :: _ => failure_trace a e m
                   | [] => []
                   end)) /\
    (b = false -> exists m rest', rest = m :: rest' /\ fails m = true).
Proof.
  unfold benchmark. destruct inOutData as [| seq0 l]; [discriminate |].
  intros Hrun. apply benchmark_loop_moments in Hrun.
  destruct Hrun as (new & done & rest & Hrs & Htl & Hall & Hok & Htr & Hb).
  exists new, done, rest.
  split; [exact Hrs |]. split; [exact Htl |].
  split; [rewrite <- map_app, <- Htl; symmetry; apply timeline_entries |].
  split; [symmetry; exact (Forall2_length Hall) |].
  auto.
Qed.

Lemma result_from_tag flags e t r :
  resultFrom flags e t r -> tag r = entry_tag e.
Proof.
  destruct e as [[s i] data]. intros (time & r1 & H1 & ->).
  assert (Ht : tag r1 = (s, i)).
  { cbn [fst snd] in H1.
    destruct (Z.land flags FLAG_IGNORE_GOLDEN_OUTPUT =? 0).
    - apply getOutputError_max in H1.
      destruct H1 as (_ & _ & _ & _ & _ & Hs & Hi).
      unfold tag. rewrite Hs, Hi. reflexivity.
    - subst r1. reflexivity. }
  destruct (Z.land flags FLAG_DISCARD_INFERENCE_OUTPUT =? 0); exact Ht.
Qed.

(** With the output discarded, the record is the one [getOutputError]
    returns for the output tensor. *)
Lemma result_from_discarded flags e t r :
  Z.land flags FLAG_DISCARD_INFERENCE_OUTPUT <> 0 ->
  resultFrom flags e t r ->
  inferenceOutput r = [] /\
  (Z.land flags FLAG_IGNORE_GOLDEN_OUTPUT = 0 ->
   getOutputError t (output (snd e)) (output_size (snd e))
     (mkResult (computeTimeSec r) F32.zero F32.zero []
               (fst (fst e)) (snd (fst e))) = Done r).
Proof.
  intros Hd (time & r1 & H1 & Hr).
  apply Z.eqb_neq in Hd. rewrite Hd in Hr. subst r1.
  destruct (Z.land flags FLAG_IGNORE_GOLDEN_OUTPUT =? 0) eqn:Eign.
  - pose proof (getOutputError_max _ _ _ _ _ H1)
      as (_ & _ & _ & Ht & Hout & _).
    cbn [computeTimeSec inferenceOutput] in Ht, Hout.
    split; [exact Hout |]. intros _. rewrite Ht. exact H1.
  - subst r. split; [reflexivity |].
    intros Hign. apply Z.eqb_neq in Eign. contradiction.
Qed.

(** With the output captured, it is the storage of the output tensor,
    and the tensor the error is computed from is that same tensor. *)
Lemma result_from_captured flags e t r :
  Z.land flags FLAG_DISCARD_INFERENCE_OUTPUT = 0 ->
  resultFrom flags e t r ->
  inferenceOutput r = raw t /\
  (Z.land flags FLAG_IGNORE_GOLDEN_OUTPUT = 0 ->
   (type t = kTfLiteUInt8 \/ type t = kTfLiteFloat32) /\
   length (inferenceOutput r) = output_size (snd e) /\
   maxSingleError r
   = max_error_of (map (produced_minus_expected t (output (snd e)))
                       (seq 0 (elements_count t)))).
Proof.
  intros Hdis (time & r1 & H1 & Hr).
  rewrite Hdis in Hr. cbn [Z.eqb] in Hr. subst r.
  destruct (Z.land flags FLAG_IGNORE_GOLDEN_OUTPUT =? 0) eqn:Eign.
  - pose proof (element_errors_indexed _ _ _ _ _ H1) as Hidx.
    apply getOutputError_max in H1.
    destruct H1 as (Hty & Hlen & Hmax & _ & Hout & _).
    cbn [saveInferenceOutput inferenceOutput maxSingleError].
    cbn [inferenceOutput] in Hout. rewrite Hout, Hmax, Hidx.
    split; [reflexivity |]. intros _. auto.
  - subst r1. split; [reflexivity |].
    intros Hign. apply Z.eqb_neq in Eign. contradiction.
Qed.

End RunMoments.

(* ================================================================== *)
(** ** The benchmark protocol *)

Lemma Forall2_right {A B : Type} (P : A -> B -> Prop) (Q : B -> Prop) l1 l2 :
  (forall a b, P a b -> Q b) -> Forall2 P l1 l2 -> Forall Q l2.
Proof. intros HPQ. induction 1; constructor; eauto. Qed.

Lemma Forall2_weaken {A B : Type} (P P' : A -> B -> Prop) l1 l2 :
  (forall a b, P a b -> P' a b) -> Forall2 P l1 l2 -> Forall2 P' l1 l2.
Proof. intros HPP. induction 1; constructor; eauto. Qed.

Lemma length_concat_repeat {A : Type} (l : list A) (n : nat) :
  length (concat (repeat l n)) = (n * length l)%nat.
Proof.
  induction n as [| n IH]; [reflexivity |].
  simpl. rewrite length_app, IH. reflexivity.
Qed.

Section Protocol.

Context {Interpreter : Type} `{TfLite Interpreter}.
Variable gettimeofday : nat -> Z.
Variable kTraceFunc : TraceFunc.
Variable FLAG_IGNORE_GOLDEN_OUTPUT : Z.
Variable FLAG_DISCARD_INFERENCE_OUTPUT : Z.

Local Notation "'bench'" :=
  (benchmark gettimeofday kTraceFunc FLAG_IGNORE_GOLDEN_OUTPUT
             FLAG_DISCARD_INFERENCE_OUTPUT).
Local Notation "'loop'" :=
  (benchmark_loop gettimeofday kTraceFunc FLAG_IGNORE_GOLDEN_OUTPUT
                  FLAG_DISCARD_INFERENCE_OUTPUT).
Local Notation "'sequence'" :=
  (benchmark_sequence gettimeofday kTraceFunc FLAG_IGNORE_GOLDEN_OUTPUT
                      FLAG_DISCARD_INFERENCE_OUTPUT).
Local Notation "'entry'" :=
  (benchmark_entry gettimeofday kTraceFunc FLAG_IGNORE_GOLDEN_OUTPUT
                   FLAG_DISCARD_INFERENCE_OUTPUT).
Local Notation "'resultOf'" :=
  (result_of FLAG_IGNORE_GOLDEN_OUTPUT FLAG_DISCARD_INFERENCE_OUTPUT).
Local Notation "'resultFrom'" :=
  (result_from FLAG_IGNORE_GOLDEN_OUTPUT FLAG_DISCARD_INFERENCE_OUTPUT).

(** The run of [benchmark] on a non-empty collection, as the prefix of
    the schedule it went through. *)
Lemma benchmark_inv (inOutData : list InferenceInOutSequence)
    maxCount timeout flags rs w b rs' w' :
  inOutData <> [] ->
  bench inOutData maxCount timeout flags rs w = Done ((b, rs'), w') ->
  exists new done rest,
    rs' = rs ++ new /\
    schedule inOutData 0 (Z.to_nat maxCount) = done ++ rest /\
    Forall2 (resultOf flags) done new /\
    if b then
      exists k : nat,
        (k <= Z.to_nat maxCount)%nat /\
        done = schedule inOutData 0 k /\
        (k < Z.to_nat maxCount ->
         F32.gt (total_after F32.zero new) timeout = true)%nat /\
        (forall j : nat, (0 < j < k)%nat ->
           F32.gt (total_after F32.zero
                     (firstn (length (schedule inOutData 0 j)) new))
                  timeout = false)
    else exists e rest', rest = e :: rest' /\ entry_fails (snd e).
Proof.
  intros Hne Hrun. rewrite benchmark_nonempty in Hrun by assumption.
  apply benchmark_loop_inv in Hrun.
  destruct Hrun as (new & done & rest & Hrs & Hsched & Hall & Hb).
  exists new, done, rest. repeat (split; [assumption |]).
  destruct b; [| exact Hb].
  destruct Hb as (k & Hk & _ & Hdone & Hlast & Hbefore).
  exists k. auto.
Qed.

(** C3.  The total elapsed time is compared with the timeout only when
    a whole sequence has been run.  When the total then exceeds the
    timeout the outer loop stops at once and [benchmark] returns true
    with the results appended so far.  So a run that returns true has
    gone through [k] whole sequences and no part of another one: either
    all the iterations asked for, or the iterations up to the first one
    after which the total exceeds the timeout. *)
Theorem benchmark_timeout_at_sequence_boundary
    (inOutData : list InferenceInOutSequence) maxCount timeout flags :
  inOutData <> [] ->
  (forall steps k0 total rs w b0 w0 total' rs' w1,
      resetStates w = Done (b0, w0) ->
      sequence flags (k0 mod Z.of_nat (length inOutData)) 0
        (nth (Z.to_nat (k0 mod Z.of_nat (length inOutData))) inOutData [])
        total rs w0 = Done ((Some total', rs'), w1) ->
      F32.gt total' timeout = true ->
      loop inOutData timeout flags (S steps) k0 total rs w
      = Done ((true, rs'), w1)) /\
  (forall rs w rs' w',
      bench inOutData maxCount timeout flags rs w = Done ((true, rs'), w') ->
      exists new (k : nat),
        rs' = rs ++ new /\
        (k <= Z.to_nat maxCount)%nat /\
        Forall2 (resultOf flags) (schedule inOutData 0 k) new /\
        (k < Z.to_nat maxCount ->
         F32.gt (total_after F32.zero new) timeout = true)%nat /\
        (forall j : nat, (0 < j < k)%nat ->
           F32.gt (total_after F32.zero
                     (firstn (length (schedule inOutData 0 j)) new))
                  timeout = false)).
Proof.
  intros Hne. split.
  - intros steps k0 total rs w b0 w0 total' rs' w1 Hreset Hseq Hgt.
    cbn [benchmark_loop]. unfold bind at 1. rewrite Hreset.
    unfold bind at 1. rewrite Hseq, Hgt. reflexivity.
  - intros rs w rs' w' Hrun.
    apply benchmark_inv in Hrun; [| assumption].
    destruct Hrun as (new & done & rest & Hrs & _ & Hall & k & Hk & -> & Hlast & Hbefore).
    exists new, k. auto.
Qed.


(** C5.  Over a single sequence of length [L], with [N >= 1]
    iterations asked for, when every entry runs to its end from every
    state the run goes through and the total never exceeds the timeout
    at the end of an iteration before the last, [benchmark] returns
    true with exactly [N * L] results appended in the order of the
    iterations and, within one, of the entries: every result has the
    sequence index 0 and the index of its entry in the sequence. *)
Theorem benchmark_single_sequence
    (Inv : World Interpreter -> Prop) (seq : InferenceInOutSequence)
    maxCount timeout flags rs w :
  1 <= maxCount ->
  Inv w ->
  (forall w b w', Inv w -> resetStates w = Done (b, w') -> Inv w') ->
  (forall s i data total rs w,
      Inv w -> In data seq ->
      exists total' r w',
        entry flags s i data total rs w = Done ((Some total', rs ++ [r]), w')
        /\ Inv w') ->
  (forall k, (1 <= k < Z.to_nat maxCount)%nat ->
     F32.gt (clock_total gettimeofday F32.zero (clock_reads w)
                         (k * length seq)) timeout = false) ->
  exists new w',
    bench [seq] maxCount timeout flags rs w = Done ((true, rs ++ new), w') /\
    length new = (Z.to_nat maxCount * length seq)%nat /\
    map tag new
    = concat (repeat (map (fun i => (0, Z.of_nat i))
                          (List.seq 0 (length seq)))
                     (Z.to_nat maxCount)).
Proof.
  intros Hn Hw Hreset Hentries Htime.
  destruct (benchmark_loop_runs gettimeofday kTraceFunc
              FLAG_IGNORE_GOLDEN_OUTPUT FLAG_DISCARD_INFERENCE_OUTPUT
              Inv flags seq Hreset Hentries timeout
              (Z.to_nat maxCount) 0 F32.zero rs w Hw Htime)
    as (new & w' & Hrun & Htags).
  exists new, w'. split; [exact Hrun |].
  rewrite schedule_single in Htags.
  split; [| exact Htags].
  rewrite <- (length_map tag new), Htags, length_concat_repeat,
    length_map, length_seq.
  reflexivity.
Qed.

(** C7.  With the flag [FLAG_IGNORE_GOLDEN_OUTPUT] set, [benchmark]
    never calls [getOutputError]: no run ends in its [FATAL], and every
    result appended has a mean square error and a maximal single error
    of zero, whatever the output tensor and the expected data hold. *)
Theorem benchmark_ignore_golden_output
    (inOutData : list InferenceInOutSequence) maxCount timeout flags rs w :
  inOutData <> [] ->
  Z.land flags FLAG_IGNORE_GOLDEN_OUTPUT <> 0 ->
  (forall msg, bench inOutData maxCount timeout flags rs w <> Fatal msg) /\
  (forall b rs' w',
      bench inOutData maxCount timeout flags rs w = Done ((b, rs'), w') ->
      exists new,
        rs' = rs ++ new /\
        Forall (fun r => meanSquareError r = F32.zero /\
                         maxSingleError r = F32.zero) new).
Proof.
  intros Hne Hign. split.
  - intros msg. rewrite benchmark_nonempty by assumption.
    apply benchmark_loop_not_fatal. exact Hign.
  - intros b rs' w' Hrun.
    apply benchmark_inv in Hrun; [| assumption].
    destruct Hrun as (new & done & rest & Hrs & _ & Hall & _).
    exists new. split; [assumption |].
    eapply Forall2_right; [| exact Hall].
    intros e r Hr. eapply result_of_ignored; eassumption.
Qed.

(** C8.  With the flag [FLAG_DISCARD_INFERENCE_OUTPUT] set, the output
    is not captured: every result appended has an empty output.  The
    flag leaves the error metric alone: when
    [FLAG_IGNORE_GOLDEN_OUTPUT] is not set as well, the result appended
    for an entry is the record [getOutputError] returns on the output
    tensor of the interpreter as the invocation of that very entry left
    it in this run, and the expected data of the entry. *)
Theorem benchmark_discard_inference_output
    (inOutData : list InferenceInOutSequence) maxCount timeout flags
    rs w b rs' w' :
  inOutData <> [] ->
  Z.land flags FLAG_DISCARD_INFERENCE_OUTPUT <> 0 ->
  bench inOutData maxCount timeout flags rs w = Done ((b, rs'), w') ->
  exists new done rest,
    rs' = rs ++ new /\
    Forall (fun r => inferenceOutput r = []) new /\
    timeline inOutData 0 (Z.to_nat maxCount) (mTfliteInterpreter w)
    = done ++ rest /\
    schedule inOutData 0 (Z.to_nat maxCount)
    = map (@moment_entry _) done ++ map (@moment_entry _) rest /\
    length new = length done /\
    (Z.land flags FLAG_IGNORE_GOLDEN_OUTPUT = 0 ->
     Forall2 (fun m r =>
                getOutputError (output0 (after m))
                  (output (snd (moment_entry m)))
                  (output_size (snd (moment_entry m)))
                  (mkResult (computeTimeSec r) F32.zero F32.zero []
                            (fst (fst (moment_entry m)))
                            (snd (fst (moment_entry m)))) = Done r)
             done new).
Proof.
  intros Hne Hdis Hrun.
  apply benchmark_moments in Hrun.
  destruct Hrun as (new & done & rest & Hrs & Htl & Hsched & Hlen & Hall & _).
  exists new, done, rest. split; [assumption |].
  split.
  - eapply Forall2_right; [| exact Hall].
    intros m r Hr.
    exact (proj1 (result_from_discarded _ _ _ _ _ _ Hdis Hr)).
  - do 3 (split; [assumption |]). intros Hign.
    eapply Forall2_weaken; [| exact Hall].
    intros m r Hr.
    exact (proj2 (result_from_discarded _ _ _ _ _ _ Hdis Hr) Hign).
Qed.

(** C9.  In the loop body an entry with raw input bytes goes through
    [setInput], whose result is dropped: [setInput] fails on an input
    tensor of an unsupported element type, and the body then goes on
    with the timed inference from the state [setInput] leaves, as it
    does when [setInput] succeeds.  An entry without raw input bytes
    goes through its fill callback, and a failure of the callback makes
    the body, and so [benchmark], return false. *)
Theorem setInput_failure_ignored :
  (forall dataPtr n w,
      type (input0 (mTfliteInterpreter w)) <> kTfLiteFloat32 ->
      type (input0 (mTfliteInterpreter w)) <> kTfLiteUInt8 ->
      setInput dataPtr n w
      = Done (false,
              logged w (mkLog ANDROID_LOG_ERROR
                              "Input tensor type not supported" []))) /\
  (forall flags s i data total rs w a dataPtr b w1,
      ATrace_beginSection kTraceFunc = Some a ->
      input data = Some dataPtr ->
      setInput dataPtr (input_size data)
        (traced_call
           (traced_call w
              (TraceCall a
                 (Some "[NN_LA_PE]BenchmarkModel::benchmark"%string)))
           (TraceCall a (Some "[NN_LA_PIO]BenchmarkModel::input"%string)))
      = Done (b, w1) ->
      entry flags s i data total rs w
      = timed_inference gettimeofday kTraceFunc FLAG_IGNORE_GOLDEN_OUTPUT
          FLAG_DISCARD_INFERENCE_OUTPUT flags s i data total rs w1) /\
  (forall flags s i data total rs w a,
      ATrace_beginSection kTraceFunc = Some a ->
      input data = None ->
      fst (createInput data (raw (input0 (mTfliteInterpreter w)))
                       (bytes (input0 (mTfliteInterpreter w)))) = false ->
      exists w', entry flags s i data total rs w = Done ((None, rs), w')) /\
  (forall data seq rest maxCount timeout flags rs w a,
      1 <= maxCount ->
      ATrace_beginSection kTraceFunc = Some a ->
      input data = None ->
      (let interp := snd (ResetVariableTensorsToZero (mTfliteInterpreter w)) in
       fst (createInput data (raw (input0 interp)) (bytes (input0 interp)))
       = false) ->
      exists w',
        bench ((data :: seq) :: rest) maxCount timeout flags rs w
        = Done ((false, rs), w')).
Proof.
  split; [| split; [| split]].
  - apply setInput_unsupported.
  - apply benchmark_entry_raw.
  - apply benchmark_entry_fill_fails.
  - apply benchmark_fill_fails.
Qed.

(** C10.  When [benchmark] returns false, an invocation or a fill
    callback has failed.  The results appended before are left in the
    vector: it holds the results it held at the call, then one result
    for each entry the run went through before the entry that failed,
    and none for that entry.  The entry that failed is the first one of
    the run whose fill callback or invocation fails from the state the
    run has brought the interpreter to: none of the entries before it
    fails from its own state, so that no shorter vector of results is
    returned. *)
Theorem benchmark_failure_keeps_results
    (inOutData : list InferenceInOutSequence) maxCount timeout flags
    rs w rs' w' :
  inOutData <> [] ->
  bench inOutData maxCount timeout flags rs w = Done ((false, rs'), w') ->
  exists new done m rest,
    rs' = rs ++ new /\
    timeline inOutData 0 (Z.to_nat maxCount) (mTfliteInterpreter w)
    = done ++ m :: rest /\
    schedule inOutData 0 (Z.to_nat maxCount)
    = map (@moment_entry _) done
      ++ moment_entry m :: map (@moment_entry _) rest /\
    length new = length done /\
    map tag new = map (fun m => entry_tag (moment_entry m)) done /\
    Forall2 (fun m r => resultFrom flags (moment_entry m)
                                   (output0 (after m)) r) done new /\
    Forall (fun m => fails m = false) done /\
    fails m = true.
Proof.
  intros Hne Hrun.
  apply benchmark_moments in Hrun.
  destruct Hrun as (new & done & rest & Hrs & Htl & Hsched & Hlen & Hall
                    & Hok & _ & Hb).
  destruct (Hb eq_refl) as (m & rest' & -> & Hfail).
  exists new, done, m, rest'.
  do 4 (split; [assumption |]).
  split; [| auto].
  clear - Hall. induction Hall as [| m0 r done new Hr _ IH]; [reflexivity |].
  cbn [map]. rewrite IH.
  rewrite (result_from_tag _ _ _ _ _ _ Hr). reflexivity.
Qed.

End Protocol.

(* ================================================================== *)
(** ** TraceSpan *)


Import Toy.

(** With the library open and the symbols missing, the first trace call
    of [benchmark] goes through a null pointer. *)
Example benchmark_unresolved_symbols :
  setupTraceFunc (Some (fun _ => None)) = Done (mkTraceFunc None None) /\
  benchmark Toy.clock (mkTraceFunc None None) Toy.IGNORE Toy.DISCARD
            [[Toy.entry "005" "003"]] 1 (S754_infinity false) 0 []
            (Toy.world (Toy.one_byte kTfLiteUInt8))
  = Undefined.
Proof. split; reflexivity. Qed.

(* ================================================================== *)
(** ** Runs of the small engine *)

Lemma benchmark_timeout_at_sequence_boundary_witness :
  exists rs' w',
    Toy.run [[Toy.entry "005" "003"; Toy.entry "001" "004"]] 5 F32.zero 0 []
            (Toy.world (Toy.one_byte kTfLiteUInt8))
    = Done ((true, rs'), w') /\
    length rs' = 2%nat /\
    exists new (k : nat),
      rs' = [] ++ new /\
      (k <= Z.to_nat 5)%nat /\
      Forall2 (result_of Toy.IGNORE Toy.DISCARD 0)
        (schedule [[Toy.entry "005" "003"; Toy.entry "001" "004"]] 0 k) new /\
      (k < Z.to_nat 5 ->
       F32.gt (total_after F32.zero new) F32.zero = true)%nat /\
      (forall j : nat, (0 < j < k)%nat ->
         F32.gt (total_after F32.zero
                   (firstn (length (schedule
                      [[Toy.entry "005" "003"; Toy.entry "001" "004"]] 0 j))
                      new))
                F32.zero = false).
Proof.
  do 2 eexists. split; [vm_compute; reflexivity |].
  split; [reflexivity |].
  refine (proj2 (benchmark_timeout_at_sequence_boundary
                   Toy.clock Toy.traced Toy.IGNORE Toy.DISCARD
                   [[Toy.entry "005" "003"; Toy.entry "001" "004"]]
                   5 F32.zero 0 _)
                [] (Toy.world (Toy.one_byte kTfLiteUInt8)) _ _ _).
  - discriminate.
  - vm_compute. reflexivity.
Defined.

Lemma toy_reset_keeps (w : World Toy.Interp) b w' :
  Toy.ready w -> resetStates w = Done (b, w') -> Toy.ready w'.
Proof.
  unfold resetStates, bind, get_interpreter, put_interpreter, ret. simpl.
  intros Hw [= _ <-]. exact Hw.
Qed.

(** From a state with one-byte [uint8] tensors, an entry of the small
    engine with a raw input byte other than 255 runs to its end. *)
Lemma toy_entry_runs flags s i (bi bo : byte) total rs (w : World Toy.Interp) :
  Byte.eqb bi "255" = false ->
  Toy.ready w ->
  exists total' r w',
    benchmark_entry Toy.clock Toy.traced Toy.IGNORE Toy.DISCARD
                    flags s i (Toy.entry bi bo) total rs w
    = Done ((Some total', rs ++ [r]), w') /\
    Toy.ready w'.
Proof.
  intros Hbi (Hin & Hout & Hlen).
  destruct w as [[[tin rin] [tout rout]] c lg tr]. simpl in Hin, Hout, Hlen.
  subst tin tout. destruct rin as [| b0 [| ? ?]]; try discriminate.
  destruct (benchmark_entry_runs Toy.clock Toy.traced Toy.IGNORE Toy.DISCARD
              flags s i (Toy.entry bi bo) total rs
              (mkWorld (Toy.mkInterp (mkTensor kTfLiteUInt8 [b0])
                                     (mkTensor kTfLiteUInt8 rout)) c lg tr)
              1%positive 2%positive
              (Toy.mkInterp (mkTensor kTfLiteUInt8 [bi])
                            (mkTensor kTfLiteUInt8 rout))
              (Toy.mkInterp (mkTensor kTfLiteUInt8 [bi])
                            (mkTensor kTfLiteUInt8 [bi]))
              eq_refl eq_refl)
    as (total' & r & w' & Hrun & Hw').
  - intros w2 Hw2.
    destruct (setInput_copies [bi] 1 w2 [bi]) as (w3 & Hset & Hw3).
    + rewrite Hw2. right. reflexivity.
    + rewrite Hw2. reflexivity.
    + exists w3. split.
      * eapply provide_input_raw; [reflexivity | exact Hset].
      * rewrite Hw3, Hw2. reflexivity.
  - simpl. unfold Toy.poisoned. simpl. rewrite Hbi. reflexivity.
  - intros _ r0. unfold getOutputError, output_error.
    cbn [Toy.toy_tflite output0 Toy.t_out bytes raw type Toy.entry output
         output_size length Nat.eqb negb Nat.ltb Nat.leb].
    destruct (fold_left error_step _ _). eexists. reflexivity.
  - exists total', r, w'. split; [exact Hrun |].
    unfold Toy.ready. rewrite Hw'. simpl. auto.
Qed.


Lemma benchmark_single_sequence_witness :
  exists new w',
    Toy.run [[Toy.entry "005" "003"; Toy.entry "001" "004"]] 3 (F32.of_Z 1)
            0 [] (Toy.world (Toy.one_byte kTfLiteUInt8))
    = Done ((true, [] ++ new), w') /\
    length new = 6%nat /\
    map tag new = [(0, 0); (0, 1); (0, 0); (0, 1); (0, 0); (0, 1)].
Proof.
  apply (benchmark_single_sequence
           Toy.clock Toy.traced Toy.IGNORE Toy.DISCARD Toy.ready
           [Toy.entry "005" "003"; Toy.entry "001" "004"]
           3 (F32.of_Z 1) 0 [] (Toy.world (Toy.one_byte kTfLiteUInt8))).
  - lia.
  - repeat split.
  - exact toy_reset_keeps.
  - intros s i data total rs w Hw [<- | [<- | []]];
      apply toy_entry_runs; (reflexivity || exact Hw).
  - intros k Hk. assert (k = 1 \/ k = 2)%nat as [-> | ->] by lia;
      vm_compute; reflexivity.
Defined.

Lemma benchmark_ignore_golden_output_witness :
  exists b rs' w',
    Toy.run Toy.two_sequences 2 (S754_infinity false) Toy.IGNORE []
            (Toy.world (Toy.one_byte kTfLiteUInt8))
    = Done ((b, rs'), w') /\
    length rs' = 5%nat /\
    exists new,
      rs' = [] ++ new /\
      Forall (fun r => meanSquareError r = F32.zero /\
                       maxSingleError r = F32.zero) new.
Proof.
  do 3 eexists. split; [vm_compute; reflexivity |].
  split; [reflexivity |].
  refine (proj2 (benchmark_ignore_golden_output
                   Toy.clock Toy.traced Toy.IGNORE Toy.DISCARD
                   Toy.two_sequences 2 (S754_infinity false) Toy.IGNORE []
                   (Toy.world (Toy.one_byte kTfLiteUInt8)) _ _) _ _ _ _).
  - discriminate.
  - vm_compute. discriminate.
  - vm_compute. reflexivity.
Defined.

Lemma benchmark_discard_inference_output_witness :
  exists b rs' w',
    Toy.run Toy.two_sequences 2 (S754_infinity false) Toy.DISCARD []
            (Toy.world (Toy.one_byte kTfLiteUInt8))
    = Done ((b, rs'), w') /\
    map maxSingleError rs'
    = [F32.of_Z 2; F32.zero; F32.zero; F32.of_Z 8; F32.zero] /\
    map (fun m => raw (output0 (after m)))
        (timeline Toy.two_sequences 0 (Z.to_nat 2)
                  (Toy.one_byte kTfLiteUInt8))
    = [["005"]; ["001"]; ["002"]; ["009"]; ["007"]]%byte /\
    exists new done rest,
      rs' = [] ++ new /\
      Forall (fun r => inferenceOutput r = []) new /\
      timeline Toy.two_sequences 0 (Z.to_nat 2)
               (mTfliteInterpreter (Toy.world (Toy.one_byte kTfLiteUInt8)))
      = done ++ rest /\
      schedule Toy.two_sequences 0 (Z.to_nat 2)
      = map (@moment_entry Toy.Interp) done
        ++ map (@moment_entry Toy.Interp) rest /\
      length new = length done /\
      (Z.land Toy.DISCARD Toy.IGNORE = 0 ->
       Forall2 (fun m r =>
                  getOutputError (output0 (after m))
                    (output (snd (moment_entry m)))
                    (output_size (snd (moment_entry m)))
                    (mkResult (computeTimeSec r) F32.zero F32.zero []
                              (fst (fst (moment_entry m)))
                              (snd (fst (moment_entry m)))) = Done r)
               done new).
Proof.
  do 3 eexists. split; [vm_compute; reflexivity |].
  split; [vm_compute; reflexivity |].
  split; [vm_compute; reflexivity |].
  refine (benchmark_discard_inference_output
            Toy.clock Toy.traced Toy.IGNORE Toy.DISCARD
            Toy.two_sequences 2 (S754_infinity false) Toy.DISCARD []
            (Toy.world (Toy.one_byte kTfLiteUInt8)) _ _ _ _ _ _).
  - discriminate.
  - vm_compute. discriminate.
  - vm_compute. reflexivity.
Defined.

Lemma setInput_failure_ignored_witness :
  setInput ["005"%byte] 1 (Toy.world (Toy.one_byte kTfLiteInt32))
  = Done (false,
          logged (Toy.world (Toy.one_byte kTfLiteInt32))
                 (mkLog ANDROID_LOG_ERROR
                        "Input tensor type not supported" [])) /\
  exists w',
    Toy.run [[Toy.filled false "003"; Toy.entry "001" "004"]] 4
            (S754_infinity false) 0 []
            (Toy.world (Toy.one_byte kTfLiteUInt8))
    = Done ((false, []), w').
Proof.
  destruct (setInput_failure_ignored Toy.clock Toy.traced Toy.IGNORE
                                     Toy.DISCARD)
    as (Hset & _ & _ & Hrun).
  split.
  - apply Hset; simpl; discriminate.
  - apply (Hrun (Toy.filled false "003") [Toy.entry "001" "004"] [] 4
                (S754_infinity false) 0 []
                (Toy.world (Toy.one_byte kTfLiteUInt8)) 1%positive).
    + lia.
    + reflexivity.
    + reflexivity.
    + reflexivity.
Defined.

(** A run over an input tensor of an unsupported element type: every
    [setInput] fails, and the run returns true with a result for each
    entry. *)
Example raw_input_failure_run :
  exists r1 r2 w',
    Toy.run [[Toy.entry "005" "003"; Toy.entry "001" "004"]] 1
            (S754_infinity false) Toy.IGNORE []
            (Toy.world (Toy.one_byte kTfLiteInt32))
    = Done ((true, [r1; r2]), w') /\
    map log_fmt (logcat w')
    = ["Input tensor type not supported";
       "Input tensor type not supported"]%string.
Proof. do 3 eexists. split; vm_compute; reflexivity. Qed.

Lemma benchmark_failure_keeps_results_witness :
  exists rs' w',
    Toy.run [[Toy.entry "005" "003"; Toy.entry "255" "004"]] 5
            (S754_infinity false) 0 []
            (Toy.world (Toy.one_byte kTfLiteUInt8))
    = Done ((false, rs'), w') /\
    map tag rs' = [(0, 0)] /\
    map (@fails Toy.Interp _)
        (timeline [[Toy.entry "005" "003"; Toy.entry "255" "004"]] 0 1
                  (Toy.one_byte kTfLiteUInt8))
    = [false; true] /\
    exists new done m rest,
      rs' = [] ++ new /\
      timeline [[Toy.entry "005" "003"; Toy.entry "255" "004"]] 0
               (Z.to_nat 5)
               (mTfliteInterpreter (Toy.world (Toy.one_byte kTfLiteUInt8)))
      = done ++ m :: rest /\
      schedule [[Toy.entry "005" "003"; Toy.entry "255" "004"]] 0 (Z.to_nat 5)
      = map (@moment_entry Toy.Interp) done
        ++ moment_entry m :: map (@moment_entry Toy.Interp) rest /\
      length new = length done /\
      map tag new = map (fun m => entry_tag (moment_entry m)) done /\
      Forall2 (fun m r => result_from Toy.IGNORE Toy.DISCARD 0
                                      (moment_entry m) (output0 (after m)) r)
              done new /\
      Forall (fun m => fails m = false) done /\
      fails m = true.
Proof.
  do 2 eexists. split; [vm_compute; reflexivity |].
  split; [reflexivity |]. split; [vm_compute; reflexivity |].
  refine (benchmark_failure_keeps_results
            Toy.clock Toy.traced Toy.IGNORE Toy.DISCARD
            [[Toy.entry "005" "003"; Toy.entry "255" "004"]] 5
            (S754_infinity false) 0 []
            (Toy.world (Toy.one_byte kTfLiteUInt8)) _ _ _ _).
  - discriminate.
  - vm_compute. reflexivity.
Defined.

(* ================================================================== *)
(** * Further properties *)

(** ** ErrorMetric: values of the two error fields *)

Section ErrorValues.

Import F32.

Lemma sub_self (x : float) : is_finite x = true -> sub x x = zero.
Proof.
  destruct x as [[] | | | s m e]; try discriminate; try reflexivity.
  intros _. unfold sub, SFsub. cbv zeta.
  rewrite Z.sub_diag. reflexivity.
Qed.

Lemma of_Z_positive (n : Z) : 0 < n -> is_pos (of_Z n) = true.
Proof.
  intros Hn.
  assert (Hs : signed_nonzero (n <? 0) (of_Z n)).
  { apply (F32Facts.binary_normalize_sign prec emax eq_refl);
      [unfold SpecFloat.emin, prec, emax; lia | lia]. }
  replace (n <? 0) with false in Hs by (symmetry; apply Z.ltb_ge; lia).
  destruct (of_Z n) as [| [] | | [] ? ?]; simpl in Hs;
    try contradiction; try discriminate; reflexivity.
Qed.

Lemma zero_div_pos (x : float) : is_pos x = true -> div zero x = zero.
Proof. destruct x as [| [] | | [] ? ?]; try discriminate; reflexivity. Qed.

Lemma fold_error_step_zeros (errs : list float) :
  Forall (fun e => e = zero) errs ->
  fold_left error_step errs (zero, zero) = (zero, zero).
Proof.
  induction 1 as [| e errs -> _ IH]; [reflexivity | exact IH].
Qed.

Lemma map_combine_diag {A B : Type} (f : A * A -> B) (l : list A) :
  map f (combine l l) = map (fun x => f (x, x)) l.
Proof. induction l as [| a l IH]; simpl; congruence. Qed.

Lemma uint8_finite (b : byte) : is_finite (of_Z (uint8 b)) = true.
Proof.
  assert (Hall : forallb (fun z => is_finite (of_Z z)) uint8_values = true)
    by (vm_compute; reflexivity).
  rewrite forallb_forall in Hall. apply Hall, uint8_in_values.
Qed.

End ErrorValues.

(** X1.  On identical produced and expected buffers that hold at least
    one element, [getOutputError] returns a mean square error and a
    maximal single error of zero: for [uint8] elements always, for
    [float] elements when every element is finite. *)
Theorem getOutputError_identical :
  (forall bs r,
      bs <> [] ->
      exists r',
        getOutputError (mkTensor kTfLiteUInt8 bs) bs (length bs) r = Done r' /\
        meanSquareError r' = F32.zero /\ maxSingleError r' = F32.zero) /\
  (forall bs r,
      (4 <= length bs)%nat ->
      Forall (fun x => is_finite x = true) (as_floats (length bs / 4) bs) ->
      exists r',
        getOutputError (mkTensor kTfLiteFloat32 bs) bs (length bs) r
        = Done r' /\
        meanSquareError r' = F32.zero /\ maxSingleError r' = F32.zero).
Proof.
  split.
  - intros bs r Hne.
    unfold getOutputError, output_error, bytes. cbn [raw type].
    rewrite Nat.eqb_refl, Nat.ltb_irrefl. cbn [negb].
    rewrite fold_error_step_zeros.
    + eexists. split; [reflexivity |]. cbn [meanSquareError maxSingleError].
      split; [| reflexivity].
      apply zero_div_pos, of_Z_positive.
      destruct bs; [congruence | cbn [length]; lia].
    + unfold uint8_errors. rewrite map_combine_diag.
      apply Forall_map, Forall_forall. intros b _.
      apply sub_self, uint8_finite.
  - intros bs r Hlen Hfin.
    unfold getOutputError, output_error, bytes. cbn [raw type].
    rewrite Nat.eqb_refl. cbn [negb].
    replace (length bs <? 4 * (length bs / 4))%nat with false
      by (symmetry; apply Nat.ltb_ge, Nat.Div0.mul_div_le).
    rewrite fold_error_step_zeros.
    + eexists. split; [reflexivity |]. cbn [meanSquareError maxSingleError].
      split; [| reflexivity].
      apply zero_div_pos, of_Z_positive.
      assert (1 <= length bs / 4)%nat
        by (apply Nat.div_le_lower_bound; lia).
      lia.
    + unfold float_errors. rewrite map_combine_diag.
      apply Forall_map. revert Hfin. apply Forall_impl.
      intros x Hx. apply sub_self. exact Hx.
Qed.

Lemma getOutputError_identical_witness :
  exists r',
    getOutputError (mkTensor kTfLiteFloat32 ["000"; "000"; "128"; "063"]%byte)
                   ["000"; "000"; "128"; "063"]%byte 4
                   (mkResult F32.zero F32.zero F32.zero [] 0 0) = Done r' /\
    meanSquareError r' = F32.zero /\ maxSingleError r' = F32.zero.
Proof.
  apply (proj2 getOutputError_identical
           ["000"; "000"; "128"; "063"]%byte).
  - simpl. lia.
  - repeat constructor.
Defined.

(** X2.  On an output tensor that holds no element (a [uint8] tensor of
    no byte, a [float] tensor of fewer than four bytes) [getOutputError]
    divides the zero sum by a zero count: the mean square error is a
    NaN, and the maximal single error is zero. *)
Theorem getOutputError_no_element :
  forall t expected_data r,
    (type t = kTfLiteUInt8 /\ bytes t = 0%nat) \/
    (type t = kTfLiteFloat32 /\ (bytes t < 4)%nat) ->
    exists r',
      getOutputError t expected_data (bytes t) r = Done r' /\
      meanSquareError r' = S754_nan /\ maxSingleError r' = F32.zero.
Proof.
  intros [ty bs] expected_data r. unfold bytes. cbn [raw type].
  intros [[-> Hb] | [-> Hb]]; unfold getOutputError, output_error, bytes;
    cbn [raw type]; rewrite Nat.eqb_refl; cbn [negb].
  - destruct bs; [| discriminate]. cbn. eexists. repeat split.
  - rewrite (Nat.div_small (length bs) 4) by exact Hb.
    unfold float_errors. rewrite (Nat.div_small (length bs) 4) by exact Hb.
    cbn. eexists. repeat split.
Qed.

Lemma getOutputError_no_element_witness :
  exists r',
    getOutputError (mkTensor kTfLiteFloat32 ["001"; "002"; "003"]%byte)
                   ["009"; "009"; "009"]%byte 3
                   (mkResult F32.zero F32.zero F32.zero [] 0 0) = Done r' /\
    meanSquareError r' = S754_nan /\ maxSingleError r' = F32.zero.
Proof.
  apply (getOutputError_no_element
           (mkTensor kTfLiteFloat32 ["001"; "002"; "003"]%byte)).
  right. split; [reflexivity | unfold bytes; simpl; lia].
Defined.

(** X3.  For a tensor of one [uint8] element the mean square error is
    exactly the square of the difference between the produced and the
    expected value. *)
Theorem getOutputError_uint8_single_mse :
  forall (o e : byte) r,
    exists r',
      getOutputError (mkTensor kTfLiteUInt8 [o]) [e] 1 r = Done r' /\
      F32.to_Z (meanSquareError r')
      = Some ((uint8 o - uint8 e) * (uint8 o - uint8 e)).
Proof.
  intros o e r.
  assert (Hall : forallb (fun a => forallb (uint8_mse_ok a) uint8_values)
                         uint8_values = true)
    by (vm_compute; reflexivity).
  rewrite forallb_forall in Hall.
  specialize (Hall _ (uint8_in_values o)).
  rewrite forallb_forall in Hall.
  specialize (Hall _ (uint8_in_values e)).
  unfold uint8_mse_ok in Hall.
  unfold getOutputError, output_error, bytes.
  cbn [raw type length Nat.eqb negb Nat.ltb Nat.leb uint8_errors combine map
       fold_left error_step].
  eexists. split; [reflexivity |]. cbn [meanSquareError].
  change (Z.of_nat 1) with 1.
  destruct (F32.to_Z _) as [d |]; [| discriminate].
  apply Z.eqb_eq in Hall. congruence.
Qed.

Section ErrorBounds.

Import F32.

Lemma max_error_of_member (errs : list float) :
  max_error_of errs = zero \/ In (max_error_of errs) errs.
Proof.
  induction errs as [| err errs IH] using rev_ind; [left; reflexivity |].
  rewrite max_error_of_snoc.
  destruct (gt err (max_error_of errs)).
  - right. apply in_or_app. right. left. reflexivity.
  - destruct IH as [IH | IH]; [left; exact IH |].
    right. apply in_or_app. left. exact IH.
Qed.

Lemma nan_not_gt (m : float) : gt S754_nan m = false.
Proof. destruct m; reflexivity. Qed.

Lemma max_error_of_skips_nan (errs : list float) :
  max_error_of errs
  = max_error_of (filter (fun e => negb (is_nan e)) errs).
Proof.
  induction errs as [| err errs IH] using rev_ind; [reflexivity |].
  rewrite filter_app, max_error_of_snoc. cbn [filter].
  destruct err as [s | s | | s m e]; cbn [is_nan negb];
    rewrite ?app_nil_r, ?max_error_of_snoc, ?nan_not_gt, <- IH;
    reflexivity.
Qed.

Lemma err_sum_nan (errs : list float) : forall acc,
  snd acc = S754_nan \/ In S754_nan errs ->
  snd (fold_left error_step errs acc) = S754_nan.
Proof.
  induction errs as [| err errs IH]; intros [m sm] Hnan.
  - destruct Hnan as [Hnan | []]. exact Hnan.
  - cbn [fold_left error_step]. apply IH. cbn [snd] in *.
    destruct Hnan as [-> | [-> | Hin]].
    + left. reflexivity.
    + left. destruct sm; reflexivity.
    + right. exact Hin.
Qed.

Lemma as_floats_length (n : nat) : forall bs, length (as_floats n bs) = n.
Proof. induction n as [| n IH]; intros bs; simpl; [| rewrite IH]; reflexivity. Qed.

Lemma in_combine_left {A B : Type} (l : list A) : forall (l' : list B) x,
  length l = length l' -> In x l -> exists y, In (x, y) (combine l l').
Proof.
  induction l as [| a l IH]; intros [| b l'] x Hlen Hin;
    try discriminate; [destruct Hin |].
  destruct Hin as [<- | Hin].
  - exists b. left. reflexivity.
  - destruct (IH l' x) as [y Hy]; [simpl in Hlen; lia | exact Hin |].
    exists y. right. exact Hy.
Qed.

End ErrorBounds.

(** X4.  The maximal single error [getOutputError] reports is never
    negative and never a NaN: it is zero or one of the element
    errors. *)
Theorem getOutputError_max_sound :
  forall t expected_data len r r',
    getOutputError t expected_data len r = Done r' ->
    F32.is_neg (maxSingleError r') = false /\
    is_nan (maxSingleError r') = false /\
    (maxSingleError r' = F32.zero \/
     In (maxSingleError r') (element_errors t expected_data)).
Proof.
  intros t expected_data len r r' Hrun.
  apply getOutputError_max in Hrun.
  destruct Hrun as (_ & _ & -> & _).
  destruct (max_error_of_nonneg (element_errors t expected_data)) as [Hn Hnan].
  split; [exact Hn |]. split; [| apply max_error_of_member].
  destruct (max_error_of _); try reflexivity. congruence.
Qed.

Lemma getOutputError_max_sound_witness :
  exists r',
    getOutputError (mkTensor kTfLiteUInt8 ["003"; "009"]%byte)
                   ["007"; "004"]%byte 2
                   (mkResult F32.zero F32.zero F32.zero [] 0 0) = Done r' /\
    F32.is_neg (maxSingleError r') = false /\
    is_nan (maxSingleError r') = false.
Proof.
  eexists. split; [reflexivity |].
  destruct (getOutputError_max_sound
              (mkTensor kTfLiteUInt8 ["003"; "009"]%byte)
              ["007"; "004"]%byte 2
              (mkResult F32.zero F32.zero F32.zero [] 0 0) _ eq_refl)
    as (Hn & Hnan & _).
  split; assumption.
Defined.

(** X5.  A NaN among the element errors makes the mean square error a
    NaN and leaves the maximal single error as it is without that
    element; a NaN element of a produced [float] tensor is such an
    error. *)
Theorem getOutputError_nan :
  (forall t expected_data len r r',
      getOutputError t expected_data len r = Done r' ->
      In S754_nan (element_errors t expected_data) ->
      meanSquareError r' = S754_nan /\
      maxSingleError r'
      = max_error_of (filter (fun e => negb (is_nan e))
                             (element_errors t expected_data))) /\
  (forall output_raw expected_data len r r',
      getOutputError (mkTensor kTfLiteFloat32 output_raw) expected_data len r
      = Done r' ->
      In S754_nan (as_floats (length output_raw / 4) output_raw) ->
      meanSquareError r' = S754_nan).
Proof.
  assert (Hgen : forall t expected_data len r r',
      getOutputError t expected_data len r = Done r' ->
      In S754_nan (element_errors t expected_data) ->
      meanSquareError r' = S754_nan).
  { intros t expected_data len r r' Hrun Hin.
    unfold getOutputError, output_error in Hrun.
    unfold element_errors in Hin.
    destruct (negb _); [discriminate |].
    destruct (type t); try discriminate;
      destruct (_ <? _)%nat; try discriminate;
      match type of Hrun with
      | context [fold_left error_step ?errs ?acc] =>
          pose proof (err_sum_nan errs acc (or_intror Hin)) as Hs;
          destruct (fold_left error_step errs acc) as [m sm]
      end;
      cbn [snd] in Hs; subst sm; injection Hrun as <-; reflexivity. }
  split.
  - intros t expected_data len r r' Hrun Hin.
    split; [eapply Hgen; eassumption |].
    apply getOutputError_max in Hrun. destruct Hrun as (_ & _ & -> & _).
    apply max_error_of_skips_nan.
  - intros output_raw expected_data len r r' Hrun Hin.
    eapply Hgen; [exact Hrun |].
    unfold element_errors, float_errors. cbn [type raw].
    destruct (in_combine_left
                (as_floats (length output_raw / 4) output_raw)
                (as_floats (length output_raw / 4) expected_data)
                S754_nan) as [y Hy];
      [rewrite !as_floats_length; reflexivity | exact Hin |].
    apply in_map_iff. exists (S754_nan, y). split; [reflexivity | exact Hy].
Qed.

Lemma getOutputError_nan_witness :
  exists r',
    getOutputError (mkTensor kTfLiteFloat32 ["000"; "000"; "192"; "127"]%byte)
                   ["000"; "000"; "128"; "063"]%byte 4
                   (mkResult F32.zero F32.zero F32.zero [] 0 0) = Done r' /\
    meanSquareError r' = S754_nan.
Proof.
  eexists. split; [reflexivity |].
  apply (proj2 getOutputError_nan
           ["000"; "000"; "192"; "127"]%byte
           ["000"; "000"; "128"; "063"]%byte 4%nat
           (mkResult F32.zero F32.zero F32.zero [] 0 0) _ eq_refl).
  left. reflexivity.
Defined.

Lemma as_floats_app (k : nat) : forall bs tail,
  length bs = (4 * k)%nat -> as_floats k (bs ++ tail) = as_floats k bs.
Proof.
  induction k as [| k IH]; intros bs tail Hlen; [reflexivity |].
  destruct bs as [| b0 [| b1 [| b2 [| b3 bs]]]]; simpl in Hlen; try lia.
  cbn [as_floats app firstn skipn]. f_equal. apply IH. lia.
Qed.

(** X6.  In a [float] tensor whose byte size is not a multiple of four,
    the bytes after the last whole element are not compared: changing
    them, in the produced or in the expected buffer, leaves what
    [getOutputError] returns unchanged. *)
Theorem getOutputError_float_trailing_bytes :
  forall (k : nat) ob eb t1 t1' t2 t2' r,
    length ob = (4 * k)%nat -> length eb = (4 * k)%nat ->
    (length t1 < 4)%nat ->
    length t1' = length t1 -> length t2 = length t1 ->
    length t2' = length t1 ->
    getOutputError (mkTensor kTfLiteFloat32 (ob ++ t1)) (eb ++ t2)
                   (length (ob ++ t1)) r
    = getOutputError (mkTensor kTfLiteFloat32 (ob ++ t1')) (eb ++ t2')
                     (length (ob ++ t1')) r.
Proof.
  intros k ob eb t1 t1' t2 t2' r Hob Heb Ht1 Ht1' Ht2 Ht2'.
  assert (Hdiv : forall t : list byte, length t = length t1 ->
                   (length (ob ++ t) / 4 = k)%nat).
  { intros t Ht. rewrite length_app, Hob, Ht.
    rewrite (Nat.mul_comm 4 k), Nat.div_add_l by lia.
    rewrite (Nat.div_small (length t1) 4) by exact Ht1. lia. }
  unfold getOutputError, output_error, float_errors, bytes. cbn [raw type].
  rewrite !Nat.eqb_refl. cbn [negb].
  rewrite (Hdiv t1 eq_refl), (Hdiv t1' Ht1').
  rewrite !as_floats_app by assumption.
  rewrite !length_app, Heb, Ht2, Ht2'. reflexivity.
Qed.

Lemma getOutputError_float_trailing_bytes_witness :
  getOutputError
    (mkTensor kTfLiteFloat32 (["000"; "000"; "128"; "063"] ++ ["001"])%byte)
    (["000"; "000"; "000"; "063"] ++ ["002"])%byte 5
    (mkResult F32.zero F32.zero F32.zero [] 0 0)
  = getOutputError
      (mkTensor kTfLiteFloat32 (["000"; "000"; "128"; "063"] ++ ["255"])%byte)
      (["000"; "000"; "000"; "063"] ++ ["077"])%byte 5
      (mkResult F32.zero F32.zero F32.zero [] 0 0).
Proof.
  apply (getOutputError_float_trailing_bytes 1); simpl; lia.
Defined.

(* ================================================================== *)
(** ** BenchmarkLoop: the clock, the trace and the captured output *)

Section RunShape.

Context {Interpreter : Type} `{TfLite Interpreter}.
Variable gettimeofday : nat -> Z.
Variable kTraceFunc : TraceFunc.
Variable FLAG_IGNORE_GOLDEN_OUTPUT : Z.
Variable FLAG_DISCARD_INFERENCE_OUTPUT : Z.

Local Notation "'bench'" :=
  (benchmark gettimeofday kTraceFunc FLAG_IGNORE_GOLDEN_OUTPUT
             FLAG_DISCARD_INFERENCE_OUTPUT).
Local Notation "'loop'" :=
  (benchmark_loop gettimeofday kTraceFunc FLAG_IGNORE_GOLDEN_OUTPUT
                  FLAG_DISCARD_INFERENCE_OUTPUT).
Local Notation "'sequence'" :=
  (benchmark_sequence gettimeofday kTraceFunc FLAG_IGNORE_GOLDEN_OUTPUT
                      FLAG_DISCARD_INFERENCE_OUTPUT).
Local Notation "'body'" :=
  (benchmark_entry gettimeofday kTraceFunc FLAG_IGNORE_GOLDEN_OUTPUT
                   FLAG_DISCARD_INFERENCE_OUTPUT).

Lemma resetStates_keeps (w w' : World Interpreter) b :
  resetStates w = Done (b, w') ->
  clock_reads w' = clock_reads w /\ systrace w' = systrace w.
Proof.
  unfold resetStates, bind, get_interpreter, put_interpreter,
    android_log_print, ret.
  destruct (ResetVariableTensorsToZero _) as [[] ?];
    intros [= _ <-]; split; reflexivity.
Qed.

Lemma clock_times_app c n m :
  clock_times gettimeofday c (n + m)
  = clock_times gettimeofday c n
    ++ clock_times gettimeofday (c + 2 * n) m.
Proof.
  revert c. induction n as [| n IH]; intros c; simpl.
  - f_equal. lia.
  - rewrite IH. do 3 f_equal. lia.
Qed.

Lemma benchmark_sequence_times flags s seq :
  forall i total rs w o rs' w',
    sequence flags s i seq total rs w = Done ((o, rs'), w') ->
    exists new,
      rs' = rs ++ new /\
      map computeTimeSec new
      = clock_times gettimeofday (clock_reads w) (length new) /\
      (o <> None -> clock_reads w' = (clock_reads w + 2 * length new)%nat).
Proof.
  induction seq as [| data seq IH]; intros i total rs w o rs' w'.
  - simpl. unfold ret. intros [= <- <- <-].
    exists []. rewrite app_nil_r. repeat split. simpl. lia.
  - cbn [benchmark_sequence]. unfold bind at 1.
    destruct (body flags s i data total rs w)
      as [[[[total1 |] rs1] w1] | |] eqn:E1; try discriminate.
    + pose proof E1 as Hclk. apply benchmark_entry_clock in Hclk.
      destruct Hclk as (Hc1 & r & -> & Htime).
      intros Hrest. apply IH in Hrest.
      destruct Hrest as (new & -> & Htimes & Hclock).
      exists (r :: new). rewrite <- app_assoc. split; [reflexivity |].
      cbn [map length clock_times]. rewrite Htime, Htimes, Hc1.
      split; [reflexivity |].
      intros Ho. rewrite (Hclock Ho), Hc1. lia.
    + apply benchmark_entry_inv in E1. destruct E1 as [-> _].
      unfold ret. intros [= <- <- <-].
      exists []. rewrite app_nil_r. repeat split. congruence.
Qed.

Lemma benchmark_loop_times inOutData timeout flags steps :
  forall k0 total rs w b rs' w',
    loop inOutData timeout flags steps k0 total rs w = Done ((b, rs'), w') ->
    exists new,
      rs' = rs ++ new /\
      map computeTimeSec new
      = clock_times gettimeofday (clock_reads w) (length new) /\
      (b = true -> clock_reads w' = (clock_reads w + 2 * length new)%nat).
Proof.
  induction steps as [| steps IH]; intros k0 total rs w b rs' w'.
  - simpl. unfold ret. intros [= <- <- <-].
    exists []. rewrite app_nil_r. repeat split. simpl. lia.
  - cbn [benchmark_loop]. unfold bind at 1.
    destruct (resetStates w) as [[b0 w0] | |] eqn:E0; try discriminate.
    apply resetStates_keeps in E0. destruct E0 as [Hc0 _].
    unfold bind at 1.
    destruct (sequence flags _ 0 _ total rs w0)
      as [[[[total1 |] rs1] w1] | |] eqn:E1; try discriminate.
    + apply benchmark_sequence_times in E1.
      destruct E1 as (new1 & -> & Htimes1 & Hclock1).
      rewrite Hc0 in Htimes1, Hclock1.
      specialize (Hclock1 ltac:(discriminate)).
      destruct (F32.gt total1 timeout).
      * unfold ret. intros [= <- <- <-]. exists new1. auto.
      * intros Hrest. apply IH in Hrest.
        destruct Hrest as (new2 & -> & Htimes2 & Hclock2).
        exists (new1 ++ new2). rewrite <- app_assoc.
        split; [reflexivity |].
        rewrite map_app, length_app, clock_times_app, Htimes1, Htimes2,
          Hclock1.
        split; [reflexivity |].
        intros Hb. rewrite (Hclock2 Hb), Hclock1. lia.
    + apply benchmark_sequence_times in E1.
      destruct E1 as (new1 & -> & Htimes1 & _).
      rewrite Hc0 in Htimes1.
      unfold ret. intros [= <- <- <-]. exists new1.
      repeat split; [assumption | discriminate].
Qed.


End RunShape.


Section RunTrace.

Context {Interpreter : Type} `{TfLite Interpreter}.
Variable gettimeofday : nat -> Z.
Variable kTraceFunc : TraceFunc.
Variable FLAG_IGNORE_GOLDEN_OUTPUT : Z.
Variable FLAG_DISCARD_INFERENCE_OUTPUT : Z.
Variables a e : positive.
Hypothesis begin_resolved : ATrace_beginSection kTraceFunc = Some a.
Hypothesis end_resolved : ATrace_endSection kTraceFunc = Some e.

Local Notation "'bench'" :=
  (benchmark gettimeofday kTraceFunc FLAG_IGNORE_GOLDEN_OUTPUT
             FLAG_DISCARD_INFERENCE_OUTPUT).
Local Notation "'loop'" :=
  (benchmark_loop gettimeofday kTraceFunc FLAG_IGNORE_GOLDEN_OUTPUT
                  FLAG_DISCARD_INFERENCE_OUTPUT).
Local Notation "'sequence'" :=
  (benchmark_sequence gettimeofday kTraceFunc FLAG_IGNORE_GOLDEN_OUTPUT
                      FLAG_DISCARD_INFERENCE_OUTPUT).
Local Notation "'body'" :=
  (benchmark_entry gettimeofday kTraceFunc FLAG_IGNORE_GOLDEN_OUTPUT
                   FLAG_DISCARD_INFERENCE_OUTPUT).

(** X8.  With both trace functions resolved, a run of [benchmark] adds
    to the trace, for each result it appends, two sections opened and
    then closed.  A run that returns true adds nothing else.  A run
    that returns false adds the sections of the loop body that failed,
    the body of the first entry of the run that fails from the state
    the run has brought the interpreter to: left open when the fill
    callback of that entry failed, since the body then returns before
    the calls that close them, and closed when the callback did not
    fail and the invocation did. *)
Theorem benchmark_trace (inOutData : list InferenceInOutSequence)
    maxCount timeout flags rs w b rs' w' :
  bench inOutData maxCount timeout flags rs w = Done ((b, rs'), w') ->
  exists new done rest,
    rs' = rs ++ new /\
    timeline inOutData 0 (Z.to_nat maxCount) (mTfliteInterpreter w)
    = done ++ rest /\
    length new = length done /\
    Forall (fun m => fails m = false) done /\
    if b
    then systrace w'
         = systrace w ++ concat (repeat (spans_closed a e) (length new))
    else exists m rest',
        rest = m :: rest' /\
        ((fill_fails (snd (moment_entry m)) (before m) = true /\
          systrace w'
          = systrace w ++ concat (repeat (spans_closed a e) (length new))
            ++ spans_opened a) \/
         (fill_fails (snd (moment_entry m)) (before m) = false /\
          invocation_fails (snd (moment_entry m)) (before m) = true /\
          systrace w'
          = systrace w ++ concat (repeat (spans_closed a e) (length new))
            ++ spans_closed a e)).
Proof.
  intros Hrun. apply benchmark_moments in Hrun.
  destruct Hrun as (new & done & rest & Hrs & Htl & _ & Hlen & _ & Hok
                    & Htr & Hb).
  specialize (Htr a e begin_resolved end_resolved).
  exists new, done, rest. do 4 (split; [assumption |]).
  destruct b.
  - rewrite app_nil_r in Htr. exact Htr.
  - destruct (Hb eq_refl) as (m & rest' & -> & Hfail).
    exists m, rest'. split; [reflexivity |].
    unfold failure_trace in Htr. unfold fails in Hfail.
    destruct (fill_fails (snd (moment_entry m)) (before m)).
    + left. split; [reflexivity | exact Htr].
    + right. split; [reflexivity |]. split; [exact Hfail | exact Htr].
Qed.

End RunTrace.

Lemma benchmark_trace_witness :
  exists rs' w',
    Toy.run [[Toy.entry "005" "003"; Toy.filled false "004"]] 3
            (S754_infinity false) 0 []
            (Toy.world (Toy.one_byte kTfLiteUInt8))
    = Done ((false, rs'), w') /\
    length rs' = 1%nat /\
    systrace w' = spans_closed 1 2 ++ spans_opened 1 /\
    exists new done rest,
      rs' = [] ++ new /\
      timeline [[Toy.entry "005" "003"; Toy.filled false "004"]] 0
               (Z.to_nat 3)
               (mTfliteInterpreter (Toy.world (Toy.one_byte kTfLiteUInt8)))
      = done ++ rest /\
      length new = length done /\
      Forall (fun m => fails m = false) done /\
      exists m rest',
        rest = m :: rest' /\
        ((fill_fails (snd (moment_entry m)) (before m) = true /\
          systrace w'
          = [] ++ concat (repeat (spans_closed 1 2) (length new))
            ++ spans_opened 1) \/
         (fill_fails (snd (moment_entry m)) (before m) = false /\
          invocation_fails (snd (moment_entry m)) (before m) = true /\
          systrace w'
          = [] ++ concat (repeat (spans_closed 1 2) (length new))
            ++ spans_closed 1 2)).
Proof.
  do 2 eexists. split; [vm_compute; reflexivity |].
  split; [reflexivity |]. split; [reflexivity |].
  refine (benchmark_trace Toy.clock Toy.traced Toy.IGNORE Toy.DISCARD
            1 2 eq_refl eq_refl
            [[Toy.entry "005" "003"; Toy.filled false "004"]] 3
            (S754_infinity false) 0 []
            (Toy.world (Toy.one_byte kTfLiteUInt8)) false _ _ _).
  vm_compute. reflexivity.
Defined.

Section CapturedOutput.

Context {Interpreter : Type} `{TfLite Interpreter}.
Variable gettimeofday : nat -> Z.
Variable kTraceFunc : TraceFunc.
Variable FLAG_IGNORE_GOLDEN_OUTPUT : Z.
Variable FLAG_DISCARD_INFERENCE_OUTPUT : Z.

(** X9.  With the flag [FLAG_DISCARD_INFERENCE_OUTPUT] clear, the
    output captured in the result of an entry is the whole storage of
    the output tensor of the interpreter, as the invocation of that
    very entry left it in this run.  [getOutputError] and
    [saveInferenceOutput] read the same tensor: with
    [FLAG_IGNORE_GOLDEN_OUTPUT] clear too, the captured output has
    exactly the [output_size] bytes of its entry, is of a supported
    element type, and the maximal single error of the result is the
    one of that very output against the expected data. *)
Theorem benchmark_captured_output
    (inOutData : list InferenceInOutSequence) maxCount timeout flags
    rs w b rs' w' :
  inOutData <> [] ->
  Z.land flags FLAG_DISCARD_INFERENCE_OUTPUT = 0 ->
  benchmark gettimeofday kTraceFunc FLAG_IGNORE_GOLDEN_OUTPUT
            FLAG_DISCARD_INFERENCE_OUTPUT
            inOutData maxCount timeout flags rs w = Done ((b, rs'), w') ->
  exists new done rest,
    rs' = rs ++ new /\
    timeline inOutData 0 (Z.to_nat maxCount) (mTfliteInterpreter w)
    = done ++ rest /\
    schedule inOutData 0 (Z.to_nat maxCount)
    = map (@moment_entry _) done ++ map (@moment_entry _) rest /\
    Forall2 (fun m r =>
               inferenceOutput r = raw (output0 (after m)) /\
               (Z.land flags FLAG_IGNORE_GOLDEN_OUTPUT = 0 ->
                (type (output0 (after m)) = kTfLiteUInt8 \/
                 type (output0 (after m)) = kTfLiteFloat32) /\
                length (inferenceOutput r)
                = output_size (snd (moment_entry m)) /\
                maxSingleError r
                = max_error_of
                    (map (produced_minus_expected
                            (output0 (after m))
                            (output (snd (moment_entry m))))
                         (seq 0 (elements_count (output0 (after m)))))))
            done new.
Proof.
  intros Hne Hdis Hrun.
  apply benchmark_moments in Hrun.
  destruct Hrun as (new & done & rest & Hrs & Htl & Hsched & _ & Hall & _).
  exists new, done, rest. do 3 (split; [assumption |]).
  eapply Forall2_weaken; [| exact Hall].
  intros m r Hr. exact (result_from_captured _ _ _ _ _ _ Hdis Hr).
Qed.

End CapturedOutput.

Lemma benchmark_captured_output_witness :
  exists b rs' w',
    Toy.run Toy.two_sequences 2 (S754_infinity false) 0 []
            (Toy.world (Toy.one_byte kTfLiteUInt8))
    = Done ((b, rs'), w') /\
    map inferenceOutput rs'
    = [["005"]; ["001"]; ["002"]; ["009"]; ["007"]]%byte /\
    exists new done rest,
      rs' = [] ++ new /\
      timeline Toy.two_sequences 0 (Z.to_nat 2)
               (mTfliteInterpreter (Toy.world (Toy.one_byte kTfLiteUInt8)))
      = done ++ rest /\
      schedule Toy.two_sequences 0 (Z.to_nat 2)
      = map (@moment_entry Toy.Interp) done
        ++ map (@moment_entry Toy.Interp) rest /\
      Forall2 (fun m r =>
                 inferenceOutput r = raw (output0 (after m)) /\
                 (Z.land 0 Toy.IGNORE = 0 ->
                  (type (output0 (after m)) = kTfLiteUInt8 \/
                   type (output0 (after m)) = kTfLiteFloat32) /\
                  length (inferenceOutput r)
                  = output_size (snd (moment_entry m)) /\
                  maxSingleError r
                  = max_error_of
                      (map (produced_minus_expected
                              (output0 (after m))
                              (output (snd (moment_entry m))))
                           (seq 0 (elements_count (output0 (after m)))))))
              done new.
Proof.
  do 3 eexists. split; [vm_compute; reflexivity |].
  split; [reflexivity |].
  refine (benchmark_captured_output
            Toy.clock Toy.traced Toy.IGNORE Toy.DISCARD
            Toy.two_sequences 2 (S754_infinity false) 0 []
            (Toy.world (Toy.one_byte kTfLiteUInt8)) _ _ _ _ _ _).
  - discriminate.
  - reflexivity.
  - vm_compute. reflexivity.
Defined.

(* ================================================================== *)
(** ** TraceSpan: tracing is instrumentation only *)

Section TraceTransparency.

Context {Interpreter : Type} `{TfLite Interpreter}.
Variable gettimeofday : nat -> Z.
Variable FLAG_IGNORE_GOLDEN_OUTPUT : Z.
Variable FLAG_DISCARD_INFERENCE_OUTPUT : Z.

Local Notation "'same'" := (alike (Interpreter := Interpreter)).

Lemma alike_bind {A B : Type} (m m' : M Interpreter A)
    (k k' : A -> M Interpreter B) :
  same m m' -> (forall x, same (k x) (k' x)) ->
  same (bind m k) (bind m' k').
Proof.
  intros Hm Hk w w' Hw. unfold bind. specialize (Hm w w' Hw).
  destruct (m w) as [[x w1] | |], (m' w') as [[x' w1'] | |];
    simpl in Hm; try contradiction; try exact Hm.
  destruct Hm as [<- Hw1]. apply Hk. exact Hw1.
Qed.

Lemma alike_ret {A : Type} (x : A) :
  same (ret x) (ret x).
Proof. intros w w' Hw. simpl. auto. Qed.

Ltac same_state :=
  let w := fresh "w" in
  let w' := fresh "w'" in
  let Hw := fresh "Hw" in
  intros w w' Hw; destruct w, w'; destruct Hw as (Hi & Hc & Hl);
  cbn [mTfliteInterpreter clock_reads logcat] in Hi, Hc, Hl; subst.

Lemma alike_call_trace a a' name name' :
  same (call_trace (Some a) name) (call_trace (Some a') name').
Proof. same_state. simpl. repeat split. Qed.

Lemma alike_log prio fmt args :
  same (android_log_print prio fmt args) (android_log_print prio fmt args).
Proof. same_state. simpl. repeat split. Qed.

Lemma alike_clock :
  same (currentTimeInUsec gettimeofday) (currentTimeInUsec gettimeofday).
Proof. same_state. simpl. repeat split. Qed.

Lemma alike_get :
  same get_interpreter get_interpreter.
Proof. same_state. simpl. repeat split. Qed.

Lemma alike_put i : same (put_interpreter i) (put_interpreter i).
Proof. same_state. simpl. repeat split. Qed.

Lemma alike_lift {A : Type} (o : Outcome A) :
  same (lift o) (lift o).
Proof. intros w w' Hw. destruct o; simpl; auto. Qed.

Lemma alike_stop {A : Type} :
  same (fun _ : World Interpreter => @Undefined (A * World Interpreter))
        (fun _ => Undefined).
Proof. intros w w' Hw. exact I. Qed.

Lemma alike_setInput dataPtr n : same (setInput dataPtr n) (setInput dataPtr n).
Proof.
  unfold setInput. apply alike_bind; [apply alike_get |]. intros interp.
  destruct (type (input0 interp));
    try (apply alike_bind; [apply alike_log | intros; apply alike_ret]);
    destruct (memcpy _ _ _);
    try apply alike_stop;
    (apply alike_bind; [apply alike_put | intros; apply alike_ret]).
Qed.

Lemma alike_provide_input data : same (provide_input data) (provide_input data).
Proof.
  unfold provide_input. destruct (input data) as [dataPtr |].
  - apply alike_bind; [apply alike_setInput | intros; apply alike_ret].
  - apply alike_bind; [apply alike_get |]. intros interp.
    destruct (createInput data _ _) as [ok raw'].
    apply alike_bind; [apply alike_put | intros; apply alike_ret].
Qed.

Lemma alike_runInference : same runInference runInference.
Proof.
  unfold runInference. apply alike_bind; [apply alike_get |]. intros interp.
  destruct (Invoke interp) as [[] interp'];
    (apply alike_bind; [apply alike_put | intros _]);
    [apply alike_ret |].
  apply alike_bind; [apply alike_log | intros; apply alike_ret].
Qed.

Lemma alike_resetStates : same resetStates resetStates.
Proof.
  unfold resetStates. apply alike_bind; [apply alike_get |]. intros interp.
  destruct (ResetVariableTensorsToZero interp) as [[] interp'];
    (apply alike_bind; [apply alike_put | intros _]);
    [apply alike_ret |].
  apply alike_bind; [apply alike_log | intros; apply alike_ret].
Qed.

Variables tf tf' : TraceFunc.
Hypothesis tf_resolved : resolved tf.
Hypothesis tf'_resolved : resolved tf'.

Lemma alike_entry flags s i data total rs :
  same (benchmark_entry gettimeofday tf FLAG_IGNORE_GOLDEN_OUTPUT
           FLAG_DISCARD_INFERENCE_OUTPUT flags s i data total rs)
        (benchmark_entry gettimeofday tf' FLAG_IGNORE_GOLDEN_OUTPUT
           FLAG_DISCARD_INFERENCE_OUTPUT flags s i data total rs).
Proof.
  destruct tf_resolved as [Hb He], tf'_resolved as [Hb' He'].
  unfold benchmark_entry, timed_inference.
  destruct (ATrace_beginSection tf) as [a |]; [| congruence].
  destruct (ATrace_beginSection tf') as [a' |]; [| congruence].
  destruct (ATrace_endSection tf) as [e |]; [| congruence].
  destruct (ATrace_endSection tf') as [e' |]; [| congruence].
  apply alike_bind; [apply alike_call_trace | intros _].
  apply alike_bind; [apply alike_call_trace | intros _].
  apply alike_bind; [apply alike_provide_input | intros created].
  destruct created; cbn [negb];
    [| apply alike_bind; [apply alike_log | intros; apply alike_ret]].
  apply alike_bind; [apply alike_call_trace | intros _].
  apply alike_bind; [apply alike_clock | intros startTime].
  apply alike_bind; [apply alike_runInference | intros success].
  apply alike_bind; [apply alike_call_trace | intros _].
  apply alike_bind; [apply alike_clock | intros endTime].
  destruct success; cbn [negb];
    [| apply alike_bind; [apply alike_log | intros; apply alike_ret]].
  apply alike_bind.
  - destruct (_ =? 0); [| apply alike_ret].
    apply alike_bind; [apply alike_get | intros; apply alike_lift].
  - intros r1. apply alike_bind; [| intros; apply alike_ret].
    destruct (_ =? 0); [| apply alike_ret].
    apply alike_bind; [apply alike_get | intros; apply alike_ret].
Qed.

Lemma alike_sequence flags s seq : forall i total rs,
  same (benchmark_sequence gettimeofday tf FLAG_IGNORE_GOLDEN_OUTPUT
           FLAG_DISCARD_INFERENCE_OUTPUT flags s i seq total rs)
        (benchmark_sequence gettimeofday tf' FLAG_IGNORE_GOLDEN_OUTPUT
           FLAG_DISCARD_INFERENCE_OUTPUT flags s i seq total rs).
Proof.
  induction seq as [| data seq IH]; intros i total rs.
  - apply alike_ret.
  - cbn [benchmark_sequence].
    apply alike_bind; [apply alike_entry |].
    intros [[total1 |] rs1]; [apply IH | apply alike_ret].
Qed.

Lemma alike_loop inOutData timeout flags steps : forall k0 total rs,
  same (benchmark_loop gettimeofday tf FLAG_IGNORE_GOLDEN_OUTPUT
           FLAG_DISCARD_INFERENCE_OUTPUT inOutData timeout flags steps
           k0 total rs)
        (benchmark_loop gettimeofday tf' FLAG_IGNORE_GOLDEN_OUTPUT
           FLAG_DISCARD_INFERENCE_OUTPUT inOutData timeout flags steps
           k0 total rs).
Proof.
  induction steps as [| steps IH]; intros k0 total rs.
  - apply alike_ret.
  - cbn [benchmark_loop].
    apply alike_bind; [apply alike_resetStates | intros _].
    apply alike_bind; [apply alike_sequence |].
    intros [[total1 |] rs1]; [| apply alike_ret].
    destruct (F32.gt total1 timeout); [apply alike_ret | apply IH].
Qed.


End TraceTransparency.




(* ================================================================== *)
(** ** LayerDumper: the names of the files *)

Section DumpNames.

Lemma uint_digits (d : Decimal.uint) :
  Forall (fun c => is_digit c = true)
         (list_ascii_of_string (NilEmpty.string_of_uint d)).
Proof. induction d; simpl; constructor; auto. Qed.

Lemma precision3_digits (n : nat) :
  Forall (fun c => is_digit c = true) (precision3 n).
Proof.
  unfold precision3. apply Forall_app. split.
  - apply Forall_forall. intros c Hc. apply repeat_spec in Hc. subst c.
    reflexivity.
  - apply uint_digits.
Qed.

Lemma uint_of_zeros (k : nat) (d : Decimal.uint) :
  NilEmpty.uint_of_string
    (string_of_list_ascii
       (repeat "0"%char k
        ++ list_ascii_of_string (NilEmpty.string_of_uint d)))
  = Some (Nat.iter k Decimal.D0 d).
Proof.
  induction k as [| k IH]; simpl.
  - rewrite string_of_list_ascii_of_string. apply NilEmpty.usu.
  - rewrite IH. reflexivity.
Qed.

Lemma of_uint_zeros (k : nat) (d : Decimal.uint) :
  Nat.of_uint (Nat.iter k Decimal.D0 d) = Nat.of_uint d.
Proof.
  induction k as [| k IH]; [reflexivity |]. simpl. exact IH.
Qed.

(** The number can be read back from its conversion. *)
Lemma precision3_inj (n m : nat) : precision3 n = precision3 m -> n = m.
Proof.
  intros E.
  apply (f_equal (fun l => option_map Nat.of_uint
                   (NilEmpty.uint_of_string (string_of_list_ascii l)))) in E.
  unfold precision3, digits in E. rewrite !uint_of_zeros in E.
  simpl in E. rewrite !of_uint_zeros, !Unsigned.of_to in E.
  congruence.
Qed.

(** Two strings of digits followed by the same character that is not a
    digit end at the same place. *)
Lemma split_at_mark (a a' r r' : list ascii) (c : ascii) :
  Forall (fun x => is_digit x = true) a ->
  Forall (fun x => is_digit x = true) a' ->
  is_digit c = false ->
  (a ++ c :: r = a' ++ c :: r' -> a = a' /\ r = r')%list.
Proof.
  intros Ha. revert a'. induction Ha as [| x a Hx Ha IH]; intros a' Ha' Hc E.
  - destruct Ha' as [| x' a' Hx' Ha']; simpl in E.
    + injection E as ->. auto.
    + injection E as <- _. congruence.
  - destruct Ha' as [| x' a' Hx' Ha']; simpl in E.
    + injection E as -> _. congruence.
    + injection E as <- E. destruct (IH a' Ha' Hc E) as [-> ->]. auto.
Qed.

Lemma dump_chars_inj (path : string) (s i t s' i' t' : nat) :
  dump_chars path s i t = dump_chars path s' i' t' ->
  s = s' /\ i = i' /\ t = t'.
Proof.
  unfold dump_chars. intros E.
  apply app_inv_head in E. apply app_inv_head in E.
  apply split_at_mark in E;
    [| apply precision3_digits | apply precision3_digits | reflexivity].
  destruct E as [Es E]. apply precision3_inj in Es.
  apply (app_inv_head (list_ascii_of_string "seq_")) in E.
  apply split_at_mark in E;
    [| apply precision3_digits | apply precision3_digits | reflexivity].
  destruct E as [Ei E]. apply precision3_inj in Ei.
  apply (app_inv_head (list_ascii_of_string "tensor_")) in E.
  apply precision3_inj in E. auto.
Qed.

Lemma length_string_of_list_ascii (l : list ascii) :
  String.length (string_of_list_ascii l) = List.length l.
Proof. induction l; simpl; congruence. Qed.

Lemma length_list_ascii_of_string (s : string) :
  List.length (list_ascii_of_string s) = String.length s.
Proof. induction s; simpl; congruence. Qed.

Lemma firstn_short {A : Type} (n : nat) (l : list A) :
  (List.length (firstn n l) < n)%nat -> firstn n l = l.
Proof.
  intros Hl. apply firstn_all2.
  rewrite length_firstn in Hl. lia.
Qed.

(** A name of fewer than 1023 characters has not been cut. *)
Lemma dump_path_untruncated (path : string) (s i t : nat) :
  (String.length (dump_path path s i t) < 1023)%nat ->
  list_ascii_of_string (dump_path path s i t) = dump_chars path s i t.
Proof.
  unfold dump_path. rewrite length_string_of_list_ascii. intros Hl.
  rewrite list_ascii_of_string_of_list_ascii. apply firstn_short. exact Hl.
Qed.

Lemma dump_path_inj (path : string) (s i t s' i' t' : nat) :
  (String.length (dump_path path s i t) < 1023)%nat ->
  dump_path path s i t = dump_path path s' i' t' ->
  s = s' /\ i = i' /\ t = t'.
Proof.
  intros Hl E. apply (dump_chars_inj path).
  rewrite <- (dump_path_untruncated path s i t Hl).
  rewrite E in Hl |- *.
  apply dump_path_untruncated. exact Hl.
Qed.

Lemma precision3_below_1000 :
  forallb (fun n => String.eqb (string_of_list_ascii (precision3 n))
                               (string_of_list_ascii (three_digits n)))
          (seq 0 1000) = true.
Proof. vm_compute. reflexivity. Qed.

Lemma precision3_three_digits (n : nat) :
  (n < 1000)%nat -> precision3 n = three_digits n.
Proof.
  intros Hn.
  pose proof (proj1 (forallb_forall _ _) precision3_below_1000 n) as E.
  rewrite <- (list_ascii_of_string_of_list_ascii (precision3 n)),
    <- (list_ascii_of_string_of_list_ascii (three_digits n)).
  f_equal. apply String.eqb_eq. apply E. apply in_seq. lia.
Qed.

Lemma string_of_list_ascii_app (l l' : list ascii) :
  string_of_list_ascii (l ++ l')
  = (string_of_list_ascii l ++ string_of_list_ascii l')%string.
Proof. induction l; simpl; congruence. Qed.

End DumpNames.

(** X11. The name of a dump file that has not been cut by the buffer of
    1024 characters (it has fewer than 1023 characters) tells the
    sequence, the entry and the tensor it is of: under the same path,
    different indices give different names. *)
Theorem dump_path_injective (path : string) (s i t s' i' t' : nat) :
  (String.length (dump_path path s i t) < 1023)%nat ->
  (s, i, t) <> (s', i', t') ->
  dump_path path s i t <> dump_path path s' i' t'.
Proof.
  intros Hl Hne E. apply Hne.
  destruct (dump_path_inj path s i t s' i' t' Hl E) as (-> & -> & ->).
  reflexivity.
Qed.

Lemma dump_path_injective_witness :
  (String.length (dump_path "/data/local/tmp" 1 12 1234) < 1023)%nat /\
  ((1, 12, 1234) <> (11, 2, 1234))%nat /\
  (dump_path "/data/local/tmp" 1 12 1234
   <> dump_path "/data/local/tmp" 11 2 1234).
Proof.
  split; [vm_compute; lia |]. split; [discriminate |].
  apply (dump_path_injective "/data/local/tmp" 1 12 1234 11 2 1234).
  - vm_compute. lia.
  - discriminate.
Defined.

(** X12. For indices below 1000 and a path that leaves room for the 28
    characters that follow it, the name of a dump file is the path,
    then [/dump_], [_seq_] and [_tensor_], each followed by its index
    in exactly three decimal digits. *)
Theorem dump_path_three_digits (path : string) (s i t : nat) :
  (s < 1000)%nat -> (i < 1000)%nat -> (t < 1000)%nat ->
  (String.length path + 28 <= 1023)%nat ->
  dump_path path s i t
  = (path ++ "/dump_" ++ string_of_list_ascii (three_digits s)
          ++ "_seq_" ++ string_of_list_ascii (three_digits i)
          ++ "_tensor_" ++ string_of_list_ascii (three_digits t))%string.
Proof.
  intros Hs Hi Ht Hl. unfold dump_path, dump_chars.
  rewrite !precision3_three_digits by assumption.
  rewrite firstn_all2.
  - rewrite !string_of_list_ascii_app, !string_of_list_ascii_of_string.
    reflexivity.
  - rewrite !length_app, length_list_ascii_of_string. simpl. lia.
Qed.

Lemma dump_path_three_digits_witness :
  dump_path "/data/local/tmp" 1 12 123
  = "/data/local/tmp/dump_001_seq_012_tensor_123"%string.
Proof.
  apply (dump_path_three_digits "/data/local/tmp" 1 12 123);
    simpl; lia.
Defined.

(** X13. With a path of 1023 characters or more, the buffer holds the
    first 1023 characters of the path and nothing of the indices: all
    the tensors of all the entries are written to one and the same
    file name. *)
Theorem dump_path_long_path (path : string) (s i t s' i' t' : nat) :
  (1023 <= String.length path)%nat ->
  dump_path path s i t = dump_path path s' i' t'.
Proof.
  intros Hl.
  assert (E : forall a b c,
             dump_path path a b c
             = string_of_list_ascii (firstn 1023 (list_ascii_of_string path))).
  { intros a b c. unfold dump_path, dump_chars.
    rewrite firstn_app.
    replace (1023 - List.length (list_ascii_of_string path))%nat with 0%nat
      by (rewrite length_list_ascii_of_string; lia).
    rewrite firstn_O, app_nil_r. reflexivity. }
  rewrite !E. reflexivity.
Qed.

Lemma dump_path_long_path_witness :
  (1023 <= String.length (string_of_list_ascii (repeat "a"%char 1023)))%nat /\
  dump_path (string_of_list_ascii (repeat "a"%char 1023)) 0 0 0
  = dump_path (string_of_list_ascii (repeat "a"%char 1023)) 1 2 3.
Proof.
  split; [rewrite length_string_of_list_ascii, repeat_length; lia |].
  apply (dump_path_long_path (string_of_list_ascii (repeat "a"%char 1023))
                             0 0 0 1 2 3).
  rewrite length_string_of_list_ascii, repeat_length. lia.
Defined.

(* ================================================================== *)
(** ** LayerDumper: the files of a run *)

Section LayerDump.

Context {Interpreter : Type} `{TfLite Interpreter}
        `{TfLiteTensors Interpreter}.
Variable fopen_null : string -> bool.

Local Notation "'tensorsLoop'" := (dump_tensors fopen_null).
Local Notation "'sequence'" := (dump_sequence fopen_null).
Local Notation "'sequences'" := (dump_sequences fopen_null).

Lemma dump_tensors_inv path s i ts : forall t written written',
  tensorsLoop path s i t ts written = Done written' ->
  written' = written ++ tensor_files path s i t ts /\
  Forall (fun f => fopen_null (fst f) = false) (tensor_files path s i t ts).
Proof.
  induction ts as [| [raw_bytes |] ts IH]; intros t written written'; simpl.
  - intros [= <-]. rewrite app_nil_r. split; constructor.
  - destruct (fopen_null (dump_path path s i t)) eqn:Eopen; [discriminate |].
    intros E. apply IH in E. destruct E as [-> Hall].
    rewrite <- app_assoc. split; [reflexivity |].
    constructor; assumption.
  - apply IH.
Qed.

Lemma dump_tensors_runs path s i ts : forall t written,
  Forall (fun f => fopen_null (fst f) = false) (tensor_files path s i t ts) ->
  tensorsLoop path s i t ts written
  = Done (written ++ tensor_files path s i t ts).
Proof.
  induction ts as [| [raw_bytes |] ts IH]; intros t written Hall; simpl.
  - rewrite app_nil_r. reflexivity.
  - simpl in Hall. inversion Hall as [| f l Hf Hl]; subst.
    simpl in Hf. rewrite Hf, IH by assumption.
    rewrite <- app_assoc. reflexivity.
  - apply IH. exact Hall.
Qed.

Lemma dump_tensors_not_fatal path s i ts msg : forall t written,
  tensorsLoop path s i t ts written <> Fatal msg.
Proof.
  induction ts as [| [raw_bytes |] ts IH]; intros t written; simpl.
  - discriminate.
  - destruct (fopen_null _); [discriminate | apply IH].
  - apply IH.
Qed.

Lemma runInference_done (w : World Interpreter) :
  exists b w', runInference w = Done (b, w').
Proof.
  unfold runInference, bind, get_interpreter, put_interpreter,
    android_log_print, ret.
  destruct (Invoke (mTfliteInterpreter w)) as [[] interp']; eauto.
Qed.

Lemma setInput_ptr_not_fatal dataPtr n (w : World Interpreter) msg :
  setInput_ptr dataPtr n w <> Fatal msg.
Proof.
  destruct dataPtr as [dataPtr |]; simpl.
  - unfold setInput, bind, get_interpreter, put_interpreter,
      android_log_print, ret.
    destruct (type _); try discriminate; destruct (memcpy _ _ _); discriminate.
  - unfold bind, get_interpreter, android_log_print, ret.
    destruct (type _); discriminate.
Qed.

(** *** No file is written twice *)

Local Notation "'short'" :=
  (fun f : File => (String.length (fst f) < 1023)%nat).

Lemma tensor_files_names path s i ts : forall t name,
  In name (map fst (tensor_files path s i t ts)) ->
  exists t', (t <= t')%nat /\ name = dump_path path s i t'.
Proof.
  induction ts as [| [raw_bytes |] ts IH]; intros t name; simpl.
  - intros [].
  - intros [<- | Hin].
    + exists t. split; [lia | reflexivity].
    + destruct (IH _ _ Hin) as (t' & Ht & ->).
      exists t'. split; [lia | reflexivity].
  - intros Hin. destruct (IH _ _ Hin) as (t' & Ht & ->).
    exists t'. split; [lia | reflexivity].
Qed.

Lemma tensor_files_nodup path s i ts : forall t,
  Forall short (tensor_files path s i t ts) ->
  NoDup (map fst (tensor_files path s i t ts)).
Proof.
  induction ts as [| [raw_bytes |] ts IH]; intros t Hshort; simpl.
  - constructor.
  - simpl in Hshort. inversion Hshort as [| f l Hf Hl]; subst.
    simpl in Hf.
    constructor; [| apply IH; assumption].
    intros Hin. apply tensor_files_names in Hin.
    destruct Hin as (t' & Ht & E).
    apply dump_path_inj in E; [| exact Hf]. lia.
  - apply IH. exact Hshort.
Qed.

Lemma moment_files_names path (ms : list (DumpMoment Interpreter)) name :
  In name (map fst (flat_map (moment_files path) ms)) ->
  exists m t,
    In m ms /\
    name = dump_path path (fst (fst (dump_entry m)))
                     (snd (fst (dump_entry m))) t.
Proof.
  induction ms as [| m ms IH]; simpl.
  - intros [].
  - rewrite map_app, in_app_iff. intros [Hin | Hin].
    + apply tensor_files_names in Hin. destruct Hin as (t & _ & ->).
      exists m, t. auto.
    + destruct (IH Hin) as (m' & t & Hm & ->). exists m', t. auto.
Qed.

Lemma moment_files_nodup path (ms : list (DumpMoment Interpreter)) :
  NoDup (map (fun m : DumpMoment Interpreter => fst (dump_entry m)) ms) ->
  Forall short (flat_map (moment_files path) ms) ->
  NoDup (map fst (flat_map (moment_files path) ms)).
Proof.
  induction ms as [| m ms IH]; simpl; intros Hkeys Hshort.
  - constructor.
  - apply Forall_app in Hshort. destruct Hshort as [Hs1 Hs2].
    inversion Hkeys as [| k ks Hk Hks]; subst.
    rewrite map_app. apply NoDup_app.
    + apply tensor_files_nodup. exact Hs1.
    + apply IH; assumption.
    + intros name Hin1 Hin2.
      assert (Hlen : (String.length name < 1023)%nat).
      { apply in_map_iff in Hin1. destruct Hin1 as (f & <- & Hf).
        exact (proj1 (Forall_forall _ _) Hs1 f Hf). }
      apply tensor_files_names in Hin1. destruct Hin1 as (t & _ & E1).
      apply moment_files_names in Hin2.
      destruct Hin2 as (m' & t' & Hm' & E2).
      subst name. apply dump_path_inj in E2; [| exact Hlen].
      destruct E2 as (Es & Ei & _).
      apply Hk. apply in_map_iff. exists m'. split; [| exact Hm'].
      destruct (dump_entry m) as [[a0 b0] c0],
        (dump_entry m') as [[a1 b1] c1].
      simpl in *. congruence.
Qed.

Lemma dump_entries_keys s seq : forall i,
  map fst (dump_entries s i seq) = map (pair s) (List.seq i (length seq)).
Proof.
  induction seq as [| data seq IH]; intros i; [reflexivity |].
  simpl. rewrite IH. reflexivity.
Qed.

Lemma dump_schedule_first (inOutData : list InferenceInOutSequence) :
  forall s k, In k (map fst (dump_schedule s inOutData)) -> (s <= fst k)%nat.
Proof.
  induction inOutData as [| seq inOutData IH]; intros s k; simpl.
  - intros [].
  - rewrite map_app, in_app_iff, dump_entries_keys. intros [Hin | Hin].
    + apply in_map_iff in Hin. destruct Hin as (i & <- & _). simpl. lia.
    + apply IH in Hin. lia.
Qed.

(** Every entry is gone through under its own pair of indices. *)
Lemma dump_schedule_nodup (inOutData : list InferenceInOutSequence) :
  forall s, NoDup (map fst (dump_schedule s inOutData)).
Proof.
  induction inOutData as [| seq inOutData IH]; intros s; simpl.
  - constructor.
  - rewrite map_app. apply NoDup_app.
    + rewrite dump_entries_keys. apply NoDup_map_NoDup_ForallPairs.
      * intros x y _ _ [= ->]. reflexivity.
      * apply seq_NoDup.
    + apply IH.
    + intros k Hin1 Hin2. rewrite dump_entries_keys in Hin1.
      apply in_map_iff in Hin1. destruct Hin1 as (i & <- & _).
      apply dump_schedule_first in Hin2. simpl in Hin2. lia.
Qed.

Lemma setInput_ptr_state dataPtr n (w w' : World Interpreter) b data :
  input data = dataPtr -> input_size data = n ->
  setInput_ptr dataPtr n w = Done (b, w') ->
  mTfliteInterpreter w' = dump_input data (mTfliteInterpreter w).
Proof.
  intros <- <-. unfold dump_input. destruct (input data) as [dataPtr |]; simpl.
  - intros E. apply setInput_state in E. tauto.
  - unfold bind, get_interpreter, android_log_print, ret.
    destruct (type _); try discriminate; intros [= _ <-]; reflexivity.
Qed.

(** What a run of the loop over the entries of a sequence leaves: the
    entries gone through, each with the files of the tensors as its own
    invocation left them, and the entry whose invocation failed when
    there is one. *)
Lemma dump_sequence_moments path s seq : forall i written w b written' w',
  sequence path s i seq written w = Done ((b, written'), w') ->
  exists done rest,
    dump_moments s i seq (mTfliteInterpreter w) = done ++ rest /\
    written' = written ++ flat_map (moment_files path) done /\
    Forall (fun m => dump_fails m = false) done /\
    Forall (fun f => fopen_null (fst f) = false)
           (flat_map (moment_files path) done) /\
    if b
    then rest = [] /\
         mTfliteInterpreter w' = dump_state_after done (mTfliteInterpreter w)
    else exists m rest',
        rest = m :: rest' /\ dump_fails m = true /\
        inference_failed (snd (fst (dump_entry m))) w'.
Proof.
  induction seq as [| data seq IH]; intros i written w b written' w'.
  - simpl. unfold ret. intros [= <- <- <-].
    exists [], []. simpl. rewrite app_nil_r.
    repeat split; constructor.
  - cbn [dump_sequence dump_moments]. unfold bind at 1.
    destruct (setInput_ptr (input data) (input_size data) w)
      as [[b0 w0] | |] eqn:E0; try discriminate.
    apply (setInput_ptr_state _ _ _ _ _ data eq_refl eq_refl) in E0.
    unfold bind at 1.
    destruct (runInference w0) as [[success w1] | |] eqn:Erun;
      try discriminate.
    apply runInference_state in Erun. destruct Erun as [Einv _].
    rewrite E0 in Einv.
    destruct success; cbn [negb].
    + unfold bind at 1, get_interpreter at 1. unfold bind at 1, lift at 1.
      destruct (tensorsLoop path s i 0 (tensors (mTfliteInterpreter w1)) written)
        as [written1 | |] eqn:Edump; try discriminate.
      apply dump_tensors_inv in Edump. destruct Edump as [-> Hopen].
      intros Hrest. apply IH in Hrest.
      destruct Hrest as (done & rest & Hms & -> & Hok & Hopens & Hb).
      rewrite Einv. cbn [snd].
      exists (mkDumpMoment (s, i, data) (mTfliteInterpreter w)
                           (mTfliteInterpreter w1) :: done), rest.
      cbn [flat_map]. unfold moment_files at 1 3.
      cbn [dump_entry dump_after fst snd].
      rewrite Hms, <- app_assoc.
      split; [reflexivity |]. split; [reflexivity |].
      split.
      { constructor; [| exact Hok]. unfold dump_fails.
        cbn [dump_entry dump_before snd]. rewrite Einv. reflexivity. }
      split; [apply Forall_app; split; assumption |].
      destruct b; [| exact Hb].
      destruct Hb as [-> Hst]. split; [reflexivity | exact Hst].
    + unfold bind, android_log_print, ret. intros [= <- <- <-].
      exists [],
        (mkDumpMoment (s, i, data) (mTfliteInterpreter w)
                      (snd (Invoke (dump_input data (mTfliteInterpreter w))))
         :: dump_moments s (S i) seq
              (snd (Invoke (dump_input data (mTfliteInterpreter w))))).
      simpl. rewrite app_nil_r. repeat split; try constructor.
      do 2 eexists. split; [reflexivity |].
      split; [unfold dump_fails; cbn [dump_entry dump_before snd];
              rewrite Einv; reflexivity |].
      eexists. reflexivity.
Qed.

Lemma dump_sequences_moments path inOutData :
  forall s written w b written' w',
    sequences path s inOutData written w = Done ((b, written'), w') ->
    exists done rest,
      dump_timeline s inOutData (mTfliteInterpreter w) = done ++ rest /\
      written' = written ++ flat_map (moment_files path) done /\
      Forall (fun m => dump_fails m = false) done /\
      Forall (fun f => fopen_null (fst f) = false)
             (flat_map (moment_files path) done) /\
      if b then rest = []
      else exists m rest',
          rest = m :: rest' /\ dump_fails m = true /\
          inference_failed (snd (fst (dump_entry m))) w'.
Proof.
  induction inOutData as [| seq inOutData IH]; intros s written w b written' w'.
  - simpl. unfold ret. intros [= <- <- <-].
    exists [], []. simpl. rewrite app_nil_r. repeat split; constructor.
  - cbn [dump_sequences dump_timeline]. unfold bind at 1.
    destruct (resetStates w) as [[b0 w0] | |] eqn:E0; try discriminate.
    apply resetStates_state in E0. destruct E0 as [Hi0 _].
    unfold bind at 1.
    destruct (sequence path s 0 seq written w0)
      as [[[b1 written1] w1] | |] eqn:E1; try discriminate.
    apply dump_sequence_moments in E1.
    destruct E1 as (done1 & rest1 & Hms1 & -> & Hok1 & Hopen1 & Hb1).
    rewrite Hi0 in Hms1.
    destruct b1.
    + destruct Hb1 as [-> Hst1]. rewrite app_nil_r in Hms1.
      rewrite Hi0, <- Hms1 in Hst1.
      intros Hrest. apply IH in Hrest.
      destruct Hrest as (done & rest & Hms & -> & Hok & Hopens & Hb).
      exists (done1 ++ done), rest.
      rewrite <- Hst1, Hms, Hms1, flat_map_app, <- !app_assoc.
      split; [reflexivity |]. split; [reflexivity |].
      split; [apply Forall_app; split; assumption |].
      split; [apply Forall_app; split; assumption | exact Hb].
    + unfold ret. intros [= <- <- <-].
      destruct Hb1 as (m & rest' & -> & Hfail).
      exists done1,
        ((m :: rest')
         ++ dump_timeline (S s) inOutData
              (dump_state_after
                 (dump_moments s 0 seq (reset_state (mTfliteInterpreter w)))
                 (reset_state (mTfliteInterpreter w)))).
      rewrite Hms1, <- app_assoc.
      split; [reflexivity |]. split; [reflexivity |].
      split; [assumption |]. split; [assumption |].
      do 2 eexists. split; [reflexivity | exact Hfail].
Qed.

Lemma dump_moments_entries s seq : forall i (interp : Interpreter),
  map (@dump_entry _) (dump_moments s i seq interp) = dump_entries s i seq.
Proof.
  induction seq as [| data seq IH]; intros i interp; [reflexivity |].
  simpl. rewrite IH. reflexivity.
Qed.

Lemma dump_timeline_entries (inOutData : list InferenceInOutSequence) :
  forall s (interp : Interpreter),
    map (@dump_entry _) (dump_timeline s inOutData interp)
    = dump_schedule s inOutData.
Proof.
  induction inOutData as [| seq l IH]; intros s interp; [reflexivity |].
  cbn [dump_timeline dump_schedule].
  rewrite map_app, dump_moments_entries, IH. reflexivity.
Qed.

(** *** What the disk holds *)

Lemma disk_after_snoc (disk : Disk) (ws : list File) (f : File) :
  disk_after disk (ws ++ [f]) = write_file (disk_after disk ws) f.
Proof. unfold disk_after. rewrite fold_left_app. reflexivity. Qed.

(** A name that is not written keeps its file. *)
Lemma disk_after_other (ws : list File) : forall (disk : Disk) name,
  ~ In name (map fst ws) -> disk_after disk ws name = disk name.
Proof.
  induction ws as [| f ws IH] using rev_ind; intros disk name Hn;
    [reflexivity |].
  rewrite disk_after_snoc. unfold write_file.
  rewrite map_app, in_app_iff in Hn. cbn [map In] in Hn.
  destruct (String.eqb_spec name (fst f)) as [-> | _]; [tauto |].
  apply IH. tauto.
Qed.

(** A name that is written holds the bytes of one of its writes. *)
Lemma disk_after_written (ws : list File) : forall (disk : Disk) name,
  In name (map fst ws) ->
  exists raw_bytes,
    disk_after disk ws name = Some raw_bytes /\ In (name, raw_bytes) ws.
Proof.
  induction ws as [| f ws IH] using rev_ind; intros disk name Hn;
    [destruct Hn |].
  rewrite disk_after_snoc. unfold write_file.
  destruct (String.eqb_spec name (fst f)) as [-> | Hne].
  - exists (snd f). split; [reflexivity |].
    apply in_or_app. right. left. destruct f; reflexivity.
  - rewrite map_app, in_app_iff in Hn. cbn [map In] in Hn.
    destruct Hn as [Hn | [Hn | []]]; [| congruence].
    destruct (IH disk name Hn) as (raw_bytes & E & Hin).
    exists raw_bytes. split; [exact E | apply in_or_app; left; exact Hin].
Qed.

Lemma tensor_files_member path s i ts : forall t name raw_bytes,
  In (name, raw_bytes) (tensor_files path s i t ts) <->
  exists k, name = dump_path path s i (t + k)
            /\ nth_error ts k = Some (Some raw_bytes).
Proof.
  induction ts as [| [r0 |] ts IH]; intros t name raw_bytes; simpl.
  - split; [intros [] | intros (k & _ & E); destruct k; discriminate].
  - rewrite IH. split.
    + intros [[= <- <-] | (k & -> & E)].
      * exists 0%nat. rewrite Nat.add_0_r. auto.
      * exists (S k). split; [f_equal; lia | exact E].
    + intros ([| k] & -> & E).
      * left. rewrite Nat.add_0_r. simpl in E. congruence.
      * right. exists k. split; [f_equal; lia | exact E].
  - rewrite IH. split.
    + intros (k & -> & E). exists (S k). split; [f_equal; lia | exact E].
    + intros ([| k] & -> & E); [discriminate |].
      exists k. split; [f_equal; lia | exact E].
Qed.

Lemma NoDup_map_eq {A B : Type} (f : A -> B) (l : list A) (x y : A) :
  NoDup (map f l) -> In x l -> In y l -> f x = f y -> x = y.
Proof.
  induction l as [| a l IH]; intros Hnd Hx Hy E; [destruct Hx |].
  cbn [map] in Hnd. inversion Hnd as [| ? ? Hna Hnd']; subst.
  destruct Hx as [-> | Hx], Hy as [-> | Hy].
  - reflexivity.
  - exfalso. apply Hna. rewrite E. apply in_map. exact Hy.
  - exfalso. apply Hna. rewrite <- E. apply in_map. exact Hx.
  - apply IH; assumption.
Qed.

(** X14. The files of a run of [dumpAllLayers] that returns.  The
    sequences are gone through once each, in order, under their own
    indices.  For every entry gone through, the tensors that have
    storage are written in the order of their indices, each to a file
    that could be opened, with the bytes they hold after the invocation
    of that very entry in this run.  The run returns true when it has
    gone through all the entries, and false at the first entry whose
    invocation fails, with the log line of that entry last and nothing
    written for it.  On the disk, a file of the run whose name has not
    been cut by the buffer holds afterwards the bytes of its tensor,
    whatever file of that name there was before, and the files under
    names the run has not written are as they were. *)
Theorem dumpAllLayers_files path (inOutData : list InferenceInOutSequence)
    written w b written' w' :
  dumpAllLayers fopen_null path inOutData written w
  = Done ((b, written'), w') ->
  exists done rest,
    dump_timeline 0 inOutData (mTfliteInterpreter w) = done ++ rest /\
    dump_schedule 0 inOutData
    = map (@dump_entry _) done ++ map (@dump_entry _) rest /\
    written' = written ++ flat_map (moment_files path) done /\
    Forall (fun m => dump_fails m = false) done /\
    Forall (fun f => fopen_null (fst f) = false)
           (flat_map (moment_files path) done) /\
    (if b then rest = []
     else exists m rest',
         rest = m :: rest' /\ dump_fails m = true /\
         inference_failed (snd (fst (dump_entry m))) w') /\
    (forall (disk : Disk) m t raw_bytes,
        In m done ->
        nth_error (tensors (dump_after m)) t = Some (Some raw_bytes) ->
        (String.length (dump_path path (fst (fst (dump_entry m)))
                                  (snd (fst (dump_entry m))) t) < 1023)%nat ->
        disk_after disk (flat_map (moment_files path) done)
                   (dump_path path (fst (fst (dump_entry m)))
                              (snd (fst (dump_entry m))) t)
        = Some raw_bytes) /\
    (forall (disk : Disk) name,
        ~ In name (map fst (flat_map (moment_files path) done)) ->
        disk_after disk (flat_map (moment_files path) done) name
        = disk name).
Proof.
  unfold dumpAllLayers. destruct inOutData as [| seq inOutData];
    [discriminate |].
  intros Hrun. apply dump_sequences_moments in Hrun.
  destruct Hrun as (done & rest & Htl & Hw & Hok & Hopen & Hb).
  exists done, rest.
  assert (Hsched : dump_schedule 0 (seq :: inOutData)
                   = map (@dump_entry _) done ++ map (@dump_entry _) rest)
    by (rewrite <- map_app, <- Htl; symmetry; apply dump_timeline_entries).
  do 6 (split; [assumption |]).
  split; [| intros disk name; apply disk_after_other].
  intros disk m t raw_bytes Hm Hnth Hlen.
  assert (Hin : In (dump_path path (fst (fst (dump_entry m)))
                              (snd (fst (dump_entry m))) t, raw_bytes)
                   (flat_map (moment_files path) done)).
  { apply in_flat_map. exists m. split; [exact Hm |].
    unfold moment_files. apply tensor_files_member.
    exists t. split; [reflexivity | exact Hnth]. }
  destruct (disk_after_written (flat_map (moment_files path) done) disk
              (dump_path path (fst (fst (dump_entry m)))
                         (snd (fst (dump_entry m))) t)
              (in_map fst _ _ Hin))
    as (raw' & E & Hin').
  rewrite E. f_equal.
  apply in_flat_map in Hin'. destruct Hin' as (m' & Hm' & Hin').
  unfold moment_files in Hin'. apply tensor_files_member in Hin'.
  destruct Hin' as (t' & Ename & Hnth'). cbn [Nat.add] in Ename.
  apply dump_path_inj in Ename; [| exact Hlen].
  destruct Ename as (Es & Ei & <-).
  assert (Hkeys : NoDup (map (fun m0 : DumpMoment Interpreter
                               => fst (dump_entry m0)) done)).
  { pose proof (dump_schedule_nodup (seq :: inOutData) 0) as Hnd.
    rewrite Hsched, map_app in Hnd. apply NoDup_app_remove_r in Hnd.
    rewrite map_map in Hnd. exact Hnd. }
  assert (Em : m = m').
  { apply (NoDup_map_eq _ _ _ _ Hkeys Hm Hm').
    destruct (dump_entry m) as [[a0 b0] c0], (dump_entry m') as [[a1 b1] c1].
    simpl in *. congruence. }
  subst m'. congruence.
Qed.

(** X15. In a run of [dumpAllLayers] that returns, if none of the names
    of the files it wrote has been cut by the buffer (each has fewer
    than 1023 characters), then no two of these files have the same
    name: no dump of the run overwrites another of the same run. *)
Theorem dumpAllLayers_no_overwrite path
    (inOutData : list InferenceInOutSequence) written w b written' w' :
  dumpAllLayers fopen_null path inOutData written w
  = Done ((b, written'), w') ->
  Forall short (skipn (length written) written') ->
  NoDup (map fst (skipn (length written) written')).
Proof.
  intros Hrun. unfold dumpAllLayers in Hrun.
  destruct inOutData as [| seq inOutData]; [discriminate |].
  apply dump_sequences_moments in Hrun.
  destruct Hrun as (done & rest & Htl & -> & _).
  rewrite skipn_app, skipn_all, Nat.sub_diag. simpl.
  intros Hshort. apply moment_files_nodup; [| exact Hshort].
  pose proof (dump_schedule_nodup (seq :: inOutData) 0) as Hnd.
  rewrite <- (dump_timeline_entries (seq :: inOutData) 0
                (mTfliteInterpreter w)), Htl, !map_app in Hnd.
  apply NoDup_app_remove_r in Hnd. rewrite !map_map in Hnd. exact Hnd.
Qed.

(** *** Runs that go through all the entries *)

Lemma runInference_ok (w : World Interpreter) interp' :
  Invoke (mTfliteInterpreter w) = (kTfLiteOk, interp') ->
  exists w', runInference w = Done (true, w') /\
             mTfliteInterpreter w' = interp'.
Proof.
  intros E. unfold runInference, bind, get_interpreter, put_interpreter, ret.
  rewrite E. eexists. split; reflexivity.
Qed.

Lemma resetStates_interpreter (w : World Interpreter) :
  exists b w',
    resetStates w = Done (b, w') /\
    mTfliteInterpreter w'
    = snd (ResetVariableTensorsToZero (mTfliteInterpreter w)).
Proof.
  unfold resetStates, bind, get_interpreter, put_interpreter,
    android_log_print, ret.
  destruct (ResetVariableTensorsToZero (mTfliteInterpreter w))
    as [[] interp']; do 2 eexists; split; reflexivity.
Qed.

Lemma tensor_files_dump_names path s i ts : forall t,
  map fst (tensor_files path s i t ts)
  = dump_names path s i t (map has_storage ts).
Proof.
  induction ts as [| [raw_bytes |] ts IH]; intros t; simpl;
    [reflexivity | rewrite IH; reflexivity | apply IH].
Qed.

Lemma dumpAllLayers_nonempty path (l : list InferenceInOutSequence) written w :
  l <> [] ->
  dumpAllLayers fopen_null path l written w = sequences path 0 l written w.
Proof. destruct l; [contradiction | reflexivity]. Qed.

Section DumpRuns.

(** A property of the interpreter that holds at the start, that
    resetting keeps, and from which every entry can be given to the
    interpreter and inferred, leaving the property and the tensors
    that [alloc] tells with storage. *)
Variable Ready : Interpreter -> Prop.
Variable alloc : list bool.
Variable path : string.
Variable inOutData : list InferenceInOutSequence.

Hypothesis files_open :
  forall s i t, fopen_null (dump_path path s i t) = false.

Hypothesis reset_ready :
  forall interp, Ready interp ->
                 Ready (snd (ResetVariableTensorsToZero interp)).

Hypothesis entries_ok :
  forall seq data interp,
    In seq inOutData -> In data seq -> Ready interp ->
    exists dataPtr raw' interp',
      input data = Some dataPtr /\
      (type (input0 interp) = kTfLiteFloat32 \/
       type (input0 interp) = kTfLiteUInt8) /\
      memcpy (raw (input0 interp)) dataPtr (input_size data) = Some raw' /\
      Invoke (store_input0 raw' interp) = (kTfLiteOk, interp') /\
      Ready interp' /\
      map has_storage (tensors interp') = alloc.

Lemma tensor_files_open s i ts : forall t,
  Forall (fun f => fopen_null (fst f) = false) (tensor_files path s i t ts).
Proof.
  induction ts as [| [raw_bytes |] ts IH]; intros t; simpl.
  - constructor.
  - constructor; [apply files_open | apply IH].
  - apply IH.
Qed.

Lemma dump_sequence_runs seq s : In seq inOutData ->
  forall seq' i written w,
    incl seq' seq -> Ready (mTfliteInterpreter w) ->
    exists new w',
      sequence path s i seq' written w = Done ((true, written ++ new), w') /\
      Ready (mTfliteInterpreter w') /\
      map fst new
      = flat_map (fun e : nat * nat * InferenceInOut =>
                    dump_names path (fst (fst e)) (snd (fst e)) 0 alloc)
                 (dump_entries s i seq').
Proof.
  intros Hseq. induction seq' as [| data seq' IH]; intros i written w Hincl Hw.
  - exists [], w. simpl. rewrite app_nil_r. auto.
  - assert (Hin : In data seq) by (apply Hincl; left; reflexivity).
    destruct (entries_ok seq data (mTfliteInterpreter w) Hseq Hin Hw)
      as (dataPtr & raw' & interp' & Hinput & Hty & Hcpy & Hinv & Hready
          & Halloc).
    destruct (setInput_copies dataPtr (input_size data) w raw' Hty Hcpy)
      as (w0 & Hset & Hw0).
    rewrite <- Hw0 in Hinv.
    destruct (runInference_ok w0 interp' Hinv) as (w1 & Hrun & Hw1).
    destruct (IH (S i)
                 (written ++ tensor_files path s i 0 (tensors interp')) w1)
      as (new & w' & Hrest & Hw' & Hnames);
      [intros x Hx; apply Hincl; right; exact Hx | rewrite Hw1; exact Hready |].
    exists (tensor_files path s i 0 (tensors interp') ++ new), w'.
    cbn [dump_sequence]. rewrite Hinput. cbn [setInput_ptr].
    unfold bind at 1. rewrite Hset. unfold bind at 1. rewrite Hrun.
    cbn [negb]. unfold bind at 1, get_interpreter at 1.
    unfold bind at 1, lift at 1. rewrite Hw1.
    rewrite dump_tensors_runs by apply tensor_files_open.
    rewrite Hrest, <- app_assoc.
    split; [reflexivity |]. split; [exact Hw' |].
    unfold File in *.
    rewrite map_app, Hnames, tensor_files_dump_names, Halloc. reflexivity.
Qed.

Lemma dump_sequences_runs : forall l s written w,
  incl l inOutData -> Ready (mTfliteInterpreter w) ->
  exists new w',
    sequences path s l written w = Done ((true, written ++ new), w') /\
    map fst new
    = flat_map (fun e : nat * nat * InferenceInOut =>
                  dump_names path (fst (fst e)) (snd (fst e)) 0 alloc)
               (dump_schedule s l).
Proof.
  induction l as [| seq l IH]; intros s written w Hincl Hw.
  - exists [], w. simpl. rewrite app_nil_r. auto.
  - assert (Hseq : In seq inOutData) by (apply Hincl; left; reflexivity).
    destruct (resetStates_interpreter w) as (b0 & w0 & Hreset & Hw0).
    destruct (dump_sequence_runs seq s Hseq seq 0 written w0 (incl_refl seq))
      as (new1 & w1 & Hrun1 & Hw1 & Hnames1);
      [rewrite Hw0; apply reset_ready; exact Hw |].
    destruct (IH (S s) (written ++ new1) w1) as (new2 & w2 & Hrun2 & Hnames2);
      [intros x Hx; apply Hincl; right; exact Hx | exact Hw1 |].
    exists (new1 ++ new2), w2.
    cbn [dump_sequences dump_schedule]. unfold bind at 1. rewrite Hreset.
    unfold bind at 1. rewrite Hrun1, Hrun2, <- app_assoc.
    split; [reflexivity |].
    unfold File in *.
    rewrite map_app, flat_map_app, Hnames1, Hnames2. reflexivity.
Qed.

(** X16. A run of [dumpAllLayers] in which nothing fails: when every
    entry has an input that fits the input tensor of a supported type,
    every inference succeeds, the same tensors have storage after each
    inference and every file can be opened, then whatever the resets
    report the call returns true and writes, after the writes made
    before, for every entry of every sequence in order, one file for
    each tensor that has storage, under the name of the sequence, the
    entry and the tensor.  On the disk, each of these names holds
    afterwards the bytes of a write of the run, whatever file of that
    name there was before, and the files under other names are as they
    were. *)
Theorem dumpAllLayers_runs written w :
  inOutData <> [] ->
  Ready (mTfliteInterpreter w) ->
  exists new w',
    dumpAllLayers fopen_null path inOutData written w
    = Done ((true, written ++ new), w') /\
    map fst new
    = flat_map (fun e : nat * nat * InferenceInOut =>
                  dump_names path (fst (fst e)) (snd (fst e)) 0 alloc)
               (dump_schedule 0 inOutData) /\
    (forall (disk : Disk) name,
        In name (map fst new) ->
        exists raw_bytes,
          disk_after disk new name = Some raw_bytes /\
          In (name, raw_bytes) new) /\
    (forall (disk : Disk) name,
        ~ In name (map fst new) -> disk_after disk new name = disk name).
Proof.
  intros Hne Hw. rewrite dumpAllLayers_nonempty by exact Hne.
  destruct (dump_sequences_runs inOutData 0 written w (incl_refl _) Hw)
    as (new & w' & Hrun & Hnames).
  exists new, w'. split; [exact Hrun |]. split; [exact Hnames |].
  split; intros disk name.
  - apply disk_after_written.
  - apply disk_after_other.
Qed.

End DumpRuns.

(** *** What ends a run *)

Lemma dump_sequence_not_fatal path s seq msg : forall i written w,
  sequence path s i seq written w <> Fatal msg.
Proof.
  induction seq as [| data seq IH]; intros i written w.
  - discriminate.
  - cbn [dump_sequence]. unfold bind at 1.
    destruct (setInput_ptr (input data) (input_size data) w)
      as [[b0 w0] | m |] eqn:E0;
      [| exfalso; eapply setInput_ptr_not_fatal; exact E0 | discriminate].
    unfold bind at 1.
    destruct (runInference_done w0) as (success & w1 & ->).
    destruct success; cbn [negb].
    + unfold bind at 1, get_interpreter at 1. unfold bind at 1, lift at 1.
      destruct (tensorsLoop path s i 0 _ written) as [written1 | m |] eqn:E1;
        [apply IH | | discriminate].
      exfalso. eapply dump_tensors_not_fatal. exact E1.
    + unfold bind, android_log_print, ret. discriminate.
Qed.

Lemma dump_sequences_not_fatal path inOutData msg : forall s written w,
  sequences path s inOutData written w <> Fatal msg.
Proof.
  induction inOutData as [| seq inOutData IH]; intros s written w.
  - discriminate.
  - cbn [dump_sequences]. unfold bind at 1.
    destruct (resetStates_done w) as (b0 & w0 & ->).
    unfold bind at 1.
    destruct (sequence path s 0 seq written w0)
      as [[[[] written1] w1] | m |] eqn:E1.
    + apply IH.
    + discriminate.
    + exfalso. eapply dump_sequence_not_fatal. exact E1.
    + discriminate.
Qed.

(** X17. [dumpAllLayers] ends in [FATAL] exactly when the vector of
    sequences is empty: neither an input tensor of an unsupported type,
    nor a failing inference, nor a failing reset ends it so. *)
Theorem dumpAllLayers_fatal path (inOutData : list InferenceInOutSequence)
    written w :
  (exists msg, dumpAllLayers fopen_null path inOutData written w = Fatal msg)
  <-> inOutData = [].
Proof.
  split.
  - intros [msg E]. destruct inOutData as [| seq l]; [reflexivity |].
    exfalso. revert E. apply dump_sequences_not_fatal.
  - intros ->. eexists. reflexivity.
Qed.

(** X18. [dumpAllLayers] does not use the callback that fills the
    input: an entry without input bytes ([input] is a null pointer) is
    handed to [setInput] as it is, and with an input tensor of a
    supported type the copy from the null pointer leaves the run
    without defined behaviour. *)
Theorem dumpAllLayers_null_input path data seq rest written w :
  input data = None ->
  type (input0 (snd (ResetVariableTensorsToZero (mTfliteInterpreter w))))
  = kTfLiteFloat32 \/
  type (input0 (snd (ResetVariableTensorsToZero (mTfliteInterpreter w))))
  = kTfLiteUInt8 ->
  dumpAllLayers fopen_null path ((data :: seq) :: rest) written w = Undefined.
Proof.
  intros Hinput Hty. unfold dumpAllLayers. cbn [dump_sequences].
  destruct (resetStates_interpreter w) as (b0 & w0 & Hreset & Hw0).
  unfold bind at 1. rewrite Hreset. unfold bind at 1.
  cbn [dump_sequence]. rewrite Hinput. cbn [setInput_ptr].
  unfold bind at 1. unfold bind at 1, get_interpreter at 1.
  rewrite Hw0. destruct Hty as [-> | ->]; reflexivity.
Qed.

(** *** What a dump leaves alone *)

Lemma setInput_ptr_frame dataPtr n (w w' : World Interpreter) b :
  setInput_ptr dataPtr n w = Done (b, w') ->
  clock_reads w' = clock_reads w /\ systrace w' = systrace w.
Proof.
  destruct dataPtr as [dataPtr |]; simpl.
  - unfold setInput, bind, get_interpreter, put_interpreter,
      android_log_print, ret.
    destruct (type _); try (intros [= _ <-]; split; reflexivity);
      destruct (memcpy _ _ _); try discriminate;
      intros [= _ <-]; split; reflexivity.
  - unfold bind, get_interpreter, android_log_print, ret.
    destruct (type _); try discriminate; intros [= _ <-]; split; reflexivity.
Qed.

Lemma runInference_frame (w w' : World Interpreter) b :
  runInference w = Done (b, w') ->
  clock_reads w' = clock_reads w /\ systrace w' = systrace w.
Proof.
  unfold runInference, bind, get_interpreter, put_interpreter,
    android_log_print, ret.
  destruct (Invoke (mTfliteInterpreter w)) as [[] interp'];
    intros [= _ <-]; split; reflexivity.
Qed.

Lemma resetStates_frame (w w' : World Interpreter) b :
  resetStates w = Done (b, w') ->
  clock_reads w' = clock_reads w /\ systrace w' = systrace w.
Proof.
  unfold resetStates, bind, get_interpreter, put_interpreter,
    android_log_print, ret.
  destruct (ResetVariableTensorsToZero _) as [[] ?];
    intros [= _ <-]; split; reflexivity.
Qed.

Lemma dump_sequence_frame path s seq : forall i written w r w',
  sequence path s i seq written w = Done (r, w') ->
  clock_reads w' = clock_reads w /\ systrace w' = systrace w.
Proof.
  induction seq as [| data seq IH]; intros i written w r w'.
  - simpl. unfold ret. intros [= _ <-]. split; reflexivity.
  - cbn [dump_sequence]. unfold bind at 1.
    destruct (setInput_ptr (input data) (input_size data) w)
      as [[b0 w0] | |] eqn:E0; try discriminate.
    apply setInput_ptr_frame in E0. destruct E0 as [Hc0 Ht0].
    unfold bind at 1.
    destruct (runInference w0) as [[success w1] | |] eqn:E1;
      try discriminate.
    apply runInference_frame in E1. destruct E1 as [Hc1 Ht1].
    destruct success; cbn [negb].
    + unfold bind at 1, get_interpreter at 1. unfold bind at 1, lift at 1.
      destruct (tensorsLoop path s i 0 _ written) as [written1 | |];
        try discriminate.
      intros Hrest. apply IH in Hrest. destruct Hrest as [Hc Ht].
      split; congruence.
    + unfold bind, android_log_print, ret. intros [= _ <-]. simpl.
      split; congruence.
Qed.

Lemma dump_sequences_frame path inOutData : forall s written w r w',
  sequences path s inOutData written w = Done (r, w') ->
  clock_reads w' = clock_reads w /\ systrace w' = systrace w.
Proof.
  induction inOutData as [| seq inOutData IH]; intros s written w r w'.
  - simpl. unfold ret. intros [= _ <-]. split; reflexivity.
  - cbn [dump_sequences]. unfold bind at 1.
    destruct (resetStates w) as [[b0 w0] | |] eqn:E0; try discriminate.
    apply resetStates_frame in E0. destruct E0 as [Hc0 Ht0].
    unfold bind at 1.
    destruct (sequence path s 0 seq written w0)
      as [[[[] written1] w1] | |] eqn:E1; try discriminate.
    + apply dump_sequence_frame in E1. destruct E1 as [Hc1 Ht1].
      intros Hrest. apply IH in Hrest. destruct Hrest as [Hc Ht].
      split; congruence.
    + apply dump_sequence_frame in E1. destruct E1 as [Hc1 Ht1].
      unfold ret. intros [= _ <-]. split; congruence.
Qed.

(** X19. A dump is neither timed nor traced: a run of [dumpAllLayers]
    that returns has not read the clock and has called no trace
    function, whether it returns true or false. *)
Theorem dumpAllLayers_untimed path (inOutData : list InferenceInOutSequence)
    written w r w' :
  dumpAllLayers fopen_null path inOutData written w = Done (r, w') ->
  clock_reads w' = clock_reads w /\ systrace w' = systrace w.
Proof.
  unfold dumpAllLayers. destruct inOutData as [| seq inOutData];
    [discriminate |].
  apply dump_sequences_frame.
Qed.

End LayerDump.

(** *** Dumps of the small engine *)

Lemma dumpAllLayers_files_witness :
  exists written' w',
    dumpAllLayers (fun _ => false) "/data/local/tmp"
      [[Toy.entry "005" "003"; Toy.entry "001" "004"];
       [Toy.entry "255" "000"; Toy.entry "002" "002"]] []
      (Toy.world (Toy.one_byte kTfLiteUInt8))
    = Done ((false, written'), w') /\
    written'
    = [("/data/local/tmp/dump_000_seq_000_tensor_000"%string, ["005"%byte]);
       ("/data/local/tmp/dump_000_seq_000_tensor_002"%string, ["005"%byte]);
       ("/data/local/tmp/dump_000_seq_001_tensor_000"%string, ["001"%byte]);
       ("/data/local/tmp/dump_000_seq_001_tensor_002"%string, ["001"%byte])] /\
    disk_after
      (fun name =>
         if String.eqb name
                       "/data/local/tmp/dump_000_seq_001_tensor_002"%string
         then Some ["077"%byte; "078"%byte] else None)
      written' "/data/local/tmp/dump_000_seq_001_tensor_002"%string
    = Some ["001"%byte] /\
    exists done rest,
      dump_timeline 0
        [[Toy.entry "005" "003"; Toy.entry "001" "004"];
         [Toy.entry "255" "000"; Toy.entry "002" "002"]]
        (mTfliteInterpreter (Toy.world (Toy.one_byte kTfLiteUInt8)))
      = done ++ rest /\
      dump_schedule 0
        [[Toy.entry "005" "003"; Toy.entry "001" "004"];
         [Toy.entry "255" "000"; Toy.entry "002" "002"]]
      = map (@dump_entry Toy.Interp) done
        ++ map (@dump_entry Toy.Interp) rest /\
      written' = [] ++ flat_map (moment_files "/data/local/tmp") done /\
      Forall (fun m => dump_fails m = false) done /\
      Forall (fun f : File => (fun _ : string => false) (fst f) = false)
             (flat_map (moment_files "/data/local/tmp") done) /\
      (exists m rest',
          rest = m :: rest' /\ dump_fails m = true /\
          inference_failed (snd (fst (dump_entry m))) w') /\
      (forall (disk : Disk) m t raw_bytes,
          In m done ->
          nth_error (tensors (dump_after m)) t = Some (Some raw_bytes) ->
          (String.length (dump_path "/data/local/tmp"
                                    (fst (fst (dump_entry m)))
                                    (snd (fst (dump_entry m))) t)
           < 1023)%nat ->
          disk_after disk (flat_map (moment_files "/data/local/tmp") done)
                     (dump_path "/data/local/tmp"
                                (fst (fst (dump_entry m)))
                                (snd (fst (dump_entry m))) t)
          = Some raw_bytes) /\
      (forall (disk : Disk) name,
          ~ In name (map fst (flat_map (moment_files "/data/local/tmp")
                                       done)) ->
          disk_after disk (flat_map (moment_files "/data/local/tmp") done)
                     name
          = disk name).
Proof.
  do 2 eexists. split; [vm_compute; reflexivity |].
  split; [reflexivity |]. split; [reflexivity |].
  refine (dumpAllLayers_files (fun _ => false) "/data/local/tmp"
            [[Toy.entry "005" "003"; Toy.entry "001" "004"];
             [Toy.entry "255" "000"; Toy.entry "002" "002"]] []
            (Toy.world (Toy.one_byte kTfLiteUInt8)) false
            [("/data/local/tmp/dump_000_seq_000_tensor_000"%string,
              ["005"%byte]);
             ("/data/local/tmp/dump_000_seq_000_tensor_002"%string,
              ["005"%byte]);
             ("/data/local/tmp/dump_000_seq_001_tensor_000"%string,
              ["001"%byte]);
             ("/data/local/tmp/dump_000_seq_001_tensor_002"%string,
              ["001"%byte])]
            (mkWorld
               (Toy.mkInterp (mkTensor kTfLiteUInt8 ["255"%byte])
                             (mkTensor kTfLiteUInt8 ["001"%byte]))
               0
               [mkLog ANDROID_LOG_ERROR "Failed to invoke: %d!" [1];
                mkLog ANDROID_LOG_ERROR "Inference %d failed" [0]]
               []) _).
  vm_compute. reflexivity.
Defined.

Lemma dumpAllLayers_no_overwrite_witness :
  exists b written' w',
    dumpAllLayers (fun _ => false) "/data/local/tmp"
      [[Toy.entry "005" "003"; Toy.entry "001" "004"];
       [Toy.entry "255" "000"; Toy.entry "002" "002"]] []
      (Toy.world (Toy.one_byte kTfLiteUInt8))
    = Done ((b, written'), w') /\
    length written' = 4%nat /\
    Forall (fun f : File => (String.length (fst f) < 1023)%nat)
           (skipn (length (@nil File)) written') /\
    NoDup (map fst (skipn (length (@nil File)) written')).
Proof.
  do 3 eexists. split; [vm_compute; reflexivity |].
  split; [reflexivity |].
  assert (Hshort :
    Forall (fun f : File => (String.length (fst f) < 1023)%nat)
      (skipn (length (@nil File))
         [("/data/local/tmp/dump_000_seq_000_tensor_000"%string, ["005"%byte]);
          ("/data/local/tmp/dump_000_seq_000_tensor_002"%string, ["005"%byte]);
          ("/data/local/tmp/dump_000_seq_001_tensor_000"%string, ["001"%byte]);
          ("/data/local/tmp/dump_000_seq_001_tensor_002"%string, ["001"%byte])])).
  { cbn [skipn length].
    repeat (apply Forall_cons; [vm_compute; lia |]). apply Forall_nil. }
  split; [exact Hshort |].
  refine (dumpAllLayers_no_overwrite (fun _ => false) "/data/local/tmp"
            [[Toy.entry "005" "003"; Toy.entry "001" "004"];
             [Toy.entry "255" "000"; Toy.entry "002" "002"]] []
            (Toy.world (Toy.one_byte kTfLiteUInt8)) false _
            (mkWorld
               (Toy.mkInterp (mkTensor kTfLiteUInt8 ["255"%byte])
                             (mkTensor kTfLiteUInt8 ["001"%byte]))
               0
               [mkLog ANDROID_LOG_ERROR "Failed to invoke: %d!" [1];
                mkLog ANDROID_LOG_ERROR "Inference %d failed" [0]]
               []) _ Hshort).
  vm_compute. reflexivity.
Defined.

Lemma dumpAllLayers_runs_witness :
  exists new w',
    dumpAllLayers (fun _ => false) "/data/local/tmp" Toy.two_sequences []
                  (Toy.world (Toy.one_byte kTfLiteUInt8))
    = Done ((true, [] ++ new), w') /\
    map fst new
    = flat_map (fun e : nat * nat * InferenceInOut =>
                  dump_names "/data/local/tmp" (fst (fst e)) (snd (fst e)) 0
                             [true; false; true])
               (dump_schedule 0 Toy.two_sequences) /\
    (forall (disk : Disk) name,
        In name (map fst new) ->
        exists raw_bytes,
          disk_after disk new name = Some raw_bytes /\
          In (name, raw_bytes) new) /\
    (forall (disk : Disk) name,
        ~ In name (map fst new) -> disk_after disk new name = disk name).
Proof.
  apply (dumpAllLayers_runs (fun _ => false)
           (fun t : Toy.Interp =>
              type (Toy.t_in t) = kTfLiteUInt8 /\
              length (raw (Toy.t_in t)) = 1%nat)
           [true; false; true] "/data/local/tmp" Toy.two_sequences).
  - reflexivity.
  - intros interp Hready. exact Hready.
  - intros seq data [[ty rin] tout] Hseq Hdata [Hty Hlen].
    simpl in Hty, Hlen. subst ty.
    destruct rin as [| b0 [| ? ?]]; try discriminate.
    assert (Hentry : exists bi bo,
               data = Toy.entry bi bo /\ Byte.eqb bi "255" = false).
    { destruct Hseq as [<- | [<- | []]];
        repeat (destruct Hdata as [<- | Hdata];
                [do 2 eexists; split; reflexivity |]);
        destruct Hdata. }
    destruct Hentry as (bi & bo & -> & Hbi).
    exists [bi], [bi],
      (Toy.mkInterp (mkTensor kTfLiteUInt8 [bi]) (mkTensor (type tout) [bi])).
    simpl. unfold Toy.poisoned. simpl. rewrite Hbi.
    repeat split; auto.
  - discriminate.
  - split; reflexivity.
Defined.

Lemma dumpAllLayers_null_input_witness :
  input (Toy.filled true "000") = None /\
  dumpAllLayers (fun _ => false) "/data/local/tmp"
                [[Toy.filled true "000"]] []
                (Toy.world (Toy.one_byte kTfLiteUInt8))
  = Undefined.
Proof.
  split; [reflexivity |].
  apply (dumpAllLayers_null_input (fun _ => false) "/data/local/tmp"
           (Toy.filled true "000") [] [] []
           (Toy.world (Toy.one_byte kTfLiteUInt8))).
  - reflexivity.
  - right. reflexivity.
Defined.

Lemma dumpAllLayers_untimed_witness :
  exists r w',
    dumpAllLayers (fun _ => false) "/data/local/tmp" Toy.two_sequences []
                  (mkWorld (Toy.one_byte kTfLiteUInt8) 7 []
                           [TraceCall 1 None])
    = Done (r, w') /\
    clock_reads w' = 7%nat /\
    systrace w' = [TraceCall 1 None].
Proof.
  do 2 eexists. split; [vm_compute; reflexivity |].
  refine (dumpAllLayers_untimed (fun _ => false) "/data/local/tmp"
            Toy.two_sequences []
            (mkWorld (Toy.one_byte kTfLiteUInt8) 7 [] [TraceCall 1 None])
            _ _ _).
  vm_compute. reflexivity.
Defined.

Lemma dumpAllLayers_fatal_witness :
  exists msg,
    dumpAllLayers (fun _ => false) "/data/local/tmp" [] []
                  (Toy.world (Toy.one_byte kTfLiteUInt8))
    = Fatal msg.
Proof.
  apply (proj2 (dumpAllLayers_fatal (fun _ => false) "/data/local/tmp" [] []
                  (Toy.world (Toy.one_byte kTfLiteUInt8)))).
  reflexivity.
Defined.
